(** * Food-log parsing, nutrition aggregation and highlight projection

    A shallow embedding of the text core of the macro-tracking plugin
    ([NutritionCalculator.ts], [FoodHighlightCore.ts]), of the rendered-view
    reconciliation pass ([FoodHighlightPostProcessor.ts]) and of the cache of
    nutrient files ([NutrientCache.ts]), together with the properties of the
    specification that are checked against them and further properties of
    the code.

    Conventions.
    - A JavaScript string is a list of code units; code units are restricted
      to the Latin-1 range and represented by [ascii].
    - A JavaScript [number] is an IEEE-754 binary64 value, represented by the
      primitive type [float].
    - A JavaScript object used as a record of optional numeric fields is an
      association list in insertion order. *)

From Stdlib Require Import Ascii String.
From Stdlib Require Import List Bool Arith ZArith Lia.
From Stdlib Require Import Floats.
Import ListNotations.
Open Scope list_scope.
Open Scope nat_scope.

Set Implicit Arguments.
Set Warnings "-register-all".

(** ** Strings *)

Module Str.

Definition str := list ascii.

Definition lit (s : string) : str := list_ascii_of_string s.

Definition code (c : ascii) : nat := nat_of_ascii c.

Fixpoint eqb (a b : str) : bool :=
  match a, b with
  | [], [] => true
  | x :: a', y :: b' => Ascii.eqb x y && eqb a' b'
  | _, _ => false
  end.

(** White space and line terminators of ECMAScript that fall in Latin-1:
    TAB, LF, VT, FF, CR, SPACE and NBSP.  This is both the class [\s] and
    the set stripped by [String.prototype.trim]. *)
Definition is_space (c : ascii) : bool :=
  let n := code c in
  ((9 <=? n) && (n <=? 13)) || (n =? 32) || (n =? 160).

Definition is_digit (c : ascii) : bool :=
  let n := code c in (48 <=? n) && (n <=? 57).

(** Line terminators, the characters [.] refuses. *)
Definition is_line_terminator (c : ascii) : bool :=
  let n := code c in (n =? 10) || (n =? 13).

(** [String.prototype.toLowerCase] on Latin-1 code units. *)
Definition lower_char (c : ascii) : ascii :=
  let n := code c in
  if ((65 <=? n) && (n <=? 90))
     || ((192 <=? n) && (n <=? 222) && negb (n =? 215))
  then ascii_of_nat (n + 32) else c.

Definition toLowerCase (s : str) : str := map lower_char s.

(** Canonicalisation used by a case-insensitive regular expression, on the
    letters of the patterns of this program (all of them ASCII): an ASCII
    letter matches both of its cases and nothing else. *)
Definition upper_ascii (c : ascii) : ascii :=
  let n := code c in
  if (97 <=? n) && (n <=? 122) then ascii_of_nat (n - 32) else c.

Fixpoint trimStart (s : str) : str :=
  match s with
  | c :: s' => if is_space c then trimStart s' else s
  | [] => []
  end.

Definition trim (s : str) : str := rev (trimStart (rev (trimStart s))).

Definition newline : str := ["010"%char].

(** [s.split("\n")]: never empty, one more piece than there are newlines. *)
Fixpoint split_newline (s : str) : list str :=
  match s with
  | [] => [[]]
  | c :: s' =>
      if Ascii.eqb c "010"%char then [] :: split_newline s'
      else match split_newline s' with
           | l :: ls => (c :: l) :: ls
           | [] => [[c]]
           end
  end.

Fixpoint prefixb (p s : str) : bool :=
  match p, s with
  | [], _ => true
  | x :: p', y :: s' => Ascii.eqb x y && prefixb p' s'
  | _ :: _, [] => false
  end.

(** [s.indexOf(p)]; [None] stands for -1. *)
Fixpoint indexOf_from (i : nat) (p s : str) : option nat :=
  if prefixb p s then Some i
  else match s with
       | [] => None
       | _ :: s' => indexOf_from (S i) p s'
       end.

Definition indexOf (s p : str) : option nat := indexOf_from 0 p s.

(** [s.substring(a, b)] and [s.substring(a)]: the arguments are clamped to
    the string and swapped when out of order. *)
Definition clamp (s : str) (a : Z) : nat :=
  Z.to_nat (Z.min (Z.max 0 a) (Z.of_nat (length s))).

Definition substring (s : str) (a b : Z) : str :=
  let lo := Nat.min (clamp s a) (clamp s b) in
  let hi := Nat.max (clamp s a) (clamp s b) in
  firstn (hi - lo) (skipn lo s).

Definition substring_from (s : str) (a : Z) : str := skipn (clamp s a) s.

(** [s.split(sep)] for a one-character separator. *)
Fixpoint split_char (sep : ascii) (s : str) : list str :=
  match s with
  | [] => [[]]
  | c :: s' =>
      if Ascii.eqb c sep then [] :: split_char sep s'
      else match split_char sep s' with
           | l :: ls => (c :: l) :: ls
           | [] => [[c]]
           end
  end.

End Str.

Import Str.

(** ** A backtracking matcher for the regular expressions of the program

    The matcher enumerates, in the priority order of ECMAScript's
    backtracking semantics, the states in which a pattern can stop; the
    first one is the match the engine reports.  Only the constructs that
    occur in the source are present. *)

Module Regex.

Inductive regex : Type :=
| Eps : regex
| Chr : (ascii -> bool) -> regex
| Seq : regex -> regex -> regex
| Alt : regex -> regex -> regex
| Star : bool -> regex -> regex          (* [true]: greedy, [false]: lazy *)
| Group : nat -> regex -> regex          (* capturing group number n *)
| NegLook : regex -> regex               (* (?!r) *)
| Bol : bool -> regex                    (* ^, the flag is /m *)
| Eol : bool -> regex.                   (* $, the flag is /m *)

(** The matcher's position: the characters already passed, nearest first,
    and the characters still ahead. *)
Record mstate : Type := MState {
  passed : str;
  ahead : str;
  caps : list (nat * str)
}.

Definition index_of (st : mstate) : nat := length (passed st).

(** A repetition body must consume input for the iteration to count
    (ECMAScript rejects an empty iteration), so the number of iterations
    is bounded by the remaining length. *)
Fixpoint star_loop (greedy : bool) (body : mstate -> list mstate)
         (fuel : nat) (st : mstate) : list mstate :=
  match fuel with
  | 0 => [st]
  | S fuel' =>
      let more :=
        flat_map (fun st' =>
                    if length (ahead st') <? length (ahead st)
                    then star_loop greedy body fuel' st'
                    else [])
                 (body st) in
      if greedy then more ++ [st] else st :: more
  end.

Fixpoint run (r : regex) (st : mstate) : list mstate :=
  match r with
  | Eps => [st]
  | Chr p =>
      match ahead st with
      | c :: s' => if p c then [MState (c :: passed st) s' (caps st)] else []
      | [] => []
      end
  | Seq a b => flat_map (run b) (run a st)
  | Alt a b => run a st ++ run b st
  | Star greedy a => star_loop greedy (run a) (S (length (ahead st))) st
  | Group n a =>
      map (fun st' =>
             MState (passed st') (ahead st')
                    ((n, firstn (index_of st' - index_of st) (ahead st))
                       :: caps st'))
          (run a st)
  | NegLook a =>
      match run a st with
      | [] => [st]
      | _ :: _ => []
      end
  | Bol multiline =>
      match passed st with
      | [] => [st]
      | c :: _ => if multiline && is_line_terminator c then [st] else []
      end
  | Eol multiline =>
      match ahead st with
      | [] => [st]
      | c :: _ => if multiline && is_line_terminator c then [st] else []
      end
  end.

(** Derived forms. *)
Definition Plus (greedy : bool) (r : regex) : regex := Seq r (Star greedy r).
Definition Opt (r : regex) : regex := Alt r Eps.

(** [r{1,n}], greedy. *)
Fixpoint UpTo (n : nat) (r : regex) : regex :=
  match n with
  | 0 => Eps
  | S n' => Opt (Seq r (UpTo n' r))
  end.
Definition Rep1 (n : nat) (r : regex) : regex := Seq r (UpTo (n - 1) r).

Fixpoint Lit (ci : bool) (s : str) : regex :=
  match s with
  | [] => Eps
  | c :: s' =>
      Seq (Chr (fun x => if ci then Ascii.eqb (upper_ascii x) (upper_ascii c)
                         else Ascii.eqb x c))
          (Lit ci s')
  end.

Fixpoint AltOf (rs : list regex) : regex :=
  match rs with
  | [] => Chr (fun _ => false)
  | [r] => r
  | r :: rs' => Alt r (AltOf rs')
  end.

(** The result of a successful [exec]: [index], the matched text [m[0]]
    and the captures. *)
Record rmatch : Type := RMatch {
  index : nat;
  whole : str;
  groups : list (nat * str)
}.

Definition last_index (m : rmatch) : nat := index m + length (whole m).

Fixpoint lookup_group (n : nat) (gs : list (nat * str)) : option str :=
  match gs with
  | [] => None
  | (k, s) :: gs' => if k =? n then Some s else lookup_group n gs'
  end.

(** [m[n]] for a group that took part in the match. *)
Definition group (n : nat) (m : rmatch) : str :=
  match lookup_group n (groups m) with
  | Some s => s
  | None => []
  end.

Definition match_here (r : regex) (before after : str) : option rmatch :=
  match run r (MState before after []) with
  | st :: _ =>
      Some (RMatch (length before)
                   (firstn (index_of st - length before) after)
                   (caps st))
  | [] => None
  end.

(** The search for the leftmost match, from the position reached. *)
Fixpoint search (r : regex) (before after : str) : option rmatch :=
  match match_here r before after with
  | Some m => Some m
  | None =>
      match after with
      | [] => None
      | c :: after' => search r (c :: before) after'
      end
  end.

(** [r.exec(s)] with [lastIndex = i]; for a regular expression without the
    [g] flag [i] is always 0. *)
Definition exec_from (r : regex) (s : str) (i : nat) : option rmatch :=
  if length s <? i then None
  else search r (rev (firstn i s)) (skipn i s).

Definition exec (r : regex) (s : str) : option rmatch := exec_from r s 0.

(** The loop [while ((m = r.exec(s)) !== null)] of a [g] regular
    expression, and [s.matchAll(r)]: every match, left to right, each
    search resuming where the previous match ended.  None of the patterns
    of the program matches the empty string; an empty match ends the
    enumeration here. *)
Fixpoint exec_all_from (fuel : nat) (r : regex) (s : str) (i : nat)
  : list rmatch :=
  match fuel with
  | 0 => []
  | S fuel' =>
      match exec_from r s i with
      | None => []
      | Some m =>
          if last_index m <=? i then [m]
          else m :: exec_all_from fuel' r s (last_index m)
      end
  end.

Definition exec_all (r : regex) (s : str) : list rmatch :=
  exec_all_from (S (length s)) r s 0.

Definition test (r : regex) (s : str) : bool :=
  match exec r s with Some _ => true | None => false end.

End Regex.

Import Regex.

(** ** Numbers

    [number] is binary64.  [parseFloat] is modelled on the decimal literals
    the patterns of the program hand to it: an optional minus sign, digits,
    and an optional fraction. *)

Module Num.

Definition number := float.

Definition digit_val (c : ascii) : Z := Z.of_nat (code c - 48).

Fixpoint digits_val (acc : Z) (s : str) : Z :=
  match s with
  | [] => acc
  | c :: s' => digits_val (10 * acc + digit_val c)%Z s'
  end.

Fixpoint take_digits (s : str) : str * str :=
  match s with
  | c :: s' =>
      if is_digit c then let (d, r) := take_digits s' in (c :: d, r)
      else ([], s)
  | [] => ([], [])
  end.

(** The binary64 value nearest to [n / d] (ties to even), signed. *)
Definition of_ratio (neg : bool) (n d : Z) : number :=
  match n with
  | Z0 => if neg then neg_zero else zero
  | _ =>
      let '(q, e, l) := SFdiv_core_binary prec emax n 0 d 0 in
      SF2Prim (binary_round_aux prec emax neg q e l)
  end.

Definition of_Z (z : Z) : number :=
  SF2Prim (binary_normalize prec emax z 0 false).

Definition parseFloat (s : str) : number :=
  let (neg, s1) :=
    match s with
    | c :: s' => if Ascii.eqb c "-"%char then (true, s') else (false, s)
    | [] => (false, s)
    end in
  let (ip, s2) := take_digits s1 in
  match ip with
  | [] => nan
  | _ :: _ =>
      let fp :=
        match s2 with
        | c :: s3 => if Ascii.eqb c "."%char then fst (take_digits s3) else []
        | [] => []
        end in
      of_ratio neg (digits_val 0 (ip ++ fp)) (10 ^ Z.of_nat (length fp))
  end.

(** [Math.round]: the nearest integer, ties towards +infinity; NaN,
    infinities and zeros are returned unchanged, and a negative argument
    that rounds to zero gives -0. *)
Definition Math_round (x : number) : number :=
  match Prim2SF x with
  | S754_finite s m e =>
      match e with
      | Zneg p =>
          let den := Z.pow_pos 2 p in
          let twice := (2 * Zpos m)%Z in
          if s then
            (* -(m/den): round to -ceil(m/den - 1/2) *)
            let q := (- ((den - twice) / (2 * den)))%Z in
            if (q =? 0)%Z then neg_zero else (- of_Z q)%float
          else
            of_Z ((twice + den) / (2 * den))%Z
      | _ => x
      end
  | _ => x
  end.

(** [Math.max] of two arguments. *)
Definition Math_max (a b : number) : number :=
  if is_nan a || is_nan b then nan
  else if (a <? b)%float then b
  else if (b <? a)%float then a
  else if is_zero a && get_sign a then b else a.

(** [a > b], [a >= b] and the strict equality of two numbers. *)
Definition gt (a b : number) : bool := (b <? a)%float.
Definition ge (a b : number) : bool := (b <=? a)%float.

(** [isFinite] *)
Definition isFinite (x : number) : bool := negb (is_nan x || is_infinity x).

(** The integer a finite integral number denotes. *)
Definition to_integer (x : number) : Z :=
  match Prim2SF x with
  | S754_finite s m e =>
      let v := match e with
               | Zneg p => (Zpos m / Z.pow_pos 2 p)%Z
               | _ => (Zpos m * 2 ^ e)%Z
               end in
      if s then (- v)%Z else v
  | _ => 0%Z
  end.

Definition digit_char (d : Z) : ascii := ascii_of_nat (48 + Z.to_nat d).

Fixpoint decimal_digits (fuel : nat) (v : Z) (acc : str) : str :=
  match fuel with
  | 0 => acc
  | S fuel' =>
      let acc' := digit_char (v mod 10) :: acc in
      if (v <? 10)%Z then acc' else decimal_digits fuel' (v / 10) acc'
  end.

(** The decimal digits of a natural number. *)
Definition digits_of (v : Z) : str := decimal_digits (S (Z.to_nat (Z.log2 v))) v [].

(** The shortest digit string [s] of [k] digits, with its decimal exponent
    [n], such that [s * 10^(n-k)] converts to [x]: the candidates with [k]
    digits are the two multiples of [10^(nd-k)] around the exact value. *)
Fixpoint shortest_digits (fuel : nat) (x : number) (v : Z) (nd k : Z) : Z * Z * Z :=
  match fuel with
  | 0 => (v, nd, nd)
  | S fuel' =>
      let scale := (10 ^ (nd - k))%Z in
      let lo := (v / scale)%Z in
      let hi := (lo + 1)%Z in
      let ok (s : Z) := PrimFloat.eqb (of_Z (s * scale)) x in
      let norm (s : Z) :=
        if (s =? 10 ^ k)%Z then (10 ^ (k - 1), k, nd + 1)%Z else (s, k, nd) in
      let dlo := (v - lo * scale)%Z in
      let dhi := (hi * scale - v)%Z in
      match ok lo, ok hi with
      | true, true =>
          if (dlo <? dhi)%Z then norm lo
          else if (dhi <? dlo)%Z then norm hi
          else if Z.even lo then norm lo else norm hi
      | true, false => norm lo
      | false, true => norm hi
      | false, false => shortest_digits fuel' x v nd (k + 1)%Z
      end
  end.

(** [Number::toString] on the numbers a template literal receives here:
    finite, not negative and integral ([-0] prints as [0]). *)
Definition number_to_string (x : number) : str :=
  let v := to_integer x in
  if (v <=? 0)%Z then lit "0"
  else
    let nd := Z.of_nat (length (digits_of v)) in
    let '(s, k, n) := shortest_digits (Z.to_nat nd) x v nd 1 in
    let ds := digits_of s in
    if (n <=? 21)%Z then ds ++ repeat "0"%char (Z.to_nat (n - k))
    else
      match ds with
      | d :: rest =>
          (d :: match rest with [] => [] | _ :: _ => "."%char :: rest end)
            ++ lit "e+" ++ digits_of (n - 1)
      | [] => []
      end.

End Num.

Import Num.

(** ** The patterns of the program *)

Module Patterns.

Definition chr (c : ascii) : regex := Chr (Ascii.eqb c).
Definition not_chr (c : ascii) : regex := Chr (fun x => negb (Ascii.eqb x c)).
Definition space : regex := Chr is_space.
Definition not_space : regex := Chr (fun x => negb (is_space x)).
Definition digit : regex := Chr is_digit.
Definition dot : regex := Chr (fun x => negb (is_line_terminator x)).
Definition word (s : string) : regex := Lit true (lit s).

(** The heading pattern: start of input, one to six [#] captured as
    group 1, optional white space, the rest of the line (any characters
    but line terminators, greedy) captured as group 2, end of input. *)
Definition headingRegex : regex :=
  Seq (Bol false)
      (Seq (Group 1 (Rep1 6 (chr "#")))
           (Seq (Star true space)
                (Seq (Group 2 (Star true dot)) (Eol false)))).

(** [\d+(?:\.\d+)?] *)
Definition unsigned_number : regex :=
  Seq (Plus true digit) (Opt (Seq (chr ".") (Plus true digit))).

(** [-?\d+(?:\.\d+)?] *)
Definition signed_number : regex := Seq (Opt (chr "-")) unsigned_number.

(** [kg|lb|cups?|tbsp|tsp|ml|oz|g|l|pcs?] *)
Definition units : regex :=
  AltOf [word "kg"; word "lb"; Seq (word "cup") (Opt (word "s"));
         word "tbsp"; word "tsp"; word "ml"; word "oz"; word "g"; word "l";
         Seq (word "pc") (Opt (word "s"))].

(** [kcal|fat|satfat|prot|carbs|sugar|fiber|sodium] *)
Definition tags : regex :=
  AltOf [word "kcal"; word "fat"; word "satfat"; word "prot"; word "carbs";
         word "sugar"; word "fiber"; word "sodium"].

(** [/\[\[([^\]]+)\]\]\s+(\d+(?:\.\d+)?)(kg|lb|cups?|tbsp|tsp|ml|oz|g|l|pcs?)/i],
    also used with the [g] flag. *)
Definition linkedRegex : regex :=
  Seq (word "[[")
      (Seq (Group 1 (Plus true (not_chr "]")))
           (Seq (word "]]")
                (Seq (Plus true space)
                     (Seq (Group 2 unsigned_number) (Group 3 units))))).

(** [-?\d+(?:\.\d+)?(?:kcal|fat|satfat|prot|carbs|sugar|fiber|sodium)] *)
Definition nutrient_token : regex := Seq signed_number tags.

(** The inline-entry pattern, case-insensitive and not anchored: a
    negative look-ahead for two opening brackets; group 1, a non-space
    character followed lazily by characters other than a newline; white
    space; group 2, a nutrient token followed greedily by further tokens,
    each after white space. *)
Definition inlineRegex : regex :=
  Seq (NegLook (word "[["))
      (Seq (Group 1 (Seq not_space (Star false (not_chr "010"))))
           (Seq (Plus true space)
                (Group 2 (Seq nutrient_token
                              (Star true (Seq (Plus true space)
                                              nutrient_token)))))).

(** [/(-?\d+(?:\.\d+)?)\s*(kcal|fat|satfat|prot|carbs|sugar|fiber|sodium)/gi] *)
Definition nutrientRegex : regex :=
  Seq (Group 1 signed_number) (Seq (Star true space) (Group 2 tags)).

(** [/^##\s*Food Log$/im] *)
Definition foodLogRegex : regex :=
  Seq (Bol true)
      (Seq (word "##")
           (Seq (Star true space) (Seq (word "Food Log") (Eol true)))).

(** The outcome of [line.match(headingRegex)]: the heading level
    [m[1].length] and the trimmed title [m[2].trim()]. *)
Definition headingMatch (line : str) : option (nat * str) :=
  match exec headingRegex line with
  | Some m => Some (length (group 1 m), trim (group 2 m))
  | None => None
  end.

(** The test [level === 2 && title.toLowerCase() === headingText.toLowerCase()]. *)
Definition opens_section (headingText : str) (h : nat * str) : bool :=
  (fst h =? 2) && Str.eqb (toLowerCase (snd h)) (toLowerCase headingText).

End Patterns.

Import Patterns.

(** ** Objects with optional numeric fields

    [NutrientData], [NutrientGoals], [InlineNutrientEntry] and the progress
    record table are objects whose keys are drawn from a fixed set.  An
    object is the list of its own properties in insertion order, as
    [Object.keys] enumerates them. *)

Module Obj.

Inductive key : Type :=
| calories | fats | saturated_fats | protein | carbs | fiber | sugar
| sodium | serving_size.

Definition key_eqb (a b : key) : bool :=
  match a, b with
  | calories, calories | fats, fats | saturated_fats, saturated_fats
  | protein, protein | carbs, carbs | fiber, fiber | sugar, sugar
  | sodium, sodium | serving_size, serving_size => true
  | _, _ => false
  end.

Section Objects.
Variable V : Type.

Definition obj := list (key * V).

Definition empty : obj := [].

(** [o[k]]; [None] is [undefined]. *)
Fixpoint get (k : key) (o : obj) : option V :=
  match o with
  | [] => None
  | (k', v) :: o' => if key_eqb k' k then Some v else get k o'
  end.

(** [o[k] = v]: an existing property keeps its place, a new one is
    added last. *)
Fixpoint set (k : key) (v : V) (o : obj) : obj :=
  match o with
  | [] => [(k, v)]
  | (k', v') :: o' =>
      if key_eqb k' k then (k, v) :: o' else (k', v') :: set k v o'
  end.

(** [Object.keys(o)] and [Object.values(o)]. *)
Definition keys (o : obj) : list key := map fst o.
Definition values (o : obj) : list V := map snd o.

End Objects.

Arguments empty {V}.

End Obj.

Import Obj.

(** ** NutritionCalculator.ts *)

Module NutritionCalculator.

Definition NutrientData := obj number.
Definition NutrientGoals := obj number.
Definition InlineNutrientEntry := obj number.

Record NutrientGoalProgress : Type := {
  remaining : number;
  percentConsumed : number;
  percentRemaining : number
}.

Record FoodEntry : Type := {
  filename : str;
  amount : number;
  unit : str
}.

Record NutritionCalculationResult : Type := {
  linkedTotals : NutrientData;
  inlineTotals : NutrientData;
  workoutTotals : NutrientData;
  combinedTotals : NutrientData;
  clampedTotals : NutrientData;
  goalProgress : option (obj NutrientGoalProgress)
}.

(** The value thrown by a failing lookup. *)
Definition error := str.

(** What a call of [getNutritionData] does: return data, return [null],
    or throw. *)
Inductive lookup : Type :=
| Found : NutrientData -> lookup
| NotFound : lookup
| Thrown : error -> lookup.

(** The fields of [NutritionCalculationParams] the result depends on.  The
    tag fields ([foodTag], [workoutTag] and their escaping flags) only feed
    local constants that are never read. *)
Record NutritionCalculationParams : Type := {
  content : str;
  getNutritionData : str -> lookup;
  goals : option NutrientGoals
}.

(** [extractLinesUnderHeading]: the loop over [content.split("\n")], with
    [inSection] as the loop state; [continue] and [break] are the first two
    branches. *)
Fixpoint section_loop (headingText : str) (lines : list str)
         (inSection : bool) : list str :=
  match lines with
  | [] => []
  | line :: rest =>
      let push := if inSection then [line] else [] in
      match headingMatch line with
      | Some h =>
          if opens_section headingText h then
            section_loop headingText rest true
          else if inSection && (fst h <=? 2) then []
          else push ++ section_loop headingText rest inSection
      | None => push ++ section_loop headingText rest inSection
      end
  end.

Definition extractLinesUnderHeading (content : str) (headingText : str)
  : list str :=
  section_loop headingText (split_newline content) false.

Definition parseFoodEntriesFromLines (lines : list str) : list FoodEntry :=
  flat_map
    (fun line =>
       match exec linkedRegex line with
       | Some m =>
           [{| filename := group 1 m;
               amount := parseFloat (group 2 m);
               unit := toLowerCase (group 3 m) |}]
       | None => []
       end)
    lines.

Definition nutrientKeyMap (unit : str) : option key :=
  if Str.eqb unit (lit "kcal") then Some calories
  else if Str.eqb unit (lit "fat") then Some fats
  else if Str.eqb unit (lit "satfat") then Some saturated_fats
  else if Str.eqb unit (lit "prot") then Some protein
  else if Str.eqb unit (lit "carbs") then Some carbs
  else if Str.eqb unit (lit "sugar") then Some sugar
  else if Str.eqb unit (lit "fiber") then Some fiber
  else if Str.eqb unit (lit "sodium") then Some sodium
  else None.

(** [x ?? 0] *)
Definition or_zero (x : option number) : number :=
  match x with Some v => v | None => zero end.

Definition parseNutrientString (nutrientString : str) : InlineNutrientEntry :=
  fold_left
    (fun nutrientData m =>
       let value := parseFloat (group 1 m) in
       let unit := toLowerCase (group 2 m) in
       match nutrientKeyMap unit with
       | Some key =>
           set key (or_zero (get key nutrientData) + value)%float nutrientData
       | None => nutrientData
       end)
    (exec_all nutrientRegex nutrientString)
    empty.

Definition parseInlineNutrientEntriesFromLines (lines : list str)
  : list InlineNutrientEntry :=
  flat_map
    (fun line =>
       match exec inlineRegex line with
       | Some foodMatch =>
           let nutrientData := parseNutrientString (group 2 foodMatch) in
           if 0 <? length (keys nutrientData) then [nutrientData] else []
       | None => []
       end)
    lines.

(** [addNutrients(target, source, multiplier)] returns the updated target. *)
Definition addNutrients (target source : NutrientData) (multiplier : number)
  : NutrientData :=
  fold_left
    (fun target key =>
       match get key source with
       | Some v => set key (or_zero (get key target) + v * multiplier)%float target
       | None => target
       end)
    (keys source)
    target.

Definition calculateInlineTotals (entries : list InlineNutrientEntry)
  : NutrientData :=
  fold_left (fun totals entry => addNutrients totals entry one) entries empty.

Definition filterValidWorkoutEntries (entries : list InlineNutrientEntry)
  : list InlineNutrientEntry :=
  filter
    (fun entry =>
       let hasPositiveValues := existsb (fun value => gt value zero) (values entry) in
       let hasNoNegativeCalories :=
         match get calories entry with
         | None => true
         | Some c => ge c zero
         end in
       hasPositiveValues && hasNoNegativeCalories)
    entries.

Definition combineNutrients (nutrients1 nutrients2 : NutrientData)
  : NutrientData :=
  addNutrients nutrients1 nutrients2 one.

Definition clampNutrientsToZero (nutrients : NutrientData) : NutrientData :=
  fold_left
    (fun clamped key =>
       match get key nutrients with
       | Some value => set key (Math_max zero value) clamped
       | None => clamped
       end)
    (keys nutrients)
    empty.

Definition nutrientKeys : list key :=
  [calories; fats; saturated_fats; protein; carbs; fiber; sugar; sodium].

Definition progress_record (goal consumedValue : number) : NutrientGoalProgress :=
  let remaining := (goal - consumedValue)%float in
  {| remaining := remaining;
     percentConsumed :=
       if gt goal zero then Math_round ((consumedValue / goal) * 100)%float
       else zero;
     percentRemaining :=
       if gt goal zero
       then Math_max zero (Math_round ((remaining / goal) * 100)%float)
       else zero |}.

Definition calculateGoalProgress (consumed : NutrientData) (goals : NutrientGoals)
  : obj NutrientGoalProgress :=
  fold_left
    (fun progress key =>
       let consumedValue := or_zero (get key consumed) in
       match get key goals with
       | Some goal => set key (progress_record goal consumedValue) progress
       | None => progress
       end)
    nutrientKeys
    empty.

Section WithUnits.

(** [getUnitMultiplier] comes from [constants.ts], which is not part of
    the sources at hand; it is a parameter of what follows.  Its third
    argument is the optional serving size. *)
Variable getUnitMultiplier : number -> str -> option number -> number.

(** The calls of [handleReadError], in order. *)
Definition read_errors := list (str * error).

(** [calculateTotals]: the loop state is the totals and the calls of the
    error callback made so far.  The callback is taken to return
    normally, as the default one does. *)
Fixpoint totals_loop (getNutritionData : str -> lookup)
         (entries : list FoodEntry) (totals : NutrientData)
         (log : read_errors) : NutrientData * read_errors :=
  match entries with
  | [] => (totals, log)
  | entry :: rest =>
      match getNutritionData (filename entry) with
      | Thrown error =>
          totals_loop getNutritionData rest totals
                      (log ++ [(filename entry, error)])
      | NotFound => totals_loop getNutritionData rest totals log
      | Found nutrients =>
          let multiplier :=
            getUnitMultiplier (amount entry) (unit entry)
                              (get serving_size nutrients) in
          totals_loop getNutritionData rest
                      (addNutrients totals nutrients multiplier) log
      end
  end.

Definition calculateTotals (entries : list FoodEntry)
           (getNutritionData : str -> lookup)
  : NutrientData * read_errors :=
  totals_loop getNutritionData entries empty [].

Definition calculateNutritionTotals (params : NutritionCalculationParams)
  : option NutritionCalculationResult * read_errors :=
  let foodLogLines := extractLinesUnderHeading (content params) (lit "Food Log") in
  let foodEntries := parseFoodEntriesFromLines foodLogLines in
  let inlineEntries := parseInlineNutrientEntriesFromLines foodLogLines in
  let workoutEntries : list InlineNutrientEntry := [] in
  if (length foodEntries =? 0) && (length inlineEntries =? 0)
     && (length workoutEntries =? 0)
  then (None, [])
  else
    let '(linkedTotals, log) :=
      calculateTotals foodEntries (getNutritionData params) in
    let inlineTotals := calculateInlineTotals inlineEntries in
    let '(workoutTotals, inlineTotals) :=
      if 0 <? length workoutEntries then
        let validWorkoutEntries := filterValidWorkoutEntries workoutEntries in
        if 0 <? length validWorkoutEntries then
          let workoutTotals := calculateInlineTotals validWorkoutEntries in
          if 0 <? length (keys workoutTotals)
          then (workoutTotals,
                addNutrients inlineTotals workoutTotals (-1)%float)
          else (workoutTotals, inlineTotals)
        else (empty, inlineTotals)
      else (empty, inlineTotals) in
    let combinedTotals := combineNutrients linkedTotals inlineTotals in
    let clampedTotals := clampNutrientsToZero combinedTotals in
    let goalProgress :=
      match goals params with
      | Some g => Some (calculateGoalProgress clampedTotals g)
      | None => None
      end in
    (Some {| linkedTotals := linkedTotals;
             inlineTotals := inlineTotals;
             workoutTotals := workoutTotals;
             combinedTotals := combinedTotals;
             clampedTotals := clampedTotals;
             goalProgress := goalProgress |},
     log).

End WithUnits.

End NutritionCalculator.

(** ** FoodHighlightCore.ts *)

Module FoodHighlightCore.

Inductive range_type : Type := nutrition | amount.

Record HighlightRange : Type := {
  start : Z;
  end_ : Z;
  type : range_type
}.

Record CalorieAnnotation : Type := {
  position : Z;
  text : str
}.

(** A computation that returns or throws. *)
Inductive outcome (A : Type) : Type :=
| Return : A -> outcome A
| Throw : NutritionCalculator.error -> outcome A.
Arguments Return {A} _.
Arguments Throw {A} _.

Definition bind {A B : Type} (x : outcome A) (f : A -> outcome B) : outcome B :=
  match x with
  | Return a => f a
  | Throw e => Throw e
  end.

(** [CalorieProvider]: both methods answer a number or [null]. *)
Record CalorieProvider : Type := {
  getCaloriesForFood : str -> outcome (option number);
  getServingSize : str -> outcome (option number)
}.

Definition len (s : str) : Z := Z.of_nat (length s).

(** [extractLinesUnderHeading]: the loop state is [inSection] and the
    running [offset]. *)
Fixpoint section_loop (headingText : str) (lines : list str)
         (inSection : bool) (offset : Z) : list (str * Z) :=
  match lines with
  | [] => []
  | line :: rest =>
      let push := if inSection then [(line, offset)] else [] in
      let next := (offset + (len line + 1))%Z in
      match headingMatch line with
      | Some h =>
          if opens_section headingText h then
            section_loop headingText rest true next
          else if inSection && (fst h <=? 2) then []
          else push ++ section_loop headingText rest inSection next
      | None => push ++ section_loop headingText rest inSection next
      end
  end.

Definition extractLinesUnderHeading (text : str) (headingText : str)
  : list (str * Z) :=
  section_loop headingText (split_newline text) false 0%Z.

(** [s.indexOf(p)] as a number, -1 when [p] does not occur. *)
Definition indexOfZ (s p : str) : Z :=
  match indexOf s p with
  | Some i => Z.of_nat i
  | None => (-1)%Z
  end.

Definition amount_range (lineStart : Z) (linkedMatch : rmatch) : HighlightRange :=
  let amountStart :=
    (lineStart + Z.of_nat (index linkedMatch)
     + indexOfZ (whole linkedMatch) (group 2 linkedMatch))%Z in
  let amountEnd :=
    (amountStart + len (group 2 linkedMatch) + len (group 3 linkedMatch) + 1)%Z in
  {| start := amountStart; end_ := amountEnd; type := amount |}.

Definition nutrition_range (lineStart : Z) (inlineMatch : rmatch) : HighlightRange :=
  let valueStart := (lineStart + Z.of_nat (index inlineMatch))%Z in
  let valueEnd := (valueStart + len (whole inlineMatch))%Z in
  {| start := valueStart; end_ := valueEnd; type := nutrition |}.

Definition extractFoodHighlightRanges (text : str) (lineStart : Z)
  : list HighlightRange :=
  map (amount_range lineStart) (exec_all linkedRegex text)
  ++ map (nutrition_range lineStart) (exec_all nutrientRegex text).

Definition extractMultilineHighlightRanges (text : str) (startOffset : Z)
  : list HighlightRange :=
  flat_map
    (fun lo => extractFoodHighlightRanges (fst lo) (startOffset + snd lo)%Z)
    (extractLinesUnderHeading text (lit "Food Log")).

Section WithUnits.

(** [getUnitMultiplier], from [constants.ts], is a parameter here as in the
    calculator. *)
Variable getUnitMultiplier : number -> str -> option number -> number.

(** [rawFileName.split("|")[0].split("#")[0].split("/").pop()?.trim()] *)
Definition normalizeFileName (rawFileName : str) : str :=
  trim (last (split_char "/"%char
                (hd [] (split_char "#"%char
                          (hd [] (split_char "|"%char rawFileName)))))
             []).

(** The body of the inner [while] loop for one match: [None] is a
    [continue]. *)
Definition annotation_for (line : str) (lineEndPos : Z)
           (calorieProvider : CalorieProvider) (m : rmatch)
  : outcome (option CalorieAnnotation) :=
  let rawFileName := group 1 m in
  let amountString := group 2 m in
  let unit := group 3 m in
  let amount := parseFloat amountString in
  if negb (isFinite amount) || (amount <=? 0)%float then Return None
  else
    let normalizedFileName := normalizeFileName rawFileName in
    match normalizedFileName with
    | [] => Return None
    | _ :: _ =>
        bind (getCaloriesForFood calorieProvider normalizedFileName)
             (fun caloriesPerHundred =>
                match caloriesPerHundred with
                | None => Return None
                | Some caloriesPerHundred =>
                    if negb (isFinite caloriesPerHundred) then Return None
                    else
                      bind (getServingSize calorieProvider normalizedFileName)
                           (fun servingSize =>
                              let multiplier :=
                                getUnitMultiplier amount unit servingSize in
                              let calculatedCalories :=
                                (multiplier * caloriesPerHundred)%float in
                              if negb (isFinite calculatedCalories)
                                 || (calculatedCalories <? 0)%float
                              then Return None
                              else
                                let formattedCalories := Math_round calculatedCalories in
                                if negb (isFinite formattedCalories)
                                   || (formattedCalories <? 0)%float
                                then Return None
                                else
                                  Return
                                    (Some {| position := lineEndPos;
                                             text := number_to_string formattedCalories
                                                     ++ lit "kcal" |}))
                end)
    end.

(** A loop whose body may throw: the annotations pushed so far are lost
    with the exception. *)
Fixpoint annotations_loop {A : Type} (body : A -> outcome (option CalorieAnnotation))
         (items : list A) : outcome (list CalorieAnnotation) :=
  match items with
  | [] => Return []
  | x :: rest =>
      bind (body x)
           (fun a =>
              bind (annotations_loop body rest)
                   (fun more =>
                      Return (match a with Some a => a :: more | None => more end)))
  end.

Definition extractInlineCalorieAnnotations (text : str) (startOffset : Z)
           (calorieProvider : CalorieProvider)
  : outcome (list CalorieAnnotation) :=
  annotations_loop
    (fun lm : (str * Z) * rmatch =>
       let '((line, offset), m) := lm in
       annotation_for line (startOffset + offset + len line)%Z calorieProvider m)
    (flat_map
       (fun lo => map (fun m => (lo, m)) (exec_all linkedRegex (fst lo)))
       (extractLinesUnderHeading text (lit "Food Log"))).

End WithUnits.

End FoodHighlightCore.

(** ** FoodHighlightPostProcessor.ts

    The rendered tree is a finite tree of text nodes and elements.  A node
    of the live tree is named by its path from the container: the indices
    of the children to follow. *)

Module FoodHighlightPostProcessor.

Import FoodHighlightCore.

Inductive node : Type :=
| Text : str -> node
| Element : str -> list str -> option str -> list node -> node.
(* Element tagName classList (the data-href attribute) childNodes *)

Definition path := list nat.

Fixpoint textContent (n : node) : str :=
  match n with
  | Text data => data
  | Element _ _ _ children => flat_map textContent children
  end.

Definition value_class : str := lit "food-tracker-value".
Definition nutrition_class : str := lit "food-tracker-nutrition-value".
Definition negative_class : str := lit "food-tracker-negative-kcal".
Definition hint_class : str := lit "food-tracker-inline-calories".
Definition link_class : str := lit "internal-link".
Definition tag_class : str := lit "tag".

(** [el.classList.contains(c)] *)
Definition has_class (c : str) (n : node) : bool :=
  match n with
  | Text _ => false
  | Element _ classes _ _ => existsb (Str.eqb c) classes
  end.

Definition tag_name (n : node) : str :=
  match n with
  | Text _ => []
  | Element t _ _ _ => t
  end.

(** [node.getAttribute("data-href") ?? node.textContent], between double
    brackets. *)
Definition wikilink (n : node) : str :=
  let href :=
    match n with
    | Element _ _ (Some h) _ => h
    | _ => textContent n
    end in
  lit "[[" ++ href ++ lit "]]".

(** The case analysis the three tree walks share, in the order of their
    [if] chains. *)
Inductive kind : Type :=
| TextRun : str -> kind
| PriorAnnotation : kind
| LinkedReference : str -> kind
| Tag : str -> kind
| LineBreak : kind
| OtherContainer : kind.

Definition classify (n : node) : kind :=
  match n with
  | Text data => TextRun data
  | Element _ _ _ _ =>
      if has_class hint_class n then PriorAnnotation
      else if has_class link_class n then LinkedReference (wikilink n)
      else if has_class tag_class n then Tag (textContent n)
      else if Str.eqb (tag_name n) (lit "BR") then LineBreak
      else OtherContainer
  end.

(** The walks call [skipNodeChildren] on exactly these nodes. *)
Definition skips_children (n : node) : bool :=
  match classify n with
  | PriorAnnotation | LinkedReference _ | Tag _ => true
  | _ => false
  end.

(** The nodes a [TreeWalker] over the container hands to the loop body, in
    document order, each with its path: every descendant except those below
    a node whose children are skipped. *)
Fixpoint visit (p : path) (n : node) {struct n} : list (path * node) :=
  (p, n) ::
  match n with
  | Text _ => []
  | Element _ _ _ children =>
      if skips_children n then []
      else
        (fix visit_children (i : nat) (l : list node) {struct l}
           : list (path * node) :=
           match l with
           | [] => []
           | c :: l' => visit (p ++ [i]) c ++ visit_children (S i) l'
           end) 0 children
  end.

Fixpoint visit_forest (p : path) (i : nat) (l : list node) : list (path * node) :=
  match l with
  | [] => []
  | c :: l' => visit (p ++ [i]) c ++ visit_forest p (S i) l'
  end.

Definition walk (children : list node) : list (path * node) :=
  visit_forest [] 0 children.

Definition contribution (n : node) : str :=
  match classify n with
  | TextRun data => data
  | PriorAnnotation => []
  | LinkedReference w => w
  | Tag t => t
  | LineBreak => newline
  | OtherContainer => []
  end.

(** [reconstructMarkdownText] *)
Definition reconstructMarkdownText (children : list node) : str :=
  flat_map (fun pn => contribution (snd pn)) (walk children).

(** [containsRelevantTags] *)
Definition containsRelevantTags (text : str) : bool := test foodLogRegex text.

Fixpoint node_at (children : list node) (p : path) : option node :=
  match p with
  | [] => None
  | i :: p' =>
      match nth_error children i, p' with
      | Some n, [] => Some n
      | Some (Element _ _ _ cs), _ :: _ => node_at cs p'
      | _, _ => None
      end
  end.

(** Replace the node at a path by the nodes [f] makes of it, in place. *)
Fixpoint splice_at (f : node -> list node) (p : path) (children : list node)
  : list node :=
  match p with
  | [] => children
  | i :: p' =>
      match nth_error children i, p' with
      | Some n, [] => firstn i children ++ f n ++ skipn (S i) children
      | Some (Element t c h cs), _ :: _ =>
          firstn i children ++ Element t c h (splice_at f p' cs)
                 :: skipn (S i) children
      | _, _ => children
      end
  end.

(** [document.createElement("span")] with a class name and [textContent]. *)
Definition span (className content : str) : node :=
  Element (lit "SPAN") [className] None
          (match content with [] => [] | _ :: _ => [Text content] end).

(** [if (s) parent.insertBefore(document.createTextNode(s), ...)] *)
Definition text_if (s : str) : list node :=
  match s with
  | [] => []
  | _ :: _ => [Text s]
  end.

Definition geb (a b : Z) : bool := (b <=? a)%Z.
Definition gtb (a b : Z) : bool := (b <? a)%Z.

(** The first loop of [wrapTextAtPosition]: the text nodes that overlap the
    range, each with its offsets, up to the [break]. *)
Fixpoint nodes_to_wrap (startPos endPos : Z) (currentPosition : Z)
         (nodes : list (path * node)) : list (path * Z * Z) :=
  match nodes with
  | [] => []
  | (p, n) :: rest =>
      match classify n with
      | TextRun data =>
          let textLength := len data in
          let nodeStart := currentPosition in
          let nodeEnd := (currentPosition + textLength)%Z in
          let here :=
            if gtb nodeEnd startPos && (nodeStart <? endPos)%Z
            then [(p, Z.max 0 (startPos - nodeStart),
                      Z.min textLength (endPos - nodeStart))]
            else [] in
          if geb nodeEnd endPos then here
          else here ++ nodes_to_wrap startPos endPos nodeEnd rest
      | PriorAnnotation => nodes_to_wrap startPos endPos currentPosition rest
      | LinkedReference w =>
          let next := (currentPosition + len w)%Z in
          if geb next endPos then []
          else nodes_to_wrap startPos endPos next rest
      | Tag t =>
          let next := (currentPosition + len t)%Z in
          if geb next endPos then []
          else nodes_to_wrap startPos endPos next rest
      | LineBreak =>
          let next := (currentPosition + 1)%Z in
          if geb next endPos then []
          else nodes_to_wrap startPos endPos next rest
      | OtherContainer => nodes_to_wrap startPos endPos currentPosition rest
      end
  end.

Definition content_at (children : list node) (p : path) : str :=
  match node_at children p with
  | Some n => textContent n
  | None => []
  end.

(** What the wrapper of a range over several text nodes ends up holding:
    the slice of the first node, the whole of each node in between, the
    slice of the last. *)
Fixpoint later_content (children : list node) (later : list (path * Z * Z)) : str :=
  match later with
  | [] => []
  | [(p, startOffset, endOffset)] =>
      substring (content_at children p) startOffset endOffset
  | (p, _, _) :: more => content_at children p ++ later_content children more
  end.

(** The removals of the second loop, last node first; a node earlier in
    document order keeps its path when a later one is replaced. *)
Fixpoint remove_later (later : list (path * Z * Z)) (children : list node)
  : list node :=
  match later with
  | [] => children
  | [(p, _, endOffset)] =>
      splice_at (fun n => text_if (substring_from (textContent n) endOffset))
                p children
  | (p, _, _) :: more =>
      splice_at (fun _ => []) p (remove_later more children)
  end.

(** [wrapTextAtPosition]: the container's children after the call. *)
Definition wrapTextAtPosition (children : list node) (startPos endPos : Z)
           (className : str) : list node :=
  match nodes_to_wrap startPos endPos 0 (walk children) with
  | [] => children
  | [(p, startOffset, endOffset)] =>
      splice_at
        (fun n =>
           let content := textContent n in
           text_if (substring content 0 startOffset)
           ++ [span className (substring content startOffset endOffset)]
           ++ text_if (substring_from content endOffset))
        p children
  | (p, startOffset, endOffset) :: later =>
      let wrapped :=
        substring (content_at children p) startOffset endOffset
        ++ later_content children later in
      splice_at
        (fun n =>
           text_if (substring (textContent n) 0 startOffset)
           ++ [span className wrapped])
        p (remove_later later children)
  end.

Definition getClassNameForType (t : range_type) : str :=
  match t with
  | amount => value_class
  | nutrition => nutrition_class
  end.

(** [el.replaceWith(document.createTextNode(el.textContent))] for every
    descendant carrying one of the two wrapper classes. *)
Definition is_wrapper (n : node) : bool :=
  has_class value_class n || has_class nutrition_class n.

Fixpoint unwrap (n : node) : node :=
  match n with
  | Text _ => n
  | Element t c h children =>
      if is_wrapper n then Text (textContent n)
      else Element t c h (map unwrap children)
  end.

(** [[...ranges].sort((a, b) => b.start - a.start)]: by start, descending,
    ranges of equal start in their original order. *)
Fixpoint insert_range (r : HighlightRange) (sorted : list HighlightRange)
  : list HighlightRange :=
  match sorted with
  | [] => [r]
  | x :: rest =>
      if (start x <? start r)%Z then r :: sorted else x :: insert_range r rest
  end.

Definition sort_descending (ranges : list HighlightRange) : list HighlightRange :=
  fold_left (fun sorted r => insert_range r sorted) ranges [].

(** [highlightMatches] *)
Definition highlightMatches (children : list node) (reconstructedText : str)
  : list node :=
  let ranges := extractMultilineHighlightRanges reconstructedText 0 in
  fold_left
    (fun children range =>
       wrapTextAtPosition children (start range) (end_ range)
                          (getClassNameForType (type range)))
    (sort_descending ranges)
    (map unwrap children).

(** [querySelectorAll(".food-tracker-inline-calories").forEach(el => el.remove())] *)
Fixpoint remove_hints (n : node) : list node :=
  match n with
  | Text _ => [n]
  | Element t c h children =>
      if has_class hint_class n then []
      else [Element t c h (flat_map remove_hints children)]
  end.

(** The loop of [findInsertionNodeAtPosition]. *)
Fixpoint target_node (position : Z) (currentPosition : Z)
         (nodes : list (path * node)) : option path :=
  match nodes with
  | [] => None
  | (p, n) :: rest =>
      match classify n with
      | TextRun data =>
          if geb (currentPosition + len data) position then Some p
          else target_node position (currentPosition + len data) rest
      | PriorAnnotation => target_node position currentPosition rest
      | LinkedReference w =>
          if geb (currentPosition + len w) position then Some p
          else target_node position (currentPosition + len w) rest
      | Tag t =>
          if geb (currentPosition + len t) position then Some p
          else target_node position (currentPosition + len t) rest
      | LineBreak =>
          if geb (currentPosition + 1) position then Some p
          else target_node position (currentPosition + 1) rest
      | OtherContainer => target_node position currentPosition rest
      end
  end.

(** [findInsertionNodeAtPosition]: [targetNode ?? container.lastChild]. *)
Definition findInsertionNodeAtPosition (children : list node) (position : Z)
  : option path :=
  match target_node position 0 (walk children) with
  | Some p => Some p
  | None =>
      match children with
      | [] => None
      | _ :: _ => Some [length children - 1]
      end
  end.

Definition is_highlight (n : node) : bool :=
  has_class value_class n || has_class nutrition_class n
  || has_class negative_class n.

(** The node and its ancestors below the container, nearest first. *)
Fixpoint ancestors_or_self (p : path) (fuel : nat) : list path :=
  match fuel with
  | 0 => []
  | S fuel' =>
      match p with
      | [] => []
      | _ :: _ => p :: ancestors_or_self (removelast p) fuel'
      end
  end.

(** [findInsertionPoint]: the nearest of the target and its ancestors below
    the container that carries a highlight class, else the target. *)
Definition findInsertionPoint (children : list node) (targetNode : path) : path :=
  match
    find (fun q => match node_at children q with
                   | Some n => is_highlight n
                   | None => false
                   end)
         (ancestors_or_self targetNode (length targetNode))
  with
  | Some q => q
  | None => targetNode
  end.

Definition hint_span (hintText : str) : node :=
  span hint_class (" "%char :: hintText).

(** One round of the loop over [hintPositions]: the hint goes right after
    the insertion element, in the same parent. *)
Definition insert_hint (children : list node) (hint : CalorieAnnotation)
  : list node :=
  match findInsertionNodeAtPosition children (position hint) with
  | Some insertionPoint =>
      let insertionElement := findInsertionPoint children insertionPoint in
      splice_at (fun n => [n; hint_span (text hint)]) insertionElement children
  | None => children
  end.

(** The part of the loop body of [process] that mutates the container:
    wrap the ranges, drop the old hints, insert the new ones. *)
Definition apply_highlights (children : list node) (reconstructedText : str)
           (hints : list CalorieAnnotation) : list node :=
  fold_left insert_hint hints
            (flat_map remove_hints (highlightMatches children reconstructedText)).

(** The settings object the loop body reads through the identifier
    [settings], which [process] does not declare: [None] when nothing binds
    it, and reading it throws. *)
Record Settings : Type := { showCalorieHints : bool }.

Definition reference_error : NutritionCalculator.error :=
  lit "ReferenceError: settings is not defined".

Section WithEnvironment.

Variable getUnitMultiplier : number -> str -> option number -> number.
Variable settings : option Settings.
(** [this.nutrientCache.getNutritionData] *)
Variable getNutritionData : str -> NutritionCalculator.lookup.

(** A number that is finite, else [null]. *)
Definition finite_or_null (x : option number) : option number :=
  match x with
  | Some v => if isFinite v then Some v else None
  | None => None
  end.

Definition provider_lookup (field : key) (fileName : str) : outcome (option number) :=
  match trim fileName with
  | [] => Return None
  | normalized =>
      match getNutritionData normalized with
      | NutritionCalculator.Thrown e => Throw e
      | NutritionCalculator.NotFound => Return None
      | NutritionCalculator.Found data => Return (finite_or_null (get field data))
      end
  end.

(** The [calorieProvider] object literal of [process]. *)
Definition calorieProvider : CalorieProvider :=
  {| getCaloriesForFood := provider_lookup calories;
     getServingSize := provider_lookup serving_size |}.

(** The body of the loop over the containers: the container as the pass
    leaves it, and the exception that ended the pass, if any. *)
Definition process_container (container : node)
  : node * option NutritionCalculator.error :=
  match container with
  | Text _ => (container, None)
  | Element t c h children =>
      let reconstructedText := reconstructMarkdownText children in
      match reconstructedText with
      | [] => (container, None)
      | _ :: _ =>
          if negb (containsRelevantTags reconstructedText) then (container, None)
          else
            match settings with
            | None => (container, Some reference_error)
            | Some s =>
                match (if showCalorieHints s
                       then extractInlineCalorieAnnotations
                              getUnitMultiplier reconstructedText 0 calorieProvider
                       else Return [])
                with
                | Throw e => (container, Some e)
                | Return hintPositions =>
                    (Element t c h
                             (apply_highlights children reconstructedText
                                               hintPositions),
                     None)
                end
            end
      end
  end.

(** [el.matches("p, li, div.HyperMD-list-line")] *)
Definition is_container (n : node) : bool :=
  Str.eqb (tag_name n) (lit "P") || Str.eqb (tag_name n) (lit "LI")
  || (Str.eqb (tag_name n) (lit "DIV") && has_class (lit "HyperMD-list-line") n).

(** The elements matching the selector among the descendants, by path, in
    document order: the list [el.querySelectorAll(...)] returns. *)
Fixpoint container_paths_from (p : path) (n : node) {struct n} : list path :=
  (if is_container n then [p] else [])
  ++ match n with
     | Text _ => []
     | Element _ _ _ children =>
         (fix each (i : nat) (l : list node) {struct l} : list path :=
            match l with
            | [] => []
            | c :: l' => container_paths_from (p ++ [i]) c ++ each (S i) l'
            end) 0 children
     end.

Fixpoint container_paths_forest (p : path) (i : nat) (l : list node) : list path :=
  match l with
  | [] => []
  | c :: l' => container_paths_from (p ++ [i]) c ++ container_paths_forest p (S i) l'
  end.

Definition container_paths (children : list node) : list path :=
  container_paths_forest [] 0 children.

(** Whether the pass over a container gets as far as the calls that change
    the tree: the text holds the heading line and nothing was thrown. *)
Definition mutates (container : node) : bool :=
  match container with
  | Text _ => false
  | Element _ _ _ children =>
      let reconstructedText := reconstructMarkdownText children in
      match reconstructedText with
      | [] => false
      | _ :: _ =>
          containsRelevantTags reconstructedText
          && match snd (process_container container) with
             | None => true
             | Some _ => false
             end
      end
  end.

(** The elements a pass takes out of the tree keep their descendants, and a
    container among these is still in the list [process] iterates.
    [highlightMatches] replaces every wrapper below the container, in
    document order, so a node below a wrapper leaves the tree inside the
    nearest wrapper above it; the removal of the old hints then takes every
    hint element that is still in the tree, so a node below no wrapper
    leaves the tree inside the nearest hint above it.  [keeper] is the path
    of that element, for the node at [p] below the container. *)
Definition satisfies (test : node -> bool) (children : list node) (q : path) : bool :=
  match node_at children q with
  | Some n => test n
  | None => false
  end.

Definition keeper (children : list node) (p : path) : option path :=
  let above := ancestors_or_self p (length p) in
  match find (satisfies is_wrapper children) above with
  | Some q => Some q
  | None => find (satisfies (has_class hint_class) children) above
  end.

(** The element at [q] as it is once out of the tree: a wrapper with the
    wrappers below it replaced by their text, a hint with the wrappers below
    it replaced and the hints below it removed. *)
Definition detached (children : list node) (q : path) : list node :=
  match node_at children q with
  | Some ((Element t c h cs) as n) =>
      if is_wrapper n then [Element t c h (map unwrap cs)]
      else [Element t c h (flat_map remove_hints (map unwrap cs))]
  | _ => []
  end.

Fixpoint path_eqb (p q : path) : bool :=
  match p, q with
  | [], [] => true
  | i :: p', j :: q' => (i =? j) && path_eqb p' q'
  | _, _ => false
  end.

(** The trees the containers of the list stand in: the first one is the
    tree below [el], the others are elements that passes have taken out of
    it.  Each comes with the number of its containers that have had their
    pass; a pass creates no container and changes nothing outside its own
    container, so the next container of a tree is the one at that index, in
    document order. *)
Definition store := list (list node * nat).

(** Where the containers below a container stand after its pass: for each
    one, in document order, the index of its tree.  [home] is the tree of
    the container, [known] the elements taken out so far with the indices
    of their trees. *)
Fixpoint relocate (children : list node) (home : nat) (places : list path)
         (known : list (path * nat)) (trees : store) : list nat * store :=
  match places with
  | [] => ([], trees)
  | p :: rest =>
      match keeper children p with
      | None =>
          let '(ids, trees') := relocate children home rest known trees in
          (home :: ids, trees')
      | Some q =>
          match find (fun e => path_eqb (fst e) q) known with
          | Some (_, i) =>
              let '(ids, trees') := relocate children home rest known trees in
              (i :: ids, trees')
          | None =>
              let i := length trees in
              let '(ids, trees') :=
                relocate children home rest ((q, i) :: known)
                         (trees ++ [(detached children q, 0)]) in
              (i :: ids, trees')
          end
      end
  end.

(** The containers still to come, each given by the index of its tree.
    Those below the container that has just had its pass are the next ones
    of its tree; they go where the pass has put them. *)
Fixpoint reschedule (home : nat) (ids : list nat) (worklist : list nat) : list nat :=
  match ids, worklist with
  | [], _ => worklist
  | _, [] => []
  | i :: ids', w :: rest =>
      if w =? home then i :: reschedule home ids' rest
      else w :: reschedule home ids rest
  end.

Fixpoint replace_nth {A : Type} (n : nat) (x : A) (l : list A) : list A :=
  match l, n with
  | [], _ => []
  | _ :: l', 0 => x :: l'
  | y :: l', S n' => y :: replace_nth n' x l'
  end.

(** The loop over the containers, for [count] rounds: the trees, the
    containers still to come, and the exception that ended the loop, if
    any.  The list of containers is taken before the loop and every pass
    runs, in the order of the list, on its container as the earlier passes
    left it, in the tree or out of it. *)
Fixpoint process_containers (count : nat) (worklist : list nat) (trees : store)
  : store * list nat * option NutritionCalculator.error :=
  match count, worklist with
  | S count', home :: rest =>
      match nth_error trees home with
      | Some (forest, k) =>
          match nth_error (container_paths forest) k with
          | Some q =>
              match node_at forest q with
              | Some container =>
                  let '(container', exception) := process_container container in
                  let forest' := splice_at (fun _ => [container']) q forest in
                  let trees' := replace_nth home (forest', S k) trees in
                  match exception with
                  | Some e => (replace_nth home (forest', k) trees, worklist, Some e)
                  | None =>
                      if mutates container then
                        let children :=
                          match container with
                          | Text _ => []
                          | Element _ _ _ children => children
                          end in
                        let '(ids, trees'') :=
                          relocate children home (container_paths children) [] trees' in
                        process_containers count' (reschedule home ids rest) trees''
                      else process_containers count' rest trees'
                  end
              | None => process_containers count' rest trees
              end
          | None => process_containers count' rest trees
          end
      | None => process_containers count' rest trees
      end
  | _, _ => (trees, worklist, None)
  end.

(** The tree below [el]. *)
Definition live (trees : store) : list node :=
  match trees with
  | (forest, _) :: _ => forest
  | [] => []
  end.

(** [process(el, ctx)]: [el] after the call, and the exception that left
    it, if any. *)
Definition process (el : node) : node * option NutritionCalculator.error :=
  if is_container el then process_container el
  else
    match el with
    | Text _ => (el, None)
    | Element t c h children =>
        let count := length (container_paths children) in
        let '(trees, _, exception) :=
          process_containers count (repeat 0 count) [(children, 0)] in
        (Element t c h (live trees), exception)
    end.

End WithEnvironment.

End FoodHighlightPostProcessor.

(** ** NutrientCache.ts

    The cache keeps two [Map]s.  A [Map] is the list of its entries in
    insertion order, as iteration enumerates them; its keys are strings.
    The change listeners take no part in what the maps hold and are left
    out, and so are the console messages and the notice about a duplicate
    name.  Every operation is taken to run to completion before the next
    one starts. *)

Module NutrientCache.

(** [Map<string, V>] *)
Section Maps.
Variable V : Type.

Definition Map := list (str * V).

Fixpoint map_get (k : str) (m : Map) : option V :=
  match m with
  | [] => None
  | (k', v) :: m' => if Str.eqb k' k then Some v else map_get k m'
  end.

(** [m.set(k, v)]: an existing key keeps its place. *)
Fixpoint map_set (k : str) (v : V) (m : Map) : Map :=
  match m with
  | [] => [(k, v)]
  | (k', v') :: m' =>
      if Str.eqb k' k then (k, v) :: m' else (k', v') :: map_set k v m'
  end.

Fixpoint map_delete (k : str) (m : Map) : Map :=
  match m with
  | [] => []
  | (k', v') :: m' =>
      if Str.eqb k' k then m' else (k', v') :: map_delete k m'
  end.

Definition map_keys (m : Map) : list str := map fst m.

End Maps.

(** A value of the front matter or of a parsed JSON file. *)
Inductive value : Type :=
| VUndefined : value
| VNull : value
| VBool : bool -> value
| VNumber : number -> value
| VString : str -> value
| VArray : list value -> value
| VObject : list (str * value) -> value.

Fixpoint field_of (name : str) (fields : list (str * value)) : value :=
  match fields with
  | [] => VUndefined
  | (k, v) :: rest => if Str.eqb k name then v else field_of name rest
  end.

(** [v.name], [v[name]] for a value that is neither null nor undefined: only
    an object has the properties read here. *)
Definition property (v : value) (name : string) : value :=
  match v with
  | VObject fields => field_of (lit name) fields
  | _ => VUndefined
  end.

(** The truth value a condition gives to a value. *)
Definition truthy (v : value) : bool :=
  match v with
  | VUndefined | VNull => false
  | VBool b => b
  | VNumber x => negb (is_nan x || is_zero x)
  | VString s => match s with [] => false | _ :: _ => true end
  | VArray _ | VObject _ => true
  end.

(** [a ?? b] *)
Definition nullish_or (a b : value) : value :=
  match a with
  | VUndefined | VNull => b
  | _ => a
  end.

(** The fields of a [TFile] the cache reads. *)
Record TFile : Type := {
  path : str;
  extension : str
}.

Inductive TAbstractFile : Type :=
| File : TFile -> TAbstractFile
| Folder : str -> TAbstractFile.

Inductive action : Type := create | delete | modify.

(** An entry of [nutrientDataCache]. *)
Record entry : Type := {
  name : str;
  data : NutritionCalculator.NutrientData
}.

Record NutrientCache : Type := {
  nutrientDirectory : str;
  singleFilePath : option str;
  isSingleFileMode : bool;
  nutrientDataCache : Map entry;
  nameToPathMap : Map str
}.

(** [new NutrientCache(app, nutrientDirectory)] *)
Definition new (nutrientDirectory : str) : NutrientCache :=
  {| nutrientDirectory := nutrientDirectory;
     singleFilePath := None;
     isSingleFileMode := false;
     nutrientDataCache := [];
     nameToPathMap := [] |}.

(** The cache with its two maps replaced, and with its mode replaced. *)
Definition with_maps (c : NutrientCache) (d : Map entry) (n : Map str)
  : NutrientCache :=
  {| nutrientDirectory := nutrientDirectory c;
     singleFilePath := singleFilePath c;
     isSingleFileMode := isSingleFileMode c;
     nutrientDataCache := d;
     nameToPathMap := n |}.

Definition with_mode (c : NutrientCache) (single : bool) (p : option str)
  : NutrientCache :=
  {| nutrientDirectory := nutrientDirectory c;
     singleFilePath := p;
     isSingleFileMode := single;
     nutrientDataCache := nutrientDataCache c;
     nameToPathMap := nameToPathMap c |}.

(** String helpers of the lookups. *)
Definition startsWith (s p : str) : bool := prefixb p s.
Definition endsWith (s p : str) : bool := prefixb (rev p) (rev s).
Definition includes (s : str) (c : ascii) : bool := existsb (Ascii.eqb c) s.

(** [s.replace(p, empty)]: the first occurrence of [p] is removed. *)
Fixpoint remove_first (p s : str) : str :=
  if prefixb p s then skipn (length p) s
  else match s with
       | [] => []
       | c :: s' => c :: remove_first p s'
       end.

(** [parts.join(sep)] *)
Fixpoint join (sep : str) (parts : list str) : str :=
  match parts with
  | [] => []
  | [p] => p
  | p :: rest => p ++ sep ++ join sep rest
  end.

(** The last piece of [path.split("/")], with the first [.md] removed. *)
Definition base_name (path : str) : str :=
  remove_first (lit ".md") (last (split_char "/" path) []).

(** [removeFileFromCache] *)
Definition removeFileFromCache (c : NutrientCache) (filePath : str)
  : NutrientCache :=
  match map_get filePath (nutrientDataCache c) with
  | Some cachedEntry =>
      with_maps c (map_delete filePath (nutrientDataCache c))
                (map_delete (name cachedEntry) (nameToPathMap c))
  | None => c
  end.

Definition nutrientFields : list (key * list string) :=
  [(calories, ["calories"%string]);
   (fats, ["fats"%string]);
   (saturated_fats, ["saturated_fats"%string; "saturatedFats"%string]);
   (protein, ["protein"%string]);
   (carbs, ["carbs"%string; "carbohydrates"%string]);
   (fiber, ["fiber"%string]);
   (sugar, ["sugar"%string]);
   (sodium, ["sodium"%string]);
   (serving_size, ["serving_size"%string; "servingSize"%string])].

(** [values.find(v => v !== undefined)] *)
Definition first_defined (values : list value) : value :=
  match find (fun v => match v with VUndefined => false | _ => true end) values with
  | Some v => v
  | None => VUndefined
  end.

Section WithLibrary.

(** [parseFloat] on an arbitrary string, [String] on a value that is not a
    string, and [JSON.parse] ([None] when it throws) are the library's; they
    are parameters here. *)
Variable parseFloat : str -> number.
Variable String_of : value -> str.
Variable JSON_parse : str -> option value.

(** [String(v)] *)
Definition to_String (v : value) : str :=
  match v with
  | VString s => s
  | _ => String_of v
  end.

(** [parseNumber] *)
Definition parseNumber (v : value) : number :=
  match v with
  | VNumber x => x
  | VString s => let parsed := parseFloat s in if is_nan parsed then zero else parsed
  | _ => zero
  end.

(** [extractNutrientName], from the front matter of the file: [None] is
    [null]. *)
Definition extractNutrientName (frontmatter : option (list (str * value)))
  : option str :=
  match frontmatter with
  | Some fields =>
      let n := field_of (lit "name") fields in
      if truthy n then Some (to_String n) else None
  | None => None
  end.

(** [extractNutritionData] *)
Definition extractNutritionData (frontmatter : option (list (str * value)))
  : NutritionCalculator.NutrientData :=
  match frontmatter with
  | None => empty
  | Some fields =>
      fold_left
        (fun data field =>
           match first_defined
                   (map (fun alias => field_of (lit alias) fields) (snd field))
           with
           | VUndefined => data
           | v => set (fst field) (parseNumber v) data
           end)
        nutrientFields empty
  end.

(** [processNutrientFile]; [frontmatter] is
    [this.app.metadataCache.getFileCache(file)?.frontmatter]. *)
Definition processNutrientFile (c : NutrientCache) (file : TFile)
           (frontmatter : option (list (str * value))) : NutrientCache :=
  let nutritionData := extractNutritionData frontmatter in
  match extractNutrientName frontmatter with
  | Some ((_ :: _) as nutrientName) =>
      let names :=
        match map_get (path file) (nutrientDataCache c) with
        | Some oldEntry =>
            if negb (Str.eqb (name oldEntry) nutrientName)
            then map_delete (name oldEntry) (nameToPathMap c)
            else nameToPathMap c
        | None => nameToPathMap c
        end in
      with_maps c
        (map_set (path file) {| name := nutrientName; data := nutritionData |}
                 (nutrientDataCache c))
        (map_set nutrientName (path file) names)
  | _ => removeFileFromCache c (path file)
  end.

(** One round of the loop of [processSingleFile] over [foods]. *)
Definition add_food (filePath : str) (c : NutrientCache) (item : value)
  : NutrientCache :=
  if negb (truthy item) || negb (truthy (property item "name")) then c
  else
    let nutrientName := to_String (property item "name") in
    let data : NutritionCalculator.NutrientData :=
      [(calories, parseNumber (property item "calories"));
       (fats, parseNumber (property item "fats"));
       (saturated_fats,
        parseNumber (nullish_or (property item "saturated_fats")
                                (property item "saturatedFats")));
       (protein, parseNumber (property item "protein"));
       (carbs,
        parseNumber (nullish_or (property item "carbs")
                                (property item "carbohydrates")));
       (fiber, parseNumber (property item "fiber"));
       (sugar, parseNumber (property item "sugar"));
       (sodium, parseNumber (property item "sodium"));
       (serving_size,
        parseNumber (nullish_or (property item "serving_size")
                                (property item "servingSize")))] in
    let key := filePath ++ lit "#" ++ nutrientName in
    with_maps c
      (map_set key {| name := nutrientName; data := data |} (nutrientDataCache c))
      (map_set nutrientName key (nameToPathMap c)).

(** [Array.isArray(parsed?.foods) ? parsed.foods : Array.isArray(parsed) ? parsed : []] *)
Definition foods_of (parsed : value) : list value :=
  match parsed with
  | VObject fields =>
      match field_of (lit "foods") fields with
      | VArray items => items
      | _ => []
      end
  | VArray items => items
  | _ => []
  end.

(** What the vault and the metadata cache answer. *)
Record Vault : Type := {
  getAbstractFileByPath : str -> option TAbstractFile;
  getMarkdownFiles : list TFile;
  (** [cachedRead(file)]: the content read, [None] when the read is
      rejected. *)
  cachedRead : TFile -> option str;
  (** [metadataCache.getFileCache(file)?.frontmatter] *)
  frontmatter : TFile -> option (list (str * value))
}.

(** [processSingleFile] *)
Definition processSingleFile (v : Vault) (c : NutrientCache) (file : TFile)
  : NutrientCache :=
  let cleared := with_maps c [] [] in
  match cachedRead v file with
  | None => cleared
  | Some content =>
      let parsed :=
        match JSON_parse content with
        | Some parsed => parsed
        | None =>
            match frontmatter v file with
            | Some fields => VObject fields
            | None => VNull
            end
        end in
      fold_left (add_food (path file)) (foods_of parsed) cleared
  end.

(** [initialize] *)
Definition initialize (v : Vault) (c : NutrientCache) : NutrientCache :=
  let cleared := with_maps c [] [] in
  let single (f : TFile) :=
    processSingleFile v (with_mode cleared true (Some (path f))) f in
  let directory :=
    fold_left
      (fun c file => processNutrientFile c file (frontmatter v file))
      (filter (fun file => startsWith (path file) (nutrientDirectory c ++ lit "/"))
              (getMarkdownFiles v))
      (with_mode cleared false None) in
  match getAbstractFileByPath v (nutrientDirectory c) with
  | Some (File f) =>
      match path f with
      | [] => directory
      | _ :: _ =>
          if Str.eqb (extension f) (lit "json") then single f
          else if Str.eqb (extension f) (lit "md") then single f
          else directory
      end
  | _ => directory
  end.

(** [refresh] *)
Definition refresh (v : Vault) (c : NutrientCache) : NutrientCache := initialize v c.

(** [isNutrientFile] *)
Definition isNutrientFile (c : NutrientCache) (file : TAbstractFile) : bool :=
  match file with
  | Folder _ => false
  | File f =>
      match isSingleFileMode c, singleFilePath c with
      | true, Some ((_ :: _) as p) => Str.eqb (path f) p
      | _, _ =>
          Str.eqb (extension f) (lit "md")
          && startsWith (path f) (nutrientDirectory c ++ lit "/")
      end
  end.

(** [file.path === this.singleFilePath] *)
Definition is_single_file (c : NutrientCache) (p : str) : bool :=
  match singleFilePath c with
  | Some q => Str.eqb p q
  | None => false
  end.

(** [updateCache] *)
Definition updateCache (v : Vault) (c : NutrientCache) (file : TFile) (a : action)
  : NutrientCache :=
  if isSingleFileMode c && is_single_file c (path file) then
    match a with
    | delete => with_maps c [] []
    | _ => processSingleFile v c file
    end
  else
    match a with
    | delete => removeFileFromCache c (path file)
    | _ => processNutrientFile c file (frontmatter v file)
    end.

(** [handleMetadataChange] *)
Definition handleMetadataChange (v : Vault) (c : NutrientCache) (file : TFile)
  : NutrientCache :=
  if isNutrientFile c (File file) then processNutrientFile c file (frontmatter v file)
  else c.

(** [handleRename] *)
Definition handleRename (v : Vault) (c : NutrientCache) (file : TFile) (oldPath : str)
  : NutrientCache :=
  if isSingleFileMode c && is_single_file c oldPath then
    if endsWith (path file) (lit ".md") || endsWith (path file) (lit ".json")
    then processSingleFile v (with_mode c (isSingleFileMode c) (Some (path file))) file
    else refresh v (with_mode c false None)
  else
    let c1 :=
      if startsWith oldPath (nutrientDirectory c ++ lit "/")
         && endsWith oldPath (lit ".md")
      then removeFileFromCache c oldPath
      else c in
    if isNutrientFile c1 (File file)
    then processNutrientFile c1 file (frontmatter v file)
    else c1.

(** [updateNutrientDirectory] *)
Definition updateNutrientDirectory (v : Vault) (c : NutrientCache)
           (newDirectory : str) : NutrientCache :=
  if negb (Str.eqb (nutrientDirectory c) newDirectory)
  then initialize v {| nutrientDirectory := newDirectory;
                       singleFilePath := singleFilePath c;
                       isSingleFileMode := isSingleFileMode c;
                       nutrientDataCache := nutrientDataCache c;
                       nameToPathMap := nameToPathMap c |}
  else c.

(** The operations the plugin calls on the cache. *)
Inductive operation : Type :=
| Initialize : operation
| Refresh : operation
| UpdateCache : TFile -> action -> operation
| HandleMetadataChange : TFile -> operation
| HandleRename : TFile -> str -> operation
| UpdateNutrientDirectory : str -> operation.

(** One operation, with what the vault answers while it runs. *)
Definition perform (c : NutrientCache) (step : Vault * operation)
  : NutrientCache :=
  let v := fst step in
  match snd step with
  | Initialize => initialize v c
  | Refresh => refresh v c
  | UpdateCache file a => updateCache v c file a
  | HandleMetadataChange file => handleMetadataChange v c file
  | HandleRename file oldPath => handleRename v c file oldPath
  | UpdateNutrientDirectory newDirectory => updateNutrientDirectory v c newDirectory
  end.

End WithLibrary.

(** [Array.from(map.keys()).sort()]: code units compared in order. *)
Fixpoint str_ltb (a b : str) : bool :=
  match a, b with
  | _, [] => false
  | [], _ :: _ => true
  | x :: a', y :: b' =>
      (code x <? code y) || ((code x =? code y) && str_ltb a' b')
  end.

Fixpoint insert_sorted (s : str) (sorted : list str) : list str :=
  match sorted with
  | [] => [s]
  | x :: rest => if str_ltb s x then s :: sorted else x :: insert_sorted s rest
  end.

(** [getNutrientNames] *)
Definition getNutrientNames (c : NutrientCache) : list str :=
  fold_right insert_sorted [] (map_keys (nameToPathMap c)).

(** [getFileNameFromNutrientName]; [None] is [null]. *)
Definition getFileNameFromNutrientName (c : NutrientCache) (nutrientName : str)
  : option str :=
  match map_get nutrientName (nameToPathMap c) with
  | None | Some [] => None
  | Some mapped =>
      if includes mapped "#"
      then
        let pieces := split_char "#" mapped in
        let filePath := nth 0 pieces [] in
        let heading := nth 1 pieces [] in
        Some (base_name filePath ++ lit "#" ++ heading)
      else Some (base_name mapped)
  end.

(** The first entry, in insertion order, that satisfies a test. *)
Definition first_entry (test : str -> entry -> bool) (m : Map entry)
  : option NutritionCalculator.NutrientData :=
  match find (fun ke => test (fst ke) (snd ke)) m with
  | Some ke => Some (data (snd ke))
  | None => None
  end.

(** [getNutritionData]; [None] is [null]. *)
Definition getNutritionData (c : NutrientCache) (filename : str)
  : option NutritionCalculator.NutrientData :=
  let by_heading :=
    if includes filename "#"
    then
      let heading := join (lit "#") (tl (split_char "#" filename)) in
      first_entry (fun key _ => endsWith key (lit "#" ++ heading)) (nutrientDataCache c)
    else None in
  match by_heading with
  | Some d => Some d
  | None =>
      let by_name :=
        match map_get filename (nameToPathMap c) with
        | Some ((_ :: _) as mapped) =>
            match map_get mapped (nutrientDataCache c) with
            | Some e => Some (data e)
            | None => None
            end
        | _ => None
        end in
      match by_name with
      | Some d => Some d
      | None =>
          match first_entry (fun path _ => Str.eqb (base_name path) filename)
                            (nutrientDataCache c) with
          | Some d => Some d
          | None =>
              first_entry
                (fun _ e => Str.eqb (toLowerCase (name e)) (toLowerCase filename))
                (nutrientDataCache c)
          end
      end
  end.

End NutrientCache.

(** ** The specification's wording

    Definitions that follow the sentences of the specification rather than
    the code, to be compared with the code's. *)

Module Spec.

Import NutritionCalculator.

(** "a level-2 heading whose trimmed title case-insensitively equals the
    target" *)
Definition is_target_heading (heading line : str) : bool :=
  match headingMatch line with
  | Some h => opens_section heading h
  | None => false
  end.

(** "a heading of level <= 2" *)
Definition is_top_heading (line : str) : bool :=
  match headingMatch line with
  | Some h => fst h <=? 2
  | None => false
  end.

(** A heading of level <= 2 other than the target heading. *)
Definition is_closing_heading (heading line : str) : bool :=
  is_top_heading line && negb (is_target_heading heading line).

Fixpoint drop_until (p : str -> bool) (lines : list str) : list str :=
  match lines with
  | [] => []
  | l :: rest => if p l then rest else drop_until p rest
  end.

Fixpoint take_until (p : str -> bool) (lines : list str) : list str :=
  match lines with
  | [] => []
  | l :: rest => if p l then [] else l :: take_until p rest
  end.

(** "Section opens at the first level-2 heading whose trimmed title
    case-insensitively equals heading ...  Section closes (stops emitting)
    at the next heading with level <= 2, or at end of document". *)
Definition section_lines (heading : str) (lines : list str) : list str :=
  take_until is_top_heading (drop_until (is_target_heading heading) lines).

(** "a subset qualifies as workout entries ...; their totals are computed
    separately and then subtracted from inlineTotals ..., only when this
    filtered subset is non-empty". *)
Definition workout_totals (inlineEntries : list InlineNutrientEntry) : NutrientData :=
  calculateInlineTotals (filterValidWorkoutEntries inlineEntries).

Definition adjusted_inline_totals (inlineEntries : list InlineNutrientEntry)
  : NutrientData :=
  match filterValidWorkoutEntries inlineEntries with
  | [] => calculateInlineTotals inlineEntries
  | _ :: _ =>
      addNutrients (calculateInlineTotals inlineEntries)
                   (workout_totals inlineEntries) (-1)%float
  end.

(** "a nutrition lookup failure for one entry (including the lookup
    throwing)": the lookup gave no data. *)
Definition lookup_failed (l : lookup) : bool :=
  match l with
  | Found _ => false
  | NotFound | Thrown _ => true
  end.


(** "remaining = goal - consumed, percentConsumed = round(consumed/goal x 100)
    (0 when goal is 0), percentRemaining = max(0, round(remaining/goal x 100))
    (0 when goal is 0)". *)
Definition goal_record (goal consumed : number) : NutrientGoalProgress :=
  let remaining := (goal - consumed)%float in
  {| remaining := remaining;
     percentConsumed :=
       if (goal =? 0)%float then zero
       else Math_round ((consumed / goal) * 100)%float;
     percentRemaining :=
       if (goal =? 0)%float then zero
       else Math_max zero (Math_round ((remaining / goal) * 100)%float) |}.

(** Some node of the tree, the root included, satisfies [p]. *)
Fixpoint occurs (p : FoodHighlightPostProcessor.node -> bool)
         (n : FoodHighlightPostProcessor.node) : bool :=
  p n
  || match n with
     | FoodHighlightPostProcessor.Text _ => false
     | FoodHighlightPostProcessor.Element _ _ _ children =>
         existsb (occurs p) children
     end.

(** "nested ... wrapper nodes": a wrapper element below a wrapper element. *)
Definition nested_wrapper (n : FoodHighlightPostProcessor.node) : bool :=
  occurs
    (fun w =>
       FoodHighlightPostProcessor.is_wrapper w
       && match w with
          | FoodHighlightPostProcessor.Text _ => false
          | FoodHighlightPostProcessor.Element _ _ _ children =>
              existsb (occurs FoodHighlightPostProcessor.is_wrapper) children
          end)
    n.

End Spec.

(** ** Notions used to state further properties

    Predicates and measures on texts, ranges, trees and caches that the
    statements of the second half of the properties are written with. *)

Module Notions.

Import FoodHighlightCore FoodHighlightPostProcessor.

(** The text a list of lines was split from. *)
Fixpoint unsplit (lines : list str) : str :=
  match lines with
  | [] => []
  | [l] => l
  | l :: rest => l ++ newline ++ unsplit rest
  end.

(** A pattern every match of which takes at least one character. *)
Fixpoint progresses (r : regex) : bool :=
  match r with
  | Chr _ => true
  | Seq a b => progresses a || progresses b
  | Alt a b => progresses a && progresses b
  | Group _ a => progresses a
  | Eps | Star _ _ | NegLook _ | Bol _ | Eol _ => false
  end.

(** Matches that follow one another between two indices: each one is not
    empty and starts where the previous one ended or later. *)
Fixpoint matches_laid_out (lo : nat) (ms : list rmatch) (hi : nat) : Prop :=
  match ms with
  | [] => lo <= hi
  | m :: rest =>
      lo <= index m /\ index m < last_index m
      /\ matches_laid_out (last_index m) rest hi
  end.

(** Ranges that follow one another between two positions: each one is not
    empty, starts where the previous one ended or later, and the last one
    ends at the upper position or before. *)
Fixpoint laid_out (lo : Z) (ranges : list HighlightRange) (hi : Z) : Prop :=
  match ranges with
  | [] => (lo <= hi)%Z
  | r :: rest =>
      (lo <= start r)%Z /\ (start r < end_ r)%Z /\ laid_out (end_ r) rest hi
  end.

Definition is_nutrition (r : HighlightRange) : bool :=
  match type r with nutrition => true | amount => false end.

(** The text the walk reads from a node and from what lies below it. *)
Fixpoint reads (n : node) : str :=
  contribution n
  ++ match n with
     | Text _ => []
     | Element _ _ _ children =>
         if skips_children n then [] else flat_map reads children
     end.

(** A path the walk reaches: no node above its end has its children
    skipped. *)
Fixpoint reachable (children : list node) (p : path) : bool :=
  match p with
  | [] => false
  | i :: p' =>
      match nth_error children i, p' with
      | Some _, [] => true
      | Some ((Element t c h cs) as n), _ :: _ =>
          negb (skips_children n) && reachable cs p'
      | _, _ => false
      end
  end.

Definition is_text (n : node) : bool :=
  match n with Text _ => true | Element _ _ _ _ => false end.

(** Every wrapper the walk reaches is as [wrapTextAtPosition] makes them: an
    element that is neither a hint, a reference, a tag nor a line break, with
    text nodes for children. *)
Fixpoint wrappers_plain (n : node) : bool :=
  match n with
  | Text _ => true
  | Element _ _ _ children =>
      if is_wrapper n
      then match classify n with
           | OtherContainer => forallb is_text children
           | _ => false
           end
      else skips_children n || forallb wrappers_plain children
  end.

(** A container whose text holds the heading line: the pass acts on these
    only. *)
Definition is_food_log_container (n : node) : bool :=
  is_container n
  && match n with
     | Text _ => false
     | Element _ _ _ children =>
         containsRelevantTags (reconstructMarkdownText children)
     end.

(** The number of hint elements in a tree, and in a list of trees. *)
Fixpoint count_hints (n : node) : nat :=
  match n with
  | Text _ => 0
  | Element _ _ _ children =>
      (if has_class hint_class n then 1 else 0)
      + list_sum (map count_hints children)
  end.

Definition hints_in (children : list node) : nat :=
  list_sum (map count_hints children).

(** A number that is not NaN and carries the given sign, as a
    [spec_float]. *)
Definition has_sign (b : bool) (x : spec_float) : Prop :=
  match x with
  | S754_nan => False
  | S754_zero s | S754_infinity s | S754_finite s _ _ => s = b
  end.

(** Every listed name leads to a cached entry that bears it, and no key
    occurs twice in either map. *)
Definition sound (c : NutrientCache.NutrientCache) : Prop :=
  NoDup (NutrientCache.map_keys (NutrientCache.nutrientDataCache c))
  /\ NoDup (NutrientCache.map_keys (NutrientCache.nameToPathMap c))
  /\ forall n p,
       NutrientCache.map_get n (NutrientCache.nameToPathMap c) = Some p ->
       exists d,
         NutrientCache.map_get p (NutrientCache.nutrientDataCache c)
         = Some {| NutrientCache.name := n; NutrientCache.data := d |}.

(** The nine fields of [NutrientData], in the order the single-file
    database assigns them. *)
Definition all_keys : list key :=
  [calories; fats; saturated_fats; protein; carbs; fiber; sugar; sodium;
   serving_size].

(** The front-matter names under which a field is looked for, in order. *)
Definition aliases_of (k : key) : list string :=
  match find (fun field => key_eqb (fst field) k) NutrientCache.nutrientFields with
  | Some field => snd field
  | None => []
  end.

(** The keys of an object are distinct and among the eight nutrient keys. *)
Definition well_keyed (o : NutritionCalculator.NutrientData) : Prop :=
  NoDup (keys o)
  /\ Forall (fun k => In k NutritionCalculator.nutrientKeys) (keys o).

(** The keys of [source] that [target] does not have. *)
Definition new_keys (V : Type) (target source : obj V) : list key :=
  filter (fun k => negb (existsb (key_eqb k) (keys target))) (keys source).

End Notions.

(** ** Sample data for the worked examples *)

Module Samples.

Import NutritionCalculator.

(** A stand-in for [getUnitMultiplier] on the unit [g]: the per-100 baseline,
    [quantity / 100]. *)
Definition per_hundred (quantity : number) (unit : str) (servingSize : option number)
  : number := (quantity / 100)%float.

Definition no_data (name : str) : lookup := NotFound.

Definition pantry (name : str) : lookup :=
  if Str.eqb name (lit "apple")
  then Found [(calories, 100%float); (protein, 10%float)]
  else if Str.eqb name (lit "banana")
  then Found [(calories, 80%float); (carbs, 20%float)]
  else if Str.eqb name (lit "ghost") then Thrown (lit "cache down")
  else NotFound.

Definition note (text : string) (source : str -> lookup) (g : option NutrientGoals)
  : NutritionCalculationParams :=
  {| content := lit text; getNutritionData := source; goals := g |}.

(** A document with the target heading twice: the second occurrence is a
    heading of level 2, and the line after it is still emitted. *)
Definition twice_opened : str :=
  lit "## Food Log" ++ newline ++ lit "a" ++ newline
  ++ lit "## Food Log" ++ newline ++ lit "b".

Definition sectioned_note : str :=
  lit "intro" ++ newline ++ lit "## Food Log" ++ newline
  ++ lit "a" ++ newline ++ lit "### sub" ++ newline
  ++ lit "b" ++ newline ++ lit "## food log" ++ newline
  ++ lit "c" ++ newline ++ lit "# Top" ++ newline ++ lit "d".

(** A log with a single inline entry, 300 kcal. *)
Definition run_note : NutritionCalculationParams :=
  {| content := lit "## Food Log" ++ newline ++ lit "Run 300kcal";
     getNutritionData := no_data;
     goals := None |}.

(** A log whose only line starts with two opening brackets and carries a
    nutrient token. *)
Definition bracket_line : str := lit "[[apple]] 300kcal".

Definition bracket_note : NutritionCalculationParams :=
  {| content := lit "## Food Log" ++ newline ++ bracket_line;
     getNutritionData := no_data;
     goals := None |}.

Definition oats : FoodEntry :=
  {| filename := lit "oats"; amount := 100%float; unit := lit "g" |}.

Definition basket : list FoodEntry :=
  [ {| filename := lit "apple"; amount := 150%float; unit := lit "g" |};
    {| filename := lit "ghost"; amount := 10%float; unit := lit "g" |};
    {| filename := lit "oats"; amount := 100%float; unit := lit "g" |};
    {| filename := lit "banana"; amount := 50%float; unit := lit "g" |} ].

(** The documents of the calculator's test suite. *)
Definition two_fruits : NutritionCalculationParams :=
  {| content := lit "## Food Log" ++ newline ++ lit "[[apple]] 150g"
                ++ newline ++ lit "[[banana]] 50g";
     getNutritionData := pantry;
     goals := Some [(calories, 2000%float)] |}.

Definition outside_section : NutritionCalculationParams :=
  {| content := lit "Random text 500kcal" ++ newline ++ newline
                ++ lit "## Food Log" ++ newline ++ lit "Snack 200kcal";
     getNutritionData := no_data;
     goals := None |}.

Definition failing_cache : NutritionCalculationParams :=
  {| content := lit "## Food Log" ++ newline ++ lit "[[ghost]] 100g";
     getNutritionData := pantry;
     goals := None |}.

(** Goals with a negative calorie goal, and totals with 50 kcal consumed. *)
Definition negative_goal : NutrientGoals := [(calories, (-100)%float)].
Definition fifty_consumed : NutrientData := [(calories, 50%float)].

(** The goals of the test suite, against 100 kcal consumed. *)
Definition daily_goal : NutrientGoals := [(calories, 2000%float)].
Definition hundred_consumed : NutrientData := [(calories, 100%float)].

(** A lookup that never throws. *)
Definition larder (name : str) : lookup :=
  if Str.eqb name (lit "apple")
  then Found [(calories, 100%float); (protein, 10%float)]
  else if Str.eqb name (lit "banana")
  then Found [(calories, 80%float); (carbs, 20%float)]
  else NotFound.

Import FoodHighlightPostProcessor.

Definition hints_on : option Settings := Some {| showCalorieHints := true |}.

Definition el (tagName : string) (classes : list string) (children : list node)
  : node :=
  Element (lit tagName) (map lit classes) None children.

Definition txt (data : string) : node := Text (lit data).

Definition br : node := el "BR" [] [].

Definition link (target : string) : node :=
  Element (lit "A") [link_class] (Some (lit target)) [txt target].




(** A paragraph as the renderer leaves it: links as elements, an emphasis
    that splits a quantity over two text nodes. *)
Definition rendered_paragraph : node :=
  el "P" []
     [txt "## Food Log"; br; link "apple"; txt " 150g - snack"; br;
      txt "Oatmeal 350kcal 12prot"; br;
      el "EM" [] [txt "[[banana]] 50"]; txt "g and 5fat"].

Definition rendered_paragraph_once : node :=
  el "P" []
     [txt "## Food Log"; br; link "apple"; txt " ";
      span value_class (lit "150g "); txt "- snack";
      hint_span (lit "150kcal"); br;
      txt "Oatmeal "; span nutrition_class (lit "350kcal"); txt " ";
      span nutrition_class (lit "12prot"); br;
      el "EM" [] [txt "[[banana]] "; span value_class (lit "50g ")];
      txt "and "; span nutrition_class (lit "5fat");
      hint_span (lit "40kcal")].

(** A rendered linked entry whose quantity is directly followed by an
    emphasised nutrient token. *)
Definition emphasised_token : node :=
  el "P" []
     [txt "## Food Log"; br; link "apple"; txt " 150g"; el "EM" [] [txt "5fat"]].

Definition emphasised_token_once : node :=
  el "P" []
     [txt "## Food Log"; br; link "apple"; txt " ";
      span value_class (lit "150g5");
      el "EM" [] [span nutrition_class (lit "fat"); hint_span (lit "150kcal")]].

Definition emphasised_token_twice : node :=
  el "P" []
     [txt "## Food Log"; br; link "apple"; txt " ";
      span value_class (lit "150g5"); span nutrition_class (lit "fat");
      hint_span (lit "150kcal"); el "EM" [] []].

(** A paragraph of plain text whose reference contains a nutrient token in
    which the digits of the quantity occur. *)
Definition calories_in_reference : node :=
  el "P" [] [txt "## Food Log"; br; txt "[[Bar 350kcal]] 50g"].

Definition calories_in_reference_once : node :=
  el "P" []
     [txt "## Food Log"; br; txt "[[Bar "; span nutrition_class (lit "350kcal");
      Element (lit "SPAN") [value_class] None []; txt "]] 50g"].

Definition calories_in_reference_twice : node :=
  el "P" []
     [txt "## Food Log"; br; txt "[[Bar "; span nutrition_class (lit "350kcal");
      Element (lit "SPAN") [value_class] None []; txt ""; txt "]] 50g"].

(** A paragraph of plain text whose reference contains a nutrient token. *)
Definition token_in_reference : node :=
  el "P" [] [txt "## Food Log"; br; txt "[[5fat]] 5g"].

Definition token_in_reference_once : node :=
  el "P" []
     [txt "## Food Log"; br; txt "[[";
      Element (lit "SPAN") [value_class] None [span nutrition_class (lit "5fat")];
      txt "]] 5g"].

End Samples.

(** ** Sample data for the nutrient cache *)

Module Larder.

Import NutrientCache.

(** Stand-ins for the library functions: numbers are read as the decimal
    literals of the entries are, a name that is not a string prints as
    [value], and no content parses as JSON. *)
Definition String_of (v : value) : str := lit "value".
Definition JSON_parse (content : str) : option value := None.

Definition apple : TFile :=
  {| path := lit "nutrients/apple.md"; extension := lit "md" |}.
Definition green_apple : TFile :=
  {| path := lit "nutrients/green/apple.md"; extension := lit "md" |}.
Definition pear : TFile :=
  {| path := lit "nutrients/pear.md"; extension := lit "md" |}.
Definition moved_pear : TFile :=
  {| path := lit "nutrients/fruit/pear.md"; extension := lit "md" |}.
Definition journal : TFile :=
  {| path := lit "journal/today.md"; extension := lit "md" |}.

Definition apple_front : list (str * value) :=
  [(lit "name", VString (lit "Apple"));
   (lit "calories", VNumber 52%float);
   (lit "carbohydrates", VString (lit "14"))].

Definition pear_front : list (str * value) :=
  [(lit "name", VString (lit "Pear")); (lit "calories", VNumber 57%float)].

(** A vault with two files that bear the name Apple. *)
Definition vault : Vault :=
  {| getAbstractFileByPath := fun _ => None;
     getMarkdownFiles := [journal; apple; green_apple; pear];
     cachedRead := fun _ => None;
     frontmatter :=
       fun file =>
         if Str.eqb (path file) (path apple) then Some apple_front
         else if Str.eqb (path file) (path green_apple) then Some apple_front
         else if Str.eqb (path file) (path pear) then Some pear_front
         else if Str.eqb (path file) (path moved_pear) then Some pear_front
         else None |}.

(** The cache after [initialize] over that vault. *)
Definition stocked : NutrientCache :=
  initialize parseFloat String_of JSON_parse vault (new (lit "nutrients")).

Definition apple_entry : entry :=
  {| name := lit "Apple";
     data := [(calories, 52%float); (carbs, 14%float)] |}.

End Larder.

(** * Properties *)

Module NC := NutritionCalculator.
Module FHC := FoodHighlightCore.
Module PP := FoodHighlightPostProcessor.
Module NCache := NutrientCache.

(** ** Objects *)

Lemma key_eqb_spec (a b : key) : reflect (a = b) (key_eqb a b).
Proof. destruct a, b; constructor; congruence. Qed.

Lemma key_eqb_refl (a : key) : key_eqb a a = true.
Proof. now destruct a. Qed.

Lemma get_set_same (V : Type) (k : key) (v : V) (o : obj V) :
  get k (set k v o) = Some v.
Proof.
  induction o as [|[k' v'] o IH]; simpl.
  - now rewrite key_eqb_refl.
  - destruct (key_eqb k' k) eqn:E; simpl.
    + now rewrite key_eqb_refl.
    + now rewrite E.
Qed.

Lemma get_set_other (V : Type) (k k' : key) (v : V) (o : obj V) :
  k <> k' -> get k' (set k v o) = get k' o.
Proof.
  intros Hne. induction o as [|[k0 v0] o IH]; simpl.
  - destruct (key_eqb_spec k k'); [contradiction | reflexivity].
  - destruct (key_eqb_spec k0 k) as [->|Hk]; simpl.
    + destruct (key_eqb_spec k k'); [contradiction | reflexivity].
    + destruct (key_eqb k0 k'); [reflexivity | exact IH].
Qed.

(** ** Worked examples

    The model run on inputs of the repository's test suites and on the
    literals of the specification. *)

Example heading_levels :
  map headingMatch
      [lit "## Food Log"; lit "##FOOD LOG  "; lit "### Snacks"; lit "# Top";
       lit "####### seven"; lit "Food Log"; lit " ## indented"]
  = [Some (2, lit "Food Log"); Some (2, lit "FOOD LOG"); Some (3, lit "Snacks");
     Some (1, lit "Top"); Some (6, lit "# seven"); None; None].
Proof. vm_compute. reflexivity. Qed.

Example heading_case_insensitive :
  map (Spec.is_target_heading (lit "Food Log"))
      [lit "## FOOD LOG"; lit "## Food Log"; lit "## food log"; lit "## Food Logs";
       lit "### Food Log"]
  = [true; true; true; false; false].
Proof. vm_compute. reflexivity. Qed.

Example parse_float_literals :
  map parseFloat [lit "150"; lit "0.5"; lit "125.5"; lit "-150"; lit "1.2"]
  = [150; 0.5; 125.5; -150; 0x1.3333333333333p+0]%float.
Proof. vm_compute. reflexivity. Qed.

Example round_half_up :
  map Math_round [27.5; 72.5; 2.5; -2.5; -0.5; 0x1.4000000000001p+2]%float
  = [28; 73; 3; -2; -0; 5]%float.
Proof. vm_compute. reflexivity. Qed.

Example number_strings :
  map number_to_string [0; 78; 150; 1e21; 0x1.ac53a7e04bcdap+66]%float
  = [lit "0"; lit "78"; lit "150"; lit "1e+21"; lit "123456789012345680000"].
Proof. vm_compute. reflexivity. Qed.

Example linked_entries_parsed :
  NC.parseFoodEntriesFromLines [lit "[[apple]] 150g"; lit "- [[Rice]] 1.5Cups x"]
  = [ {| NC.filename := lit "apple"; NC.amount := 150%float; NC.unit := lit "g" |};
      {| NC.filename := lit "Rice"; NC.amount := 1.5%float;
         NC.unit := lit "cups" |} ].
Proof. vm_compute. reflexivity. Qed.

Example inline_entries_parsed :
  NC.parseInlineNutrientEntriesFromLines
    [lit "Breakfast 300kcal 20prot"; lit "Recovery -150kcal";
     lit "Mix 10fat 5FAT 2.5satfat"; lit "No numbers here"]
  = [ [(calories, 300%float); (protein, 20%float)];
      [(calories, (-150)%float)];
      [(fats, 15%float); (saturated_fats, 2.5%float)] ].
Proof. vm_compute. reflexivity. Qed.

Example totals_of_two_fruits :
  NC.calculateNutritionTotals Samples.per_hundred Samples.two_fruits
  = (Some
       {| NC.linkedTotals :=
            [(calories, 190%float); (protein, 15%float); (carbs, 10%float)];
          NC.inlineTotals := [];
          NC.workoutTotals := [];
          NC.combinedTotals :=
            [(calories, 190%float); (protein, 15%float); (carbs, 10%float)];
          NC.clampedTotals :=
            [(calories, 190%float); (protein, 15%float); (carbs, 10%float)];
          NC.goalProgress :=
            Some [(calories, {| NC.remaining := 1810%float;
                                NC.percentConsumed := 10%float;
                                NC.percentRemaining := 91%float |})] |},
     []).
Proof. vm_compute. reflexivity. Qed.

Example entries_outside_section_ignored :
  option_map NC.inlineTotals
    (fst (NC.calculateNutritionTotals Samples.per_hundred Samples.outside_section))
  = Some [(calories, 200%float)].
Proof. vm_compute. reflexivity. Qed.

Example throwing_cache_reported :
  NC.calculateNutritionTotals Samples.per_hundred Samples.failing_cache
  = (Some {| NC.linkedTotals := []; NC.inlineTotals := [];
             NC.workoutTotals := []; NC.combinedTotals := [];
             NC.clampedTotals := []; NC.goalProgress := None |},
     [(lit "ghost", lit "cache down")]).
Proof. vm_compute. reflexivity. Qed.

Example progress_of_the_test_suite :
  map (fun gc => NC.progress_record (fst gc) (snd gc))
      [(2000, 100); (2000, 2500); (2000, 550); (0, 100); (2000, 2000)]%float
  = [ {| NC.remaining := 1900; NC.percentConsumed := 5;
         NC.percentRemaining := 95 |};
      {| NC.remaining := -500; NC.percentConsumed := 125;
         NC.percentRemaining := 0 |};
      {| NC.remaining := 1450; NC.percentConsumed := 28;
         NC.percentRemaining := 73 |};
      {| NC.remaining := -100; NC.percentConsumed := 0;
         NC.percentRemaining := 0 |};
      {| NC.remaining := 0; NC.percentConsumed := 100;
         NC.percentRemaining := 0 |} ]%float.
Proof. vm_compute. reflexivity. Qed.

Example lines_with_offsets :
  FHC.extractLinesUnderHeading Samples.sectioned_note (lit "Food Log")
  = [(lit "a", 18%Z); (lit "### sub", 20%Z); (lit "b", 28%Z); (lit "c", 42%Z)].
Proof. vm_compute. reflexivity. Qed.

Example text_read_back :
  PP.reconstructMarkdownText
    [Samples.txt "## Food Log"; Samples.br; Samples.link "apple";
     Samples.txt " 150g"; PP.hint_span (lit "150kcal");
     Samples.el "A" ["tag"%string] [Samples.txt "#lunch"]]
  = lit "## Food Log" ++ newline ++ lit "[[apple]] 150g#lunch".
Proof. vm_compute. reflexivity. Qed.

(** ** The matcher

    The bounds that make the repetition and the enumeration of matches
    structural are never reached: the matcher only moves forward, so a
    larger bound gives the same result. *)

Lemma star_loop_bound (greedy : bool) (body : mstate -> list mstate) :
  forall (n1 n2 : nat) (st : mstate),
    length (ahead st) < n1 -> length (ahead st) < n2 ->
    star_loop greedy body n1 st = star_loop greedy body n2 st.
Proof.
  induction n1 as [|n1 IH]; intros n2 st H1 H2; [lia|].
  destruct n2 as [|n2]; [lia|]. simpl.
  assert (E : flat_map
                (fun st' =>
                   if length (ahead st') <? length (ahead st)
                   then star_loop greedy body n1 st' else [])
                (body st)
              = flat_map
                  (fun st' =>
                     if length (ahead st') <? length (ahead st)
                     then star_loop greedy body n2 st' else [])
                  (body st)).
  { apply flat_map_ext. intros st'.
    destruct (Nat.ltb_spec (length (ahead st')) (length (ahead st)));
      [apply IH; lia | reflexivity]. }
  now rewrite E.
Qed.

(** A state reached from [st] lies further on in the same string. *)
Definition follows (st st' : mstate) : Prop :=
  exists consumed,
    ahead st = consumed ++ ahead st'
    /\ passed st' = rev consumed ++ passed st.

Lemma follows_refl (st : mstate) : follows st st.
Proof. exists []. split; reflexivity. Qed.

Lemma follows_trans (a b c : mstate) : follows a b -> follows b c -> follows a c.
Proof.
  intros (x & Hx1 & Hx2) (y & Hy1 & Hy2). exists (x ++ y). split.
  - now rewrite Hx1, Hy1, app_assoc.
  - now rewrite Hy2, Hx2, rev_app_distr, app_assoc.
Qed.

Lemma star_loop_follows (greedy : bool) (body : mstate -> list mstate) :
  (forall st st', In st' (body st) -> follows st st') ->
  forall (n : nat) (st st' : mstate),
    In st' (star_loop greedy body n st) -> follows st st'.
Proof.
  intros Hbody. induction n as [|n IH]; intros st st' Hin; simpl in Hin.
  - destruct Hin as [<-|[]]. apply follows_refl.
  - assert (Hmore : forall x,
               In x (flat_map
                       (fun st' =>
                          if length (ahead st') <? length (ahead st)
                          then star_loop greedy body n st' else [])
                       (body st)) -> follows st x).
    { intros x Hx. apply in_flat_map in Hx. destruct Hx as (mid & Hmid & Hx).
      destruct (length (ahead mid) <? length (ahead st)); [|contradiction].
      eapply follows_trans; [apply Hbody, Hmid | apply IH, Hx]. }
    destruct greedy.
    + apply in_app_or in Hin. destruct Hin as [Hin|[<-|[]]];
        [now apply Hmore | apply follows_refl].
    + destruct Hin as [<-|Hin]; [apply follows_refl | now apply Hmore].
Qed.

Lemma run_follows (r : regex) :
  forall st st' : mstate, In st' (run r st) -> follows st st'.
Proof.
  induction r as [|p|a IHa b IHb|a IHa b IHb|greedy a IHa|n a IHa|a IHa|m|m];
    intros st st' Hin; cbn [run] in Hin.
  - destruct Hin as [<-|[]]. apply follows_refl.
  - destruct (ahead st) as [|c s'] eqn:E; [contradiction|].
    destruct (p c); [|contradiction]. destruct Hin as [<-|[]].
    exists [c]. simpl. now rewrite E.
  - apply in_flat_map in Hin. destruct Hin as (mid & Hmid & Hin).
    eapply follows_trans; [apply IHa, Hmid | apply IHb, Hin].
  - apply in_app_or in Hin. destruct Hin as [Hin|Hin]; [now apply IHa | now apply IHb].
  - eapply star_loop_follows; [exact IHa | exact Hin].
  - apply in_map_iff in Hin. destruct Hin as (mid & <- & Hmid).
    destruct (IHa st mid Hmid) as (x & Hx1 & Hx2). exists x. now split.
  - destruct (run a st); [|contradiction]. destruct Hin as [<-|[]].
    apply follows_refl.
  - destruct (passed st) as [|c s'];
      [|destruct (m && is_line_terminator c); [|contradiction]];
      destruct Hin as [<-|[]]; apply follows_refl.
  - destruct (ahead st) as [|c s'];
      [|destruct (m && is_line_terminator c); [|contradiction]];
      destruct Hin as [<-|[]]; apply follows_refl.
Qed.

(** A match found at a position starts there and ends within the string. *)
Lemma match_here_bounds (r : regex) (before after : str) (m : rmatch) :
  match_here r before after = Some m ->
  index m = length before /\ last_index m <= length before + length after.
Proof.
  unfold match_here. destruct (run r (MState before after [])) as [|st l] eqn:E;
    [discriminate|].
  intros H. injection H as <-. unfold last_index. simpl. split; [reflexivity|].
  rewrite length_firstn. lia.
Qed.

Lemma search_bounds (r : regex) :
  forall (after before : str) (m : rmatch),
    search r before after = Some m ->
    length before <= index m
    /\ last_index m <= length before + length after.
Proof.
  induction after as [|c after IH]; intros before m; simpl.
  - destruct (match_here r before []) eqn:E; [|discriminate].
    intros H. injection H as ->. apply match_here_bounds in E. simpl in E. lia.
  - destruct (match_here r before (c :: after)) eqn:E.
    + intros H. injection H as ->. apply match_here_bounds in E. simpl in E. lia.
    + intros H. apply IH in H. simpl in H. lia.
Qed.

Lemma exec_from_bounds (r : regex) (s : str) (i : nat) (m : rmatch) :
  exec_from r s i = Some m -> i <= index m /\ last_index m <= length s.
Proof.
  unfold exec_from. destruct (Nat.ltb_spec (length s) i); [discriminate|].
  intros Hs. apply search_bounds in Hs.
  rewrite length_rev, length_firstn, length_skipn in Hs. lia.
Qed.

(** The enumeration of the matches does not depend on its bound once the
    bound exceeds what is left of the string. *)
Lemma exec_all_bound (r : regex) (s : str) :
  forall (n1 n2 i : nat),
    length s - i < n1 -> length s - i < n2 ->
    exec_all_from n1 r s i = exec_all_from n2 r s i.
Proof.
  induction n1 as [|n1 IH]; intros n2 i H1 H2; [lia|].
  destruct n2 as [|n2]; [lia|]. simpl.
  destruct (exec_from r s i) as [m|] eqn:E; [|reflexivity].
  destruct (Nat.leb_spec (last_index m) i); [reflexivity|].
  apply exec_from_bounds in E. f_equal. apply IH; lia.
Qed.

(** ** Section extraction *)

(** The two loops make the same decisions on every line; the offset is
    carried along without being consulted. *)
Lemma section_loop_lines (heading : str) (lines : list str) :
  forall (inSection : bool) (offset : Z),
    map fst (FHC.section_loop heading lines inSection offset)
    = NC.section_loop heading lines inSection.
Proof.
  induction lines as [|line rest IH]; intros inSection offset; simpl.
  - reflexivity.
  - destruct (headingMatch line) as [h|].
    + destruct (opens_section heading h).
      * apply IH.
      * destruct (inSection && (fst h <=? 2)); [reflexivity|].
        rewrite map_app, IH. now destruct inSection.
    + rewrite map_app, IH. now destruct inSection.
Qed.

(** C10: the two independently written section extractors agree: the lines
    the highlighter's extractor returns, offsets dropped, are the lines the
    calculator's extractor returns, for every content and heading. *)
Theorem extractors_agree (content heading : str) :
  map fst (FHC.extractLinesUnderHeading content heading)
  = NC.extractLinesUnderHeading content heading.
Proof. apply section_loop_lines. Qed.

(** Before the section is open, lines that are not the target heading
    produce nothing. *)
Lemma section_loop_closed (heading : str) (lines : list str) :
  (forall l, In l lines -> Spec.is_target_heading heading l = false) ->
  NC.section_loop heading lines false = [].
Proof.
  induction lines as [|line rest IH]; intros Hno; simpl; [reflexivity|].
  assert (Hl := Hno line (or_introl eq_refl)).
  assert (Hr : NC.section_loop heading rest false = [])
    by (apply IH; intros l Hin; apply Hno; now right).
  unfold Spec.is_target_heading in Hl.
  destruct (headingMatch line) as [h|]; [rewrite Hl|]; simpl; exact Hr.
Qed.

Lemma section_loop_skip (heading : str) (pre rest : list str) :
  (forall l, In l pre -> Spec.is_target_heading heading l = false) ->
  NC.section_loop heading (pre ++ rest) false
  = NC.section_loop heading rest false.
Proof.
  induction pre as [|line pre IH]; intros Hno; simpl; [reflexivity|].
  assert (Hl := Hno line (or_introl eq_refl)).
  assert (Hr : NC.section_loop heading (pre ++ rest) false
               = NC.section_loop heading rest false)
    by (apply IH; intros l Hin; apply Hno; now right).
  unfold Spec.is_target_heading in Hl.
  destruct (headingMatch line) as [h|]; [rewrite Hl|]; simpl; exact Hr.
Qed.

(** Inside the section, lines are emitted up to the first closing heading;
    a repeated target heading is skipped and the section stays open. *)
Lemma section_loop_open (heading : str) (body rest : list str) :
  (forall l, In l body -> Spec.is_closing_heading heading l = false) ->
  (rest = [] \/ exists c rest', rest = c :: rest'
                                /\ Spec.is_closing_heading heading c = true) ->
  NC.section_loop heading (body ++ rest) true
  = filter (fun l => negb (Spec.is_target_heading heading l)) body.
Proof.
  intros Hbody Hrest.
  induction body as [|line body IH]; simpl.
  - destruct Hrest as [->|(c & rest' & -> & Hc)]; [reflexivity|].
    simpl. unfold Spec.is_closing_heading, Spec.is_top_heading,
      Spec.is_target_heading in Hc.
    destruct (headingMatch c) as [h|]; [|discriminate].
    destruct (opens_section heading h); [now rewrite andb_false_r in Hc|].
    rewrite andb_true_r in Hc. now rewrite Hc.
  - assert (Hl := Hbody line (or_introl eq_refl)).
    assert (IH' := IH (fun l Hin => Hbody l (or_intror Hin))).
    unfold Spec.is_closing_heading, Spec.is_top_heading in Hl.
    unfold Spec.is_target_heading at 1.
    unfold Spec.is_target_heading in Hl.
    destruct (headingMatch line) as [h|].
    + destruct (opens_section heading h); simpl.
      * exact IH'.
      * rewrite andb_true_r in Hl. rewrite Hl. simpl. now rewrite IH'.
    + simpl. now rewrite IH'.
Qed.

(** C4, as stated, fails: on a document that repeats the target heading the
    code emits the line after the second heading, although that heading is
    the next heading of level <= 2. *)
Lemma repeated_heading_keeps_section_open :
  NC.extractLinesUnderHeading Samples.twice_opened (lit "Food Log") = [lit "a"; lit "b"]
  /\ Spec.section_lines (lit "Food Log") (split_newline Samples.twice_opened) = [lit "a"]
  /\ NC.extractLinesUnderHeading Samples.twice_opened (lit "Food Log")
     <> Spec.section_lines (lit "Food Log") (split_newline Samples.twice_opened).
Proof.
  split; [|split]; [vm_compute; reflexivity | vm_compute; reflexivity |].
  vm_compute. intro H. discriminate H.
Qed.

(** C4, amended: once the first target heading has opened the section, every
    following line is emitted up to the next heading of level <= 2 that is
    not itself the target heading (or to the end of the document); nothing
    after that heading is emitted; headings of level 3 or deeper are emitted
    like any other line; a repeated target heading is skipped without closing
    the section.  Both extractors behave so. *)
Theorem section_extent (content heading : str) (pre body rest : list str) (h : str) :
  split_newline content = pre ++ h :: body ++ rest ->
  (forall l, In l pre -> Spec.is_target_heading heading l = false) ->
  Spec.is_target_heading heading h = true ->
  (forall l, In l body -> Spec.is_closing_heading heading l = false) ->
  (rest = [] \/ exists c rest', rest = c :: rest'
                                /\ Spec.is_closing_heading heading c = true) ->
  NC.extractLinesUnderHeading content heading
  = filter (fun l => negb (Spec.is_target_heading heading l)) body
  /\ map fst (FHC.extractLinesUnderHeading content heading)
     = filter (fun l => negb (Spec.is_target_heading heading l)) body.
Proof.
  intros Hsplit Hpre Hh Hbody Hrest.
  assert (E : NC.extractLinesUnderHeading content heading
              = filter (fun l => negb (Spec.is_target_heading heading l)) body).
  { unfold NC.extractLinesUnderHeading. rewrite Hsplit.
    rewrite section_loop_skip by exact Hpre.
    simpl. unfold Spec.is_target_heading in Hh.
    destruct (headingMatch h) as [hm|]; [|discriminate].
    rewrite Hh. now apply section_loop_open. }
  split; [exact E|].
  unfold FHC.extractLinesUnderHeading. rewrite section_loop_lines. exact E.
Qed.

Lemma section_extent_witness :
  NC.extractLinesUnderHeading Samples.sectioned_note (lit "Food Log")
  = filter (fun l => negb (Spec.is_target_heading (lit "Food Log") l))
           [lit "a"; lit "### sub"; lit "b"; lit "## food log"; lit "c"]
  /\ map fst (FHC.extractLinesUnderHeading Samples.sectioned_note (lit "Food Log"))
     = filter (fun l => negb (Spec.is_target_heading (lit "Food Log") l))
              [lit "a"; lit "### sub"; lit "b"; lit "## food log"; lit "c"].
Proof.
  apply (@section_extent Samples.sectioned_note (lit "Food Log") [lit "intro"]
           [lit "a"; lit "### sub"; lit "b"; lit "## food log"; lit "c"]
           [lit "# Top"; lit "d"] (lit "## Food Log")).
  - vm_compute. reflexivity.
  - intros l [<-|[]]. vm_compute. reflexivity.
  - vm_compute. reflexivity.
  - intros l [<-|[<-|[<-|[<-|[<-|[]]]]]]; vm_compute; reflexivity.
  - right. exists (lit "# Top"), [lit "d"]. split; vm_compute; reflexivity.
Defined.

(** ** The aggregator's "no data" result *)

(** C3: the aggregator returns null exactly when the Food Log section yields
    no linked entry and no inline entry; for a text none of whose lines is a
    level-2 heading whose trimmed title equals the target up to case, both
    extractors return the empty sequence, and the aggregator returns null
    without calling the error callback. *)
Theorem no_data_iff_no_entries
        (getUnitMultiplier : number -> str -> option number -> number)
        (params : NC.NutritionCalculationParams) :
  (fst (NC.calculateNutritionTotals getUnitMultiplier params) = None
   <-> NC.parseFoodEntriesFromLines
         (NC.extractLinesUnderHeading (NC.content params) (lit "Food Log")) = []
       /\ NC.parseInlineNutrientEntriesFromLines
            (NC.extractLinesUnderHeading (NC.content params) (lit "Food Log")) = [])
  /\ (forall heading,
         (forall l, In l (split_newline (NC.content params)) ->
                    Spec.is_target_heading heading l = false) ->
         NC.extractLinesUnderHeading (NC.content params) heading = []
         /\ FHC.extractLinesUnderHeading (NC.content params) heading = [])
  /\ ((forall l, In l (split_newline (NC.content params)) ->
                 Spec.is_target_heading (lit "Food Log") l = false) ->
      NC.calculateNutritionTotals getUnitMultiplier params = (None, [])).
Proof.
  assert (Hext : forall heading,
             (forall l, In l (split_newline (NC.content params)) ->
                        Spec.is_target_heading heading l = false) ->
             NC.extractLinesUnderHeading (NC.content params) heading = []).
  { intros heading Hno. now apply section_loop_closed. }
  split; [|split].
  - unfold NC.calculateNutritionTotals.
    destruct (NC.parseFoodEntriesFromLines _) as [|fe fes];
      destruct (NC.parseInlineNutrientEntriesFromLines _) as [|ie ies]; simpl.
    + split; auto.
    + split; [discriminate | intros [_ H]; discriminate H].
    + destruct (NC.calculateTotals _ _ _); simpl.
      split; [discriminate | intros [H _]; discriminate H].
    + destruct (NC.calculateTotals _ _ _); simpl.
      split; [discriminate | intros [H _]; discriminate H].
  - intros heading Hno. split; [now apply Hext|].
    assert (E := section_loop_lines heading (split_newline (NC.content params))
                                    false 0%Z).
    fold (NC.extractLinesUnderHeading (NC.content params) heading) in E.
    rewrite (Hext heading Hno) in E.
    unfold FHC.extractLinesUnderHeading.
    destruct (FHC.section_loop _ _ _ _); [reflexivity | discriminate E].
  - intros Hno. unfold NC.calculateNutritionTotals.
    rewrite (Hext _ Hno). reflexivity.
Qed.

Lemma no_data_iff_no_entries_witness :
  NC.calculateNutritionTotals Samples.per_hundred
    (Samples.note "Regular note without Food Log heading." Samples.no_data None)
  = (None, []).
Proof.
  apply (no_data_iff_no_entries Samples.per_hundred
           (Samples.note "Regular note without Food Log heading."
                         Samples.no_data None)).
  intros l [<-|[]]. vm_compute. reflexivity.
Defined.

(** ** The workout adjustment *)

(** C1, as stated, fails: the single inline entry of the log qualifies as a
    workout entry, yet the result's workout totals are empty, not the totals
    of that entry, and nothing is subtracted from the inline totals. *)
Lemma workout_subset_not_subtracted :
  exists r entries,
    NC.calculateNutritionTotals Samples.per_hundred Samples.run_note = (Some r, [])
    /\ entries = NC.parseInlineNutrientEntriesFromLines
                   (NC.extractLinesUnderHeading (NC.content Samples.run_note)
                                                (lit "Food Log"))
    /\ NC.filterValidWorkoutEntries entries = [[(calories, 300%float)]]
    /\ NC.workoutTotals r = []
    /\ NC.workoutTotals r <> Spec.workout_totals entries
    /\ NC.inlineTotals r = [(calories, 300%float)]
    /\ NC.inlineTotals r <> Spec.adjusted_inline_totals entries.
Proof.
  eexists. eexists.
  split; [vm_compute; reflexivity|].
  split; [reflexivity|].
  split; [vm_compute; reflexivity|].
  split; [reflexivity|].
  split; [vm_compute; intro H; discriminate H|].
  split; [vm_compute; reflexivity|].
  intro H.
  apply (f_equal (fun o => PrimFloat.eqb (NC.or_zero (get calories o)) 300%float)) in H.
  vm_compute in H. discriminate H.
Qed.

(** C1, amended: the list of workout entries is always empty, so for every
    document that yields a result the workout totals are empty, the inline
    totals are the key-wise sum of all inline entries with nothing
    subtracted, and the combined totals add these inline totals to the
    linked totals. *)
Theorem workout_totals_empty
        (getUnitMultiplier : number -> str -> option number -> number)
        (params : NC.NutritionCalculationParams)
        (r : NC.NutritionCalculationResult) (log : NC.read_errors) :
  NC.calculateNutritionTotals getUnitMultiplier params = (Some r, log) ->
  NC.workoutTotals r = empty
  /\ NC.inlineTotals r
     = NC.calculateInlineTotals
         (NC.parseInlineNutrientEntriesFromLines
            (NC.extractLinesUnderHeading (NC.content params) (lit "Food Log")))
  /\ NC.combinedTotals r = NC.combineNutrients (NC.linkedTotals r) (NC.inlineTotals r).
Proof.
  unfold NC.calculateNutritionTotals.
  match goal with
  | |- context [if ?c then _ else _] => destruct c
  end; [discriminate|].
  destruct (NC.calculateTotals _ _ _) as [linked lg]. simpl.
  intros H. injection H as <- _. simpl. repeat split.
Qed.

Lemma workout_totals_empty_witness :
  exists r,
    NC.calculateNutritionTotals Samples.per_hundred Samples.run_note = (Some r, [])
    /\ NC.workoutTotals r = empty
    /\ NC.inlineTotals r = [(calories, 300%float)].
Proof.
  eexists. split; [vm_compute; reflexivity|].
  split.
  - apply (@workout_totals_empty Samples.per_hundred Samples.run_note _ []).
    vm_compute. reflexivity.
  - reflexivity.
Defined.

(** ** Inline entries and lines that start with brackets *)

(** The look-ahead does its work where the search starts: a match at index
    0 is a match on a line that does not start with two opening brackets. *)
Lemma inline_match_at_start (line : str) (m : rmatch) :
  exec inlineRegex line = Some m -> index m = 0 ->
  prefixb (lit "[[") line = false.
Proof.
  intros Hm Hidx.
  destruct (prefixb (lit "[[") line) eqn:P; [exfalso|reflexivity].
  destruct line as [|c1 [|c2 tl]].
  { discriminate P. }
  { change (Ascii.eqb "["%char c1 && false = true) in P.
    rewrite andb_false_r in P. discriminate P. }
  change (Ascii.eqb "["%char c1 && (Ascii.eqb "["%char c2 && true) = true) in P.
  apply andb_true_iff in P. destruct P as [P1 P2].
  apply andb_true_iff in P2. destruct P2 as [P2 _].
  apply Ascii.eqb_eq in P1, P2. subst c1 c2.
  unfold exec, exec_from in Hm.
  change (match match_here inlineRegex [] ("["%char :: "["%char :: tl) with
          | Some m0 => Some m0
          | None => search inlineRegex ["["%char] ("["%char :: tl)
          end = Some m) in Hm.
  destruct (match_here inlineRegex [] ("["%char :: "["%char :: tl)) as [m0|] eqn:E.
  - vm_compute in E. discriminate E.
  - apply search_bounds in Hm. simpl in Hm. lia.
Qed.

(** C6 fails on the code: the inline pattern is not anchored, so on a line
    that starts with two opening brackets the search, refused at index 0 by
    the look-ahead, succeeds at index 1, and the line contributes an inline
    entry. *)
Theorem bracket_line_yields_inline_entry :
  prefixb (lit "[[") Samples.bracket_line = true
  /\ option_map (fun m => (index m, group 1 m))
                (exec inlineRegex Samples.bracket_line)
     = Some (1, lit "[apple]]")
  /\ NC.parseInlineNutrientEntriesFromLines [Samples.bracket_line]
     = [[(calories, 300%float)]]
  /\ option_map NC.inlineTotals
       (fst (NC.calculateNutritionTotals Samples.per_hundred Samples.bracket_note))
     = Some [(calories, 300%float)]
  /\ (forall line m,
         exec inlineRegex line = Some m -> index m = 0 ->
         prefixb (lit "[[") line = false).
Proof.
  do 4 (split; [vm_compute; reflexivity|]).
  exact inline_match_at_start.
Qed.

(** ** Highlight ranges *)

(** C5 fails on the code for the amount ranges: the end of an amount range
    is one position past the end of the unit token, for every match (on the
    line below the token ends at 16, the end of the line, and the range ends
    at 17); and its start is the first occurrence of the number's digits in
    the whole match, which lies inside the reference when the reference
    contains them.  The rest holds: the ranges are those of all the matches
    of the two patterns on the line, the amount ranges first, each shifted
    by the line's start, and a nutrition range spans exactly its token. *)
Theorem amount_range_overshoots :
  FHC.extractFoodHighlightRanges (lit "[[Chicken]] 200g") 0
  = [ {| FHC.start := 12; FHC.end_ := 17; FHC.type := FHC.amount |} ]
  /\ FHC.len (lit "[[Chicken]] 200g") = 16%Z
  /\ FHC.extractFoodHighlightRanges (lit "[[Apple 2]] 2g") 0
     = [ {| FHC.start := 8; FHC.end_ := 11; FHC.type := FHC.amount |} ]
  /\ FHC.extractFoodHighlightRanges (lit "Snack 300kcal -20prot") 100
     = [ {| FHC.start := 106; FHC.end_ := 113; FHC.type := FHC.nutrition |};
         {| FHC.start := 114; FHC.end_ := 121; FHC.type := FHC.nutrition |} ]
  /\ (forall (text : str) (lineStart : Z),
         FHC.extractFoodHighlightRanges text lineStart
         = map (fun m =>
                  {| FHC.start :=
                       lineStart + Z.of_nat (index m)
                       + FHC.indexOfZ (whole m) (group 2 m);
                     FHC.end_ :=
                       lineStart + Z.of_nat (index m)
                       + FHC.indexOfZ (whole m) (group 2 m)
                       + (FHC.len (group 2 m) + FHC.len (group 3 m)) + 1;
                     FHC.type := FHC.amount |})
               (exec_all linkedRegex text)
           ++ map (fun m =>
                     {| FHC.start := lineStart + Z.of_nat (index m);
                        FHC.end_ := lineStart + Z.of_nat (last_index m);
                        FHC.type := FHC.nutrition |})
                  (exec_all nutrientRegex text))%Z.
Proof.
  do 4 (split; [vm_compute; reflexivity|]).
  intros text lineStart. unfold FHC.extractFoodHighlightRanges.
  f_equal; apply map_ext; intros m.
  - unfold FHC.amount_range. f_equal. lia.
  - unfold FHC.nutrition_range, last_index, FHC.len. f_equal. lia.
Qed.

(** ** Linked totals and lookup failures *)

Example basket_totals :
  NC.calculateTotals Samples.per_hundred Samples.basket Samples.pantry
  = ([(calories, 190%float); (protein, 15%float); (carbs, 10%float)],
     [(lit "ghost", lit "cache down")]).
Proof. vm_compute. reflexivity. Qed.

(** The loop of [calculateTotals], with its two accumulators made explicit. *)
Lemma totals_loop_spec
      (getUnitMultiplier : number -> str -> option number -> number)
      (source : str -> NC.lookup) (entries : list NC.FoodEntry) :
  forall (totals : NC.NutrientData) (log : NC.read_errors),
    NC.totals_loop getUnitMultiplier source entries totals log
    = (fold_left
         (fun totals e =>
            match source (NC.filename e) with
            | NC.Found n =>
                NC.addNutrients totals n
                  (getUnitMultiplier (NC.amount e) (NC.unit e) (get serving_size n))
            | _ => totals
            end)
         entries totals,
       log ++ flat_map
               (fun e =>
                  match source (NC.filename e) with
                  | NC.Thrown err => [(NC.filename e, err)]
                  | _ => []
                  end)
               entries).
Proof.
  induction entries as [|e rest IH]; intros totals log; simpl.
  - now rewrite app_nil_r.
  - destruct (source (NC.filename e)) as [n| |err]; rewrite IH; simpl.
    + reflexivity.
    + reflexivity.
    + now rewrite <- app_assoc.
Qed.

Lemma fold_left_skip_failed
      (getUnitMultiplier : number -> str -> option number -> number)
      (source : str -> NC.lookup) (entries : list NC.FoodEntry) :
  forall totals : NC.NutrientData,
    fold_left
      (fun totals e =>
         match source (NC.filename e) with
         | NC.Found n =>
             NC.addNutrients totals n
               (getUnitMultiplier (NC.amount e) (NC.unit e) (get serving_size n))
         | _ => totals
         end)
      (filter (fun e => negb (Spec.lookup_failed (source (NC.filename e)))) entries)
      totals
    = fold_left
        (fun totals e =>
           match source (NC.filename e) with
           | NC.Found n =>
               NC.addNutrients totals n
                 (getUnitMultiplier (NC.amount e) (NC.unit e) (get serving_size n))
           | _ => totals
           end)
        entries totals.
Proof.
  induction entries as [|e rest IH]; intros totals; simpl; [reflexivity|].
  destruct (source (NC.filename e)) as [n| |err] eqn:E; simpl.
  - rewrite E. apply IH.
  - apply IH.
  - apply IH.
Qed.

(** C7, as stated, fails: a lookup that fails by returning null is skipped
    without any call of the error callback. *)
Lemma null_lookup_reports_nothing :
  Spec.lookup_failed (Samples.no_data (NC.filename Samples.oats)) = true
  /\ snd (NC.calculateTotals Samples.per_hundred [Samples.oats] Samples.no_data) = []
  /\ fst (NC.calculateTotals Samples.per_hundred [Samples.oats] Samples.no_data) = empty.
Proof. repeat split. Qed.

(** C7, amended: the error callback is called exactly once for each entry
    whose lookup throws, in entry order, with the entry's reference and the
    thrown value, and for no other entry (an entry whose lookup returns null
    is skipped silently); every entry whose lookup returns data is scaled by
    its multiplier and accumulated, whatever happens to its siblings: the
    totals are those of the list with the failing entries removed. *)
Theorem lookup_failures_are_local
        (getUnitMultiplier : number -> str -> option number -> number)
        (entries : list NC.FoodEntry) (source : str -> NC.lookup) :
  snd (NC.calculateTotals getUnitMultiplier entries source)
  = flat_map
      (fun e =>
         match source (NC.filename e) with
         | NC.Thrown err => [(NC.filename e, err)]
         | _ => []
         end)
      entries
  /\ fst (NC.calculateTotals getUnitMultiplier entries source)
     = fold_left
         (fun totals e =>
            match source (NC.filename e) with
            | NC.Found n =>
                NC.addNutrients totals n
                  (getUnitMultiplier (NC.amount e) (NC.unit e) (get serving_size n))
            | _ => totals
            end)
         entries empty
  /\ fst (NC.calculateTotals getUnitMultiplier entries source)
     = fst (NC.calculateTotals getUnitMultiplier
              (filter (fun e => negb (Spec.lookup_failed (source (NC.filename e))))
                      entries)
              source).
Proof.
  unfold NC.calculateTotals. rewrite !totals_loop_spec. simpl.
  repeat split. symmetry. apply fold_left_skip_failed.
Qed.

(** ** Goal progress *)

Lemma positive_is_not_zero (goal : number) :
  gt goal zero = true -> (goal =? 0)%float = false.
Proof.
  unfold gt. rewrite FloatAxioms.ltb_spec, FloatAxioms.eqb_spec.
  change (Prim2SF zero) with (S754_zero false).
  change (Prim2SF 0%float) with (S754_zero false).
  destruct (Prim2SF goal) as [s|s| |s m e]; simpl;
    try discriminate; destruct s; simpl; try discriminate; reflexivity.
Qed.

Lemma zero_is_not_positive (goal : number) :
  (goal =? 0)%float = true -> gt goal zero = false.
Proof.
  unfold gt. rewrite FloatAxioms.ltb_spec, FloatAxioms.eqb_spec.
  change (Prim2SF zero) with (S754_zero false).
  change (Prim2SF 0%float) with (S754_zero false).
  destruct (Prim2SF goal) as [s|s| |s m e]; simpl;
    try discriminate; try reflexivity; destruct s; simpl; discriminate.
Qed.

(** The loop over the eight nutrient keys, for any list of keys. *)
Lemma progress_fold (consumed : NC.NutrientData) (goals : NC.NutrientGoals)
      (k : key) (ks : list key) :
  forall acc : obj NC.NutrientGoalProgress,
    get k
      (fold_left
         (fun progress key =>
            match get key goals with
            | Some goal =>
                set key (NC.progress_record goal (NC.or_zero (get key consumed)))
                    progress
            | None => progress
            end)
         ks acc)
    = if existsb (key_eqb k) ks
      then match get k goals with
           | Some goal =>
               Some (NC.progress_record goal (NC.or_zero (get k consumed)))
           | None => get k acc
           end
      else get k acc.
Proof.
  induction ks as [|a ks IH]; intros acc; simpl; [reflexivity|].
  rewrite IH. clear IH.
  destruct (key_eqb_spec k a) as [<-|Hne]; simpl.
  - destruct (get k goals) as [goal|].
    + rewrite get_set_same. now destruct (existsb (key_eqb k) ks).
    + now destruct (existsb (key_eqb k) ks).
  - destruct (get a goals) as [goal|].
    + rewrite get_set_other by congruence. reflexivity.
    + reflexivity.
Qed.

(** C8, as stated, fails: for a negative goal the code reports 0 for both
    percentages, where the stated formulas give -50 and 150. *)
Lemma negative_goal_reports_zero :
  get calories (NC.calculateGoalProgress Samples.fifty_consumed Samples.negative_goal)
  = Some {| NC.remaining := (-150)%float;
            NC.percentConsumed := 0%float;
            NC.percentRemaining := 0%float |}
  /\ Spec.goal_record (-100)%float 50%float
     = {| NC.remaining := (-150)%float;
          NC.percentConsumed := (-50)%float;
          NC.percentRemaining := 150%float |}
  /\ get calories
         (NC.calculateGoalProgress Samples.fifty_consumed Samples.negative_goal)
     <> Some (Spec.goal_record (-100)%float 50%float).
Proof.
  split; [vm_compute; reflexivity|].
  split; [vm_compute; reflexivity|].
  intro H.
  apply (f_equal (fun o => match o with
                           | Some p => PrimFloat.eqb (NC.percentConsumed p) 0%float
                           | None => false
                           end)) in H.
  vm_compute in H. discriminate H.
Qed.

(** C8, amended: the progress table has an entry exactly for the nutrient
    keys present in the goals (never for another key); the entry holds
    remaining = goal - consumed, with consumed read from the given totals
    and 0 when absent, and the two percentages computed by the stated
    formulas when the goal is positive and 0 otherwise (zero, negative or
    NaN goal); the record is the stated one whenever the goal is positive or
    zero; and the aggregator computes the table from the clamped totals
    exactly when goals are supplied. *)
Theorem goal_progress_table
        (consumed : NC.NutrientData) (goals : NC.NutrientGoals) (k : key) :
  get k (NC.calculateGoalProgress consumed goals)
  = (if existsb (key_eqb k) NC.nutrientKeys
     then option_map
            (fun goal => NC.progress_record goal (NC.or_zero (get k consumed)))
            (get k goals)
     else None)
  /\ (forall goal c,
         NC.progress_record goal c
         = {| NC.remaining := (goal - c)%float;
              NC.percentConsumed :=
                if gt goal zero then Math_round ((c / goal) * 100)%float else zero;
              NC.percentRemaining :=
                if gt goal zero
                then Math_max zero (Math_round (((goal - c) / goal) * 100)%float)
                else zero |})
  /\ (forall goal c,
         gt goal zero = true \/ (goal =? 0)%float = true ->
         NC.progress_record goal c = Spec.goal_record goal c)
  /\ (forall getUnitMultiplier params r log,
         NC.calculateNutritionTotals getUnitMultiplier params = (Some r, log) ->
         NC.goalProgress r
         = option_map (NC.calculateGoalProgress (NC.clampedTotals r))
                      (NC.goals params)).
Proof.
  split; [|split; [|split]].
  - unfold NC.calculateGoalProgress. rewrite progress_fold. simpl get.
    destruct (existsb (key_eqb k) NC.nutrientKeys); [|reflexivity].
    now destruct (get k goals).
  - reflexivity.
  - intros goal c [Hpos|Hzero]; unfold NC.progress_record, Spec.goal_record.
    + now rewrite Hpos, (positive_is_not_zero Hpos).
    + now rewrite Hzero, (zero_is_not_positive Hzero).
  - intros gum params r log. unfold NC.calculateNutritionTotals.
    match goal with
    | |- context [if ?c then _ else _] => destruct c
    end; [discriminate|].
    destruct (NC.calculateTotals _ _ _) as [linked lg]. simpl.
    intros H. injection H as <- _. simpl. now destruct (NC.goals params).
Qed.

Lemma goal_progress_table_witness :
  NC.progress_record 2000%float 100%float = Spec.goal_record 2000%float 100%float
  /\ get calories
       (NC.calculateGoalProgress Samples.hundred_consumed Samples.daily_goal)
     = Some {| NC.remaining := 1900%float;
               NC.percentConsumed := 5%float;
               NC.percentRemaining := 95%float |}.
Proof.
  split.
  - apply (proj1 (proj2 (proj2
             (goal_progress_table Samples.hundred_consumed Samples.daily_goal
                                  calories)))).
    left. vm_compute. reflexivity.
  - rewrite (proj1 (goal_progress_table Samples.hundred_consumed
                                        Samples.daily_goal calories)).
    vm_compute. reflexivity.
Defined.

(** ** The reconciliation pass *)

Lemma split_nth (A : Type) (i : nat) :
  forall (l : list A) (x : A), nth_error l i = Some x ->
    l = firstn i l ++ x :: skipn (S i) l.
Proof.
  induction i as [|i IH]; intros [|y l] x E; simpl in E; try discriminate.
  - injection E as ->. reflexivity.
  - simpl. f_equal. now apply IH.
Qed.

Lemma splice_at_same (q : PP.path) :
  forall (children : list PP.node) (n : PP.node),
    PP.node_at children q = Some n ->
    PP.splice_at (fun _ => [n]) q children = children.
Proof.
  induction q as [|i q IH]; intros children n; [discriminate|].
  cbn [PP.node_at PP.splice_at].
  destruct (nth_error children i) as [x|] eqn:E; [|discriminate].
  assert (S := split_nth _ _ E).
  destruct q as [|j q].
  - intros H. destruct x; injection H as H; subst n; symmetry; exact S.
  - destruct x as [data|t c h cs]; [discriminate|].
    intros H. rewrite (IH cs n H). symmetry. exact S.
Qed.



Section Pass.

Variable getUnitMultiplier : number -> str -> option number -> number.
Variable source : str -> NC.lookup.



Lemma annotations_loop_returns (A : Type)
      (body : A -> FHC.outcome (option FHC.CalorieAnnotation)) (items : list A) :
  (forall x, exists r, body x = FHC.Return r) ->
  exists l, FHC.annotations_loop body items = FHC.Return l.
Proof.
  intros Hbody. induction items as [|x rest [l IH]]; simpl; [eauto|].
  destruct (Hbody x) as [r ->]. simpl. rewrite IH. simpl. eauto.
Qed.














End Pass.




(** ** Applying the pass twice *)

(** Induction on a tree, with the hypothesis for every child. *)
Lemma node_induction (P : PP.node -> Prop) :
  (forall data, P (PP.Text data)) ->
  (forall t c h children, Forall P children -> P (PP.Element t c h children)) ->
  forall n, P n.
Proof.
  intros Htext Helement. fix IH 1. intros [data|t c h children].
  - apply Htext.
  - apply Helement. induction children as [|x children IHc]; constructor.
    + apply IH.
    + exact IHc.
Qed.

(** The first step of [highlightMatches] leaves no wrapper of either kind
    in the tree. *)
Lemma unwrap_leaves_no_wrapper (n : PP.node) :
  Spec.occurs PP.is_wrapper (PP.unwrap n) = false.
Proof.
  induction n as [data|t c h children IH] using node_induction.
  - reflexivity.
  - cbn [PP.unwrap].
    destruct (PP.is_wrapper (PP.Element t c h children)) eqn:W.
    + reflexivity.
    + cbn [Spec.occurs].
      change (PP.is_wrapper (PP.Element t c h (map PP.unwrap children)))
        with (PP.is_wrapper (PP.Element t c h children)).
      rewrite W. cbn [orb].
      induction IH as [|x children Hx _ IHc]; [reflexivity|].
      cbn [map existsb]. now rewrite Hx, IHc.
Qed.

(** The removal of the old hints leaves no hint in the tree. *)
Lemma remove_hints_leaves_no_hint (n : PP.node) :
  forall x, In x (PP.remove_hints n) ->
            Spec.occurs (PP.has_class PP.hint_class) x = false.
Proof.
  induction n as [data|t c h children IH] using node_induction; intros x Hin.
  - destruct Hin as [<-|[]]. reflexivity.
  - cbn [PP.remove_hints PP.has_class] in Hin.
    destruct (existsb (Str.eqb PP.hint_class) c) eqn:W; [destruct Hin|].
    destruct Hin as [<-|[]]. cbn [Spec.occurs PP.has_class]. rewrite W.
    cbn [orb].
    induction IH as [|y children Hy _ IHc]; [reflexivity|].
    cbn [flat_map]. rewrite existsb_app, IHc, orb_false_r.
    destruct (existsb _ (PP.remove_hints y)) eqn:E; [|reflexivity].
    apply existsb_exists in E. destruct E as (z & Hz & Ez).
    now rewrite (Hy z Hz) in Ez.
Qed.

(** C9 fails on the code.  Every pass does unwrap the wrappers of the
    two kinds and remove the old hints before it wraps and inserts again.
    Yet the amount range ends one character after the unit, so when an
    emphasised nutrient token directly follows the quantity of a rendered
    linked entry, the amount range and the nutrition range overlap over two
    parents: the first pass leaves the nutrition wrapper and the hint inside
    the emphasis, the second pass moves both out of it and leaves the
    emphasis empty.  In a paragraph of plain text whose reference holds a
    nutrient token containing the digits of the quantity, the amount range
    lies inside the nutrition range: one pass leaves an empty amount wrapper,
    and every further pass adds an empty text node after it.  Where the two
    ranges start together, a single pass nests one wrapper in the other.  On
    a paragraph whose quantities are followed by a space the second pass
    changes nothing. *)
Theorem second_pass_differs :
  PP.process_container Samples.per_hundred Samples.hints_on Samples.larder
                       Samples.emphasised_token
  = (Samples.emphasised_token_once, None)
  /\ PP.process_container Samples.per_hundred Samples.hints_on Samples.larder
                          Samples.emphasised_token_once
     = (Samples.emphasised_token_twice, None)
  /\ Samples.emphasised_token_twice <> Samples.emphasised_token_once
  /\ PP.process_container Samples.per_hundred Samples.hints_on Samples.larder
                          Samples.calories_in_reference
     = (Samples.calories_in_reference_once, None)
  /\ PP.process_container Samples.per_hundred Samples.hints_on Samples.larder
                          Samples.calories_in_reference_once
     = (Samples.calories_in_reference_twice, None)
  /\ Samples.calories_in_reference_twice <> Samples.calories_in_reference_once
  /\ PP.process_container Samples.per_hundred Samples.hints_on Samples.larder
                          Samples.token_in_reference
     = (Samples.token_in_reference_once, None)
  /\ Spec.nested_wrapper Samples.token_in_reference_once = true
  /\ PP.process_container Samples.per_hundred Samples.hints_on Samples.larder
                          Samples.rendered_paragraph
     = (Samples.rendered_paragraph_once, None)
  /\ PP.process_container Samples.per_hundred Samples.hints_on Samples.larder
                          Samples.rendered_paragraph_once
     = (Samples.rendered_paragraph_once, None)
  /\ (forall n, Spec.occurs PP.is_wrapper (PP.unwrap n) = false)
  /\ (forall n x, In x (PP.remove_hints n) ->
                  Spec.occurs (PP.has_class PP.hint_class) x = false).
Proof.
  split; [vm_compute; reflexivity|].
  split; [vm_compute; reflexivity|].
  split; [vm_compute; intro H; discriminate H|].
  split; [vm_compute; reflexivity|].
  split; [vm_compute; reflexivity|].
  split; [vm_compute; intro H; discriminate H|].
  split; [vm_compute; reflexivity|].
  split; [vm_compute; reflexivity|].
  split; [vm_compute; reflexivity|].
  split; [vm_compute; reflexivity|].
  split; [exact unwrap_leaves_no_wrapper | exact remove_hints_leaves_no_hint].
Qed.

(** * Further properties

    Properties of the code beyond the sentences of the specification: of the
    functions the claims leave out, and of the way the functions compose. *)

Import Notions.

(** ** Section lines and their offsets *)

Lemma split_newline_nonempty (s : str) : split_newline s <> [].
Proof.
  induction s as [|c s IH]; simpl; [discriminate|].
  destruct (Ascii.eqb c "010"); [discriminate|].
  destruct (split_newline s); [contradiction|discriminate].
Qed.

(** Splitting at the newlines loses nothing. *)
Lemma unsplit_split (s : str) : unsplit (split_newline s) = s.
Proof.
  induction s as [|c s IH]; [reflexivity|]. simpl split_newline.
  destruct (Ascii.eqb_spec c "010") as [->|Hc].
  - assert (H := split_newline_nonempty s).
    destruct (split_newline s) as [|l ls] eqn:E; [contradiction|].
    change (unsplit ([] :: l :: ls)) with (newline ++ unsplit (l :: ls)).
    now rewrite IH.
  - assert (H := split_newline_nonempty s).
    destruct (split_newline s) as [|l ls] eqn:E; [contradiction|].
    destruct ls as [|l' ls]; simpl in IH |- *; now rewrite IH.
Qed.

(** The loop keeps [offset] equal to the length of the text before the
    line at hand. *)
Lemma section_loop_located (heading : str) (lines : list str) :
  forall (inSection : bool) (prefix : str) (line : str) (offset : Z),
    In (line, offset)
       (FHC.section_loop heading lines inSection (FHC.len prefix)) ->
    exists pre post,
      prefix ++ unsplit lines = pre ++ line ++ post /\ FHC.len pre = offset.
Proof.
  induction lines as [|l rest IH]; intros inSection prefix line offset Hin;
    [destruct Hin|].
  cbn [FHC.section_loop] in Hin.
  assert (Hrest : forall b,
             In (line, offset)
                (FHC.section_loop heading rest b (FHC.len prefix + (FHC.len l + 1))) ->
             exists pre post,
               prefix ++ unsplit (l :: rest) = pre ++ line ++ post
               /\ FHC.len pre = offset).
  { intros b H. destruct rest as [|l' rest']; [destruct H|].
    replace (FHC.len prefix + (FHC.len l + 1))%Z
      with (FHC.len (prefix ++ l ++ newline)) in H
      by (unfold FHC.len; rewrite !length_app; simpl; lia).
    apply IH in H. destruct H as (pre & post & E & L).
    exists pre, post. split; [|exact L].
    rewrite <- E.
    change (unsplit (l :: l' :: rest')) with (l ++ newline ++ unsplit (l' :: rest')).
    now rewrite <- !app_assoc. }
  assert (Hpush : In (line, offset) (if inSection then [(l, FHC.len prefix)] else []) ->
                  exists pre post,
                    prefix ++ unsplit (l :: rest) = pre ++ line ++ post
                    /\ FHC.len pre = offset).
  { destruct inSection; [|intros []]. intros [H|[]]. injection H as <- <-.
    exists prefix. destruct rest as [|l' rest'].
    - exists []. now rewrite app_nil_r.
    - exists (newline ++ unsplit (l' :: rest')). split; reflexivity. }
  destruct (headingMatch l) as [h|].
  - destruct (opens_section heading h); [now apply (Hrest true)|].
    destruct (inSection && (fst h <=? 2)); [destruct Hin|].
    apply in_app_or in Hin.
    destruct Hin as [H|H]; [now apply Hpush | now apply (Hrest inSection)].
  - apply in_app_or in Hin.
    destruct Hin as [H|H]; [now apply Hpush | now apply (Hrest inSection)].
Qed.

Lemma substring_middle (pre line post : str) :
  substring (pre ++ line ++ post) (FHC.len pre) (FHC.len pre + FHC.len line) = line.
Proof.
  unfold substring, clamp, FHC.len. rewrite !length_app.
  replace (Z.to_nat (Z.min (Z.max 0 (Z.of_nat (length pre)))
                           (Z.of_nat (length pre + (length line + length post)))))
    with (length pre) by lia.
  replace (Z.to_nat (Z.min (Z.max 0 (Z.of_nat (length pre) + Z.of_nat (length line)))
                           (Z.of_nat (length pre + (length line + length post)))))
    with (length pre + length line) by lia.
  rewrite Nat.min_l, Nat.max_r by lia.
  rewrite skipn_app, skipn_all, Nat.sub_diag. simpl.
  replace (length pre + length line - length pre) with (length line) by lia.
  rewrite firstn_app, firstn_all, Nat.sub_diag. simpl. apply app_nil_r.
Qed.

Lemma located_line (text heading line : str) (offset : Z) :
  In (line, offset) (FHC.extractLinesUnderHeading text heading) ->
  (0 <= offset)%Z
  /\ (offset + FHC.len line <= FHC.len text)%Z
  /\ substring text offset (offset + FHC.len line) = line.
Proof.
  unfold FHC.extractLinesUnderHeading. intros Hin.
  change 0%Z with (FHC.len []) in Hin.
  apply section_loop_located in Hin. destruct Hin as (pre & post & E & L).
  simpl in E. rewrite unsplit_split in E. subst text offset.
  split; [unfold FHC.len; lia|]. split.
  - unfold FHC.len. rewrite !length_app. lia.
  - apply substring_middle.
Qed.

(** X1: every line the highlighter's extractor returns comes with the
    offset at which it stands in the text: the offset is not negative, the
    line ends within the text, and the substring of the text from the offset
    over the length of the line is the line. *)
Theorem offsets_locate_lines (text heading : str) :
  Forall
    (fun lo =>
       (0 <= snd lo)%Z
       /\ (snd lo + FHC.len (fst lo) <= FHC.len text)%Z
       /\ substring text (snd lo) (snd lo + FHC.len (fst lo)) = fst lo)
    (FHC.extractLinesUnderHeading text heading).
Proof.
  apply Forall_forall. intros [line offset] Hin. cbn [fst snd].
  exact (located_line _ _ _ _ Hin).
Qed.

Lemma section_loop_sublist (heading : str) (lines : list str) :
  forall (inSection : bool) (l : str),
    In l (NC.section_loop heading lines inSection) ->
    In l lines /\ Spec.is_top_heading l = false.
Proof.
  induction lines as [|line rest IH]; intros inSection l Hin; [destruct Hin|].
  cbn [NC.section_loop] in Hin. unfold Spec.is_top_heading.
  destruct (headingMatch line) as [h|] eqn:E.
  - destruct (opens_section heading h) eqn:O.
    + apply IH in Hin. split; [right|]; apply Hin.
    + destruct inSection; cbn [andb] in Hin.
      * destruct (fst h <=? 2) eqn:L; [destruct Hin|].
        destruct Hin as [<-|Hin].
        -- split; [now left|]. now rewrite E.
        -- apply IH in Hin. split; [right|]; apply Hin.
      * apply IH in Hin. split; [right|]; apply Hin.
  - destruct inSection.
    + destruct Hin as [<-|Hin].
      * split; [now left|]. now rewrite E.
      * apply IH in Hin. split; [right|]; apply Hin.
    + apply IH in Hin. split; [right|]; apply Hin.
Qed.

Lemma split_newline_lines (s : str) :
  Forall (fun l => ~ In "010"%char l) (split_newline s).
Proof.
  induction s as [|c s IH]; simpl.
  - constructor; [intros []|constructor].
  - destruct (Ascii.eqb_spec c "010") as [->|Hc].
    + constructor; [intros []|exact IH].
    + destruct (split_newline s) as [|l ls].
      * constructor; [|constructor]. intros [H|[]]. now apply Hc.
      * inversion IH as [|? ? Hl Hls]; subst. constructor; [|exact Hls].
        intros [H|H]; [now apply Hc | now apply Hl].
Qed.

(** X2: the lines of a section are lines of the text between newlines;
    none of them is a heading of level 1 or 2, and none is the target
    heading itself.  Both extractors behave so. *)
Theorem section_lines_are_body_lines (content heading : str) :
  Forall (fun l => In l (split_newline content)
                   /\ ~ In "010"%char l
                   /\ Spec.is_top_heading l = false
                   /\ Spec.is_target_heading heading l = false)
         (NC.extractLinesUnderHeading content heading)
  /\ Forall (fun lo => In (fst lo) (split_newline content)
                       /\ Spec.is_top_heading (fst lo) = false)
            (FHC.extractLinesUnderHeading content heading).
Proof.
  assert (H : Forall (fun l => In l (split_newline content)
                   /\ ~ In "010"%char l
                   /\ Spec.is_top_heading l = false
                   /\ Spec.is_target_heading heading l = false)
         (NC.extractLinesUnderHeading content heading)).
  { apply Forall_forall. intros l Hin.
    apply section_loop_sublist in Hin. destruct Hin as [Hin Htop].
    split; [exact Hin|]. split.
    - exact (proj1 (Forall_forall _ _) (split_newline_lines content) l Hin).
    - split; [exact Htop|].
      unfold Spec.is_top_heading in Htop. unfold Spec.is_target_heading.
      destruct (headingMatch l) as [h|]; [|reflexivity].
      unfold opens_section. destruct (Nat.eqb_spec (fst h) 2) as [E|]; [|reflexivity].
      rewrite E in Htop. discriminate Htop. }
  split; [exact H|].
  apply Forall_forall. intros lo Hin.
  assert (Hl : In (fst lo) (NC.extractLinesUnderHeading content heading)).
  { unfold NC.extractLinesUnderHeading.
    rewrite <- section_loop_lines with (offset := 0%Z). now apply in_map. }
  destruct (proj1 (Forall_forall _ _) H _ Hl) as (A & _ & B & _). now split.
Qed.

(** ** Entries of a line *)

Lemma exec_is_first_of_all (r : regex) (s : str) :
  match exec r s with Some m => [m] | None => [] end = firstn 1 (exec_all r s).
Proof.
  unfold exec_all, exec. cbn [exec_all_from].
  destruct (exec_from r s 0) as [m|]; [|reflexivity].
  now destruct (last_index m <=? 0).
Qed.

Lemma flat_map_length_le (A B : Type) (f : A -> list B) (l : list A) :
  (forall x, length (f x) <= 1) -> length (flat_map f l) <= length l.
Proof.
  intros H. induction l as [|x l IH]; simpl; [lia|].
  rewrite length_app. specialize (H x). lia.
Qed.

(** X3: the calculator reads at most one linked entry and at most one
    inline entry from a line: the linked entry of a line is made from the
    first of the matches the highlighter enumerates on it, so further linked
    entries on the same line are highlighted and annotated but not counted. *)
Theorem one_entry_per_line (lines : list str) :
  NC.parseFoodEntriesFromLines lines
  = flat_map
      (fun line =>
         map (fun m => {| NC.filename := group 1 m;
                          NC.amount := parseFloat (group 2 m);
                          NC.unit := toLowerCase (group 3 m) |})
             (firstn 1 (exec_all linkedRegex line)))
      lines
  /\ length (NC.parseFoodEntriesFromLines lines) <= length lines
  /\ length (NC.parseInlineNutrientEntriesFromLines lines) <= length lines.
Proof.
  split; [|split].
  - unfold NC.parseFoodEntriesFromLines. apply flat_map_ext. intros line.
    rewrite <- exec_is_first_of_all. now destruct (exec linkedRegex line).
  - apply flat_map_length_le. intros line.
    destruct (exec linkedRegex line); simpl; lia.
  - apply flat_map_length_le. intros line.
    destruct (exec inlineRegex line) as [m|]; [|simpl; lia]. cbv zeta.
    destruct (0 <? length (keys (NC.parseNutrientString (group 2 m)))); simpl; lia.
Qed.

(** ** Sums of nutrients *)

Lemma get_not_in (V : Type) (k : key) (o : obj V) :
  ~ In k (keys o) -> get k o = None.
Proof.
  induction o as [|[k' v] o IH]; simpl; [reflexivity|]. intros H.
  destruct (key_eqb_spec k' k) as [->|_]; [exfalso; apply H; now left|].
  apply IH. intros Hin. apply H. now right.
Qed.

Lemma get_in_keys (V : Type) (k : key) (o : obj V) :
  In k (keys o) -> exists v, get k o = Some v.
Proof.
  induction o as [|[k' v] o IH]; simpl; [intros []|]. intros H.
  destruct (key_eqb_spec k' k) as [->|Hne]; [now exists v|].
  destruct H as [H|H]; [contradiction|auto].
Qed.

Lemma existsb_key (k : key) (ks : list key) :
  existsb (key_eqb k) ks = true <-> In k ks.
Proof.
  rewrite existsb_exists. split.
  - intros (x & Hx & E). destruct (key_eqb_spec k x); [now subst|discriminate].
  - intros H. exists k. split; [exact H|apply key_eqb_refl].
Qed.

Lemma in_keys_set (V : Type) (k k' : key) (v : V) (o : obj V) :
  In k' (keys (set k v o)) <-> k' = k \/ In k' (keys o).
Proof.
  induction o as [|[k0 v0] o IH]; simpl.
  - intuition congruence.
  - destruct (key_eqb_spec k0 k) as [->|Hne]; simpl; [intuition congruence|].
    rewrite IH. tauto.
Qed.

(** Assigning to a property the object has keeps the keys as they are;
    assigning to a new one adds it last. *)
Lemma keys_set_old (V : Type) (k : key) (v : V) (o : obj V) :
  In k (keys o) -> keys (set k v o) = keys o.
Proof.
  induction o as [|[k0 v0] o IH]; simpl; [intros []|].
  destruct (key_eqb_spec k0 k) as [->|Hne]; [reflexivity|].
  intros [H|H]; [contradiction|]. simpl. now rewrite IH.
Qed.

Lemma keys_set_new (V : Type) (k : key) (v : V) (o : obj V) :
  ~ In k (keys o) -> keys (set k v o) = keys o ++ [k].
Proof.
  induction o as [|[k0 v0] o IH]; simpl; [reflexivity|]. intros H.
  destruct (key_eqb_spec k0 k) as [->|Hne]; [exfalso; apply H; now left|].
  simpl. rewrite IH; [reflexivity|]. intros Hin. apply H. now right.
Qed.

Lemma nodup_set (V : Type) (k : key) (v : V) (o : obj V) :
  NoDup (keys o) -> NoDup (keys (set k v o)).
Proof.
  induction o as [|[k0 v0] o IH]; simpl; intros H.
  - constructor; [intros []|constructor].
  - inversion H as [|? ? Hk0 Ho]; subst.
    destruct (key_eqb_spec k0 k) as [->|Hne]; simpl.
    + constructor; assumption.
    + constructor; [|now apply IH].
      intros Hin. apply in_keys_set in Hin.
      destruct Hin as [->|Hin]; [now apply Hne|contradiction].
Qed.

Lemma keys_set (V : Type) (P : key -> Prop) (k : key) (v : V) (o : obj V) :
  P k -> Forall P (keys o) -> Forall P (keys (set k v o)).
Proof.
  intros Hk H. apply Forall_forall. intros x Hx. apply in_keys_set in Hx.
  destruct Hx as [->|Hx]; [exact Hk|]. exact (proj1 (Forall_forall _ _) H x Hx).
Qed.

Lemma values_set (V : Type) (P : V -> Prop) (k : key) (v : V) (o : obj V) :
  P v -> Forall P (values o) -> Forall P (values (set k v o)).
Proof.
  intros Hv. induction o as [|[k' v'] o IH]; simpl; intros H.
  - constructor; [exact Hv|constructor].
  - inversion H as [|? ? Hv' Ho]; subst.
    destruct (key_eqb k' k); constructor; auto.
Qed.

Lemma fold_left_invariant (A B : Type) (P : A -> Prop) (f : A -> B -> A) (l : list B) :
  (forall a b, P a -> P (f a b)) -> forall a, P a -> P (fold_left f l a).
Proof. intros Hf. induction l as [|b l IH]; intros a Ha; simpl; auto. Qed.

(** What the loop of [addNutrients] leaves under a key: the loop runs over
    the keys of the source, each of which the source has. *)
Lemma add_fold_get (source : NC.NutrientData) (multiplier : number) (k : key) :
  forall (ks : list key) (target : NC.NutrientData),
    NoDup ks ->
    get k (fold_left
             (fun target key =>
                match get key source with
                | Some v => set key (NC.or_zero (get key target) + v * multiplier)%float target
                | None => target
                end) ks target)
    = if existsb (key_eqb k) ks
      then match get k source with
           | Some v => Some (NC.or_zero (get k target) + v * multiplier)%float
           | None => get k target
           end
      else get k target.
Proof.
  induction ks as [|k0 ks IH]; intros target Hnd; [reflexivity|].
  inversion Hnd as [|? ? Hk0 Hks]; subst. cbn [fold_left existsb].
  rewrite IH by exact Hks.
  destruct (key_eqb_spec k k0) as [->|Hne]; cbn [orb].
  - assert (E : existsb (key_eqb k0) ks = false).
    { destruct (existsb (key_eqb k0) ks) eqn:E; [|reflexivity].
      apply existsb_key in E. contradiction. }
    rewrite E. destruct (get k0 source) as [v|]; [|reflexivity].
    apply get_set_same.
  - destruct (get k0 source) as [v0|]; [|reflexivity].
    rewrite get_set_other by congruence. reflexivity.
Qed.

Lemma addNutrients_get (target source : NC.NutrientData)
      (multiplier : number) (k : key) :
  NoDup (keys source) ->
  get k (NC.addNutrients target source multiplier)
  = match get k source with
    | Some v => Some (NC.or_zero (get k target) + v * multiplier)%float
    | None => get k target
    end.
Proof.
  intros Hnd. unfold NC.addNutrients. rewrite add_fold_get by exact Hnd.
  destruct (existsb (key_eqb k) (keys source)) eqn:E; [reflexivity|].
  destruct (get k source) as [v|] eqn:G; [|reflexivity].
  assert (X : In k (keys source)).
  { destruct (in_dec (fun a b => match key_eqb_spec a b with
                                 | ReflectT _ e => left e
                                 | ReflectF _ n => right n
                                 end) k (keys source)) as [i|ni]; [exact i|].
    apply get_not_in in ni. congruence. }
  apply existsb_key in X. congruence.
Qed.

Lemma add_fold_keys (source : NC.NutrientData) (multiplier : number) :
  forall (ks : list key) (target : NC.NutrientData),
    NoDup ks -> (forall k, In k ks -> In k (keys source)) ->
    keys (fold_left
            (fun target key =>
               match get key source with
               | Some v => set key (NC.or_zero (get key target) + v * multiplier)%float target
               | None => target
               end) ks target)
    = keys target
      ++ filter (fun k => negb (existsb (key_eqb k) (keys target))) ks.
Proof.
  induction ks as [|k0 ks IH]; intros target Hnd Hin; [now rewrite app_nil_r|].
  inversion Hnd as [|? ? Hk0 Hks]; subst. cbn [fold_left filter].
  rewrite IH; [|exact Hks|intros k Hk; apply Hin; now right].
  destruct (get_in_keys _ _ (Hin k0 (or_introl eq_refl))) as [v0 G]. rewrite G.
  destruct (existsb (key_eqb k0) (keys target)) eqn:E; cbn [negb].
  - apply existsb_key in E. rewrite keys_set_old by exact E. reflexivity.
  - assert (N : ~ In k0 (keys target)).
    { intros X. apply existsb_key in X. congruence. }
    rewrite keys_set_new by exact N. rewrite <- app_assoc. cbn [app]. f_equal. f_equal.
    apply filter_ext_in. intros k Hk. rewrite existsb_app. cbn [existsb].
    rewrite orb_false_r.
    destruct (key_eqb_spec k k0) as [->|_]; [contradiction|now rewrite orb_false_r].
Qed.

(** X4: [addNutrients] adds key by key: under a key of the source the
    result holds the target's value, or 0 where the target has none, plus
    the source's value times the multiplier; a key the source lacks keeps the
    target's value.  The target's keys keep their order and the keys new to
    it follow, in the order of the source. *)
Theorem add_nutrients_lookup (target source : NC.NutrientData)
        (multiplier : number) :
  NoDup (keys source) ->
  (forall k,
      get k (NC.addNutrients target source multiplier)
      = match get k source with
        | Some v => Some (NC.or_zero (get k target) + v * multiplier)%float
        | None => get k target
        end)
  /\ keys (NC.addNutrients target source multiplier)
     = keys target ++ new_keys target source.
Proof.
  intros Hnd. split.
  - intros k. apply addNutrients_get, Hnd.
  - unfold NC.addNutrients, new_keys. apply add_fold_keys; [exact Hnd|trivial].
Qed.

Lemma add_nutrients_lookup_witness :
  (forall k,
      get k (NC.addNutrients [(calories, 100%float); (fats, 5%float)]
                             [(protein, 10%float); (calories, 50%float)] 2%float)
      = match get k [(protein, 10%float); (calories, 50%float)] with
        | Some v =>
            Some (NC.or_zero (get k [(calories, 100%float); (fats, 5%float)])
                  + v * 2)%float
        | None => get k [(calories, 100%float); (fats, 5%float)]
        end)
  /\ keys (NC.addNutrients [(calories, 100%float); (fats, 5%float)]
                           [(protein, 10%float); (calories, 50%float)] 2%float)
     = [calories; fats] ++ [protein].
Proof.
  apply (@add_nutrients_lookup [(calories, 100%float); (fats, 5%float)]
           [(protein, 10%float); (calories, 50%float)] 2%float).
  repeat constructor; simpl; intuition discriminate.
Defined.

Lemma nutrientKeyMap_range (unit : str) (k : key) :
  NC.nutrientKeyMap unit = Some k -> In k NC.nutrientKeys.
Proof.
  unfold NC.nutrientKeyMap, NC.nutrientKeys.
  repeat match goal with
         | |- context [if ?b then _ else _] => destruct b
         end; intros H; try discriminate H; injection H as <-; simpl; tauto.
Qed.

Lemma parseNutrientString_keys (s : str) : well_keyed (NC.parseNutrientString s).
Proof.
  unfold NC.parseNutrientString. apply fold_left_invariant.
  - intros o m [Hnd Hin].
    destruct (NC.nutrientKeyMap (toLowerCase (group 2 m))) as [k|] eqn:E; [|now split].
    split; [now apply nodup_set|]. apply keys_set; [|exact Hin].
    eapply nutrientKeyMap_range, E.
  - split; constructor.
Qed.

Lemma addNutrients_keys (target source : NC.NutrientData) (m : number) :
  well_keyed target -> Forall (fun k => In k NC.nutrientKeys) (keys source) ->
  well_keyed (NC.addNutrients target source m).
Proof.
  intros Ht Hs. unfold NC.addNutrients.
  revert target Ht. induction Hs as [|k ks Hk Hks IH]; intros target Ht; [exact Ht|].
  cbn [fold_left]. apply IH.
  destruct (get k source); [|exact Ht]. destruct Ht as [A B].
  split; [now apply nodup_set | now apply keys_set].
Qed.

Lemma inline_totals_well_keyed (lines : list str) :
  well_keyed (NC.calculateInlineTotals (NC.parseInlineNutrientEntriesFromLines lines)).
Proof.
  unfold NC.calculateInlineTotals.
  assert (E : Forall well_keyed (NC.parseInlineNutrientEntriesFromLines lines)).
  { unfold NC.parseInlineNutrientEntriesFromLines. apply Forall_flat_map.
    apply Forall_forall. intros line _.
    destruct (exec inlineRegex line) as [m|]; [|constructor]. cbv zeta.
    destruct (0 <? length (keys (NC.parseNutrientString (group 2 m)))); [|constructor].
    constructor; [apply parseNutrientString_keys|constructor]. }
  revert E. generalize (NC.parseInlineNutrientEntriesFromLines lines).
  assert (G : forall (l : list NC.InlineNutrientEntry) (t : NC.NutrientData),
             well_keyed t -> Forall well_keyed l ->
             well_keyed (fold_left (fun totals entry => NC.addNutrients totals entry one)
                                   l t)).
  { induction l as [|e l IH]; intros t Ht Hl; [exact Ht|].
    inversion Hl as [|? ? He Hl']; subst. simpl. apply IH; [|exact Hl'].
    apply addNutrients_keys; [exact Ht | apply He]. }
  intros l Hl. apply G; [split; constructor|exact Hl].
Qed.

Lemma no_serving_size (o : NC.NutrientData) :
  well_keyed o -> get serving_size o = None.
Proof.
  intros [_ B]. apply get_not_in. intros Hin.
  apply (proj1 (Forall_forall _ _) B) in Hin. unfold NC.nutrientKeys in Hin.
  simpl in Hin. repeat destruct Hin as [Hin|Hin]; try discriminate Hin. exact Hin.
Qed.

(** X5: the totals of the inline entries of any lines carry each key at
    most once, only keys among the eight nutrients, and never a serving
    size: a serving size can only come from looked-up data. *)
Theorem inline_totals_keys (lines : list str) :
  let totals :=
    NC.calculateInlineTotals (NC.parseInlineNutrientEntriesFromLines lines) in
  NoDup (keys totals)
  /\ Forall (fun k => In k NC.nutrientKeys) (keys totals)
  /\ get serving_size totals = None.
Proof.
  intros totals. assert (W := inline_totals_well_keyed lines).
  split; [apply W|]. split; [apply W|]. apply no_serving_size, W.
Qed.

(** ** Clamping and goal progress *)

(** [Math.max(0, x)] is never below zero; it is NaN when [x] is. *)
Lemma max_zero_not_negative (x : number) : ((Math_max zero x) <? zero)%float = false.
Proof.
  unfold Math_max. change (is_nan zero) with false. cbn [orb].
  destruct (is_nan x); [reflexivity|].
  destruct (zero <? x)%float eqn:L.
  - rewrite ltb_spec in L |- *. unfold SFltb in *.
    change (Prim2SF zero) with (S754_zero false) in *.
    destruct (Prim2SF x) as [s|s| |s m e]; simpl in *; try discriminate L;
      destruct s; simpl in *; try discriminate L; reflexivity.
  - destruct (x <? zero)%float; [reflexivity|].
    change (is_zero zero && get_sign zero) with false. reflexivity.
Qed.

Lemma clamp_values (nutrients : NC.NutrientData) :
  Forall (fun v => (v <? zero)%float = false)
         (values (NC.clampNutrientsToZero nutrients)).
Proof.
  unfold NC.clampNutrientsToZero. apply fold_left_invariant; [|constructor].
  intros clamped k H. destruct (get k nutrients) as [v|]; [|exact H].
  apply values_set; [apply max_zero_not_negative | exact H].
Qed.

Lemma clamp_get (nutrients : NC.NutrientData) (k : key) :
  get k (NC.clampNutrientsToZero nutrients)
  = option_map (Math_max zero) (get k nutrients).
Proof.
  unfold NC.clampNutrientsToZero.
  assert (G : forall ks clamped,
             get k (fold_left
                      (fun clamped key =>
                         match get key nutrients with
                         | Some value => set key (Math_max zero value) clamped
                         | None => clamped
                         end) ks clamped)
             = if existsb (key_eqb k) ks
                  && match get k nutrients with Some _ => true | None => false end
               then option_map (Math_max zero) (get k nutrients)
               else get k clamped).
  { induction ks as [|k0 ks IH]; intros clamped; [reflexivity|].
    cbn [fold_left existsb]. rewrite IH.
    destruct (key_eqb_spec k k0) as [<-|Hne]; cbn [orb].
    - destruct (get k nutrients) as [v|] eqn:E.
      + rewrite andb_true_r. rewrite get_set_same.
        now destruct (existsb (key_eqb k) ks).
      + now rewrite !andb_false_r.
    - destruct (get k0 nutrients) as [v0|]; [|reflexivity].
      rewrite get_set_other by congruence. reflexivity. }
  rewrite G. simpl.
  destruct (get k nutrients) as [v|] eqn:E; [|now rewrite andb_false_r].
  rewrite andb_true_r.
  assert (X : existsb (key_eqb k) (keys nutrients) = true).
  { apply existsb_key.
    destruct (in_dec (fun a b => match key_eqb_spec a b with
                                 | ReflectT _ e => left e
                                 | ReflectF _ n => right n
                                 end) k (keys nutrients)) as [i|ni]; [exact i|].
    apply get_not_in in ni. congruence. }
  now rewrite X.
Qed.

(** X6: [clampNutrientsToZero] keeps every key and replaces its value by
    the larger of 0 and the value; no value of the result is below zero (a NaN
    stays a NaN). *)
Theorem clamped_totals_not_negative (nutrients : NC.NutrientData) :
  Forall (fun v => (v <? zero)%float = false)
         (values (NC.clampNutrientsToZero nutrients))
  /\ (forall k, get k (NC.clampNutrientsToZero nutrients)
                = option_map (Math_max zero) (get k nutrients))
  /\ NC.clampNutrientsToZero [(calories, (-20)%float); (protein, nan)]
     = [(calories, zero); (protein, nan)].
Proof.
  split; [apply clamp_values|]. split; [intros k; apply clamp_get|].
  vm_compute. reflexivity.
Qed.

(** ** The sign of a remainder and of its percentage *)

Lemma shr_1_nonneg (mrs : shr_record) : (0 <= shr_m mrs)%Z -> (0 <= shr_m (shr_1 mrs))%Z.
Proof.
  destruct mrs as [m r s]. simpl. destruct m as [|[p|p|]|p]; simpl; lia.
Qed.

Lemma iter_shr_1_nonneg (p : positive) :
  forall mrs, (0 <= shr_m mrs)%Z -> (0 <= shr_m (iter_pos shr_1 p mrs))%Z.
Proof.
  induction p as [p IH|p IH|]; intros mrs H; simpl.
  - apply IH, IH. now apply shr_1_nonneg.
  - now apply IH, IH.
  - now apply shr_1_nonneg.
Qed.

Lemma shr_fexp_nonneg (m e : Z) (l : location) :
  (0 <= m)%Z -> (0 <= shr_m (fst (shr_fexp prec emax m e l)))%Z.
Proof.
  intros H. unfold shr_fexp, shr.
  assert (R : (0 <= shr_m (shr_record_of_loc m l))%Z)
    by (destruct l as [|[]]; exact H).
  destruct (fexp prec emax (Zdigits2 m + e) - e)%Z; simpl; try exact R.
  now apply iter_shr_1_nonneg.
Qed.

Lemma binary_round_aux_sign (sx : bool) (mx ex : Z) (lx : location) :
  (0 <= mx)%Z -> has_sign sx (binary_round_aux prec emax sx mx ex lx).
Proof.
  intros H. unfold binary_round_aux.
  assert (A := shr_fexp_nonneg ex lx H).
  destruct (shr_fexp prec emax mx ex lx) as [mrs' e']. simpl in A.
  assert (B : (0 <= round_nearest_even (shr_m mrs') (loc_of_shr_record mrs'))%Z).
  { unfold round_nearest_even. destruct (loc_of_shr_record mrs') as [|[]]; try lia.
    destruct (Z.even (shr_m mrs')); lia. }
  assert (C := shr_fexp_nonneg e' loc_Exact B).
  destruct (shr_fexp prec emax _ e' loc_Exact) as [mrs'' e'']. simpl in C.
  destruct (shr_m mrs'') as [|m|m]; [reflexivity| |lia].
  destruct (e'' <=? emax - prec)%Z; reflexivity.
Qed.

Lemma binary_round_sign (sx : bool) (mx : positive) (ex : Z) :
  has_sign sx (binary_round prec emax sx mx ex).
Proof.
  unfold binary_round. destruct (shl_align mx ex _) as [mz ez].
  apply binary_round_aux_sign. lia.
Qed.

Lemma div_core_nonneg (m1 : positive) (e1 : Z) (m2 : positive) (e2 : Z) :
  (0 <= fst (fst (SFdiv_core_binary prec emax (Zpos m1) e1 (Zpos m2) e2)))%Z.
Proof.
  unfold SFdiv_core_binary.
  set (s := (e1 - e2 - _)%Z).
  set (m' := match s with Zpos _ => Z.shiftl (Zpos m1) s | Z0 => Zpos m1 | Zneg _ => 0%Z end).
  assert (M : (0 <= m')%Z).
  { unfold m'. destruct s; try lia. apply Z.shiftl_nonneg. lia. }
  assert (Q := Z.div_pos m' (Zpos m2) M ltac:(lia)).
  unfold Z.div in Q. destruct (Z.div_eucl m' (Zpos m2)) as [q r]. exact Q.
Qed.

(** A quotient of a negative number by a positive finite one has its sign. *)
Lemma div_sign (x y : float) (m : positive) (e : Z) :
  has_sign true (Prim2SF x) ->
  Prim2SF y = S754_finite false m e ->
  has_sign true (Prim2SF (x / y)).
Proof.
  intros Hx Hy. rewrite div_spec, Hy. unfold SF64div, SFdiv.
  destruct (Prim2SF x) as [s|s| |s mx ex]; simpl in Hx; subst; try contradiction;
    try reflexivity.
  assert (N := div_core_nonneg mx ex m e).
  destruct (SFdiv_core_binary prec emax (Zpos mx) ex (Zpos m) e) as [[mz ez] lz].
  simpl in N. now apply binary_round_aux_sign.
Qed.

Lemma mul_sign (x y : float) (m : positive) (e : Z) :
  has_sign true (Prim2SF x) ->
  Prim2SF y = S754_finite false m e ->
  has_sign true (Prim2SF (x * y)).
Proof.
  intros Hx Hy. rewrite mul_spec, Hy. unfold SF64mul, SFmul.
  destruct (Prim2SF x) as [s|s| |s mx ex]; simpl in Hx; subst; try contradiction;
    try reflexivity.
  apply binary_round_aux_sign. lia.
Qed.

Lemma of_Z_sign (q : positive) : has_sign false (Prim2SF (of_Z (Zpos q))).
Proof.
  unfold of_Z. cbn [binary_normalize].
  assert (V := binary_round_sign false q 0).
  destruct (binary_round prec emax false q 0) as [s|s| |s m e]; simpl in V; subst;
    try contradiction; try reflexivity.
  cbn [SF2Prim]. unfold Z.ldexp. rewrite ldshiftexp_spec, of_uint63_spec.
  set (n := Uint63.to_Z (Uint63.of_Z (Zpos m))).
  assert (B : (0 <= n)%Z) by apply Uint63.to_Z_bounded.
  destruct n as [|n|n]; [reflexivity| |lia].
  cbn [binary_normalize].
  assert (W := binary_round_sign false n 0).
  destruct (binary_round prec emax false n 0) as [s|s| |s m' e']; simpl in W; subst;
    try contradiction; try reflexivity.
  cbn [SFldexp]. apply binary_round_sign.
Qed.

Lemma round_sign (x : float) :
  has_sign true (Prim2SF x) -> has_sign true (Prim2SF (Math_round x)).
Proof.
  intros H. unfold Math_round.
  destruct (Prim2SF x) as [s|s| |s m e] eqn:E; try (rewrite E; exact H).
  destruct e as [|p|p]; try (rewrite E; exact H).
  simpl in H. subst s.
  set (den := Z.pow_pos 2 p). set (twice := (2 * Zpos m)%Z).
  assert (D : (0 < den)%Z) by (unfold den; rewrite Z.pow_pos_fold; lia).
  assert (Q : ((den - twice) / (2 * den) <= 0)%Z).
  { assert (((den - twice) / (2 * den) < 1)%Z); [|lia].
    apply Z.div_lt_upper_bound; unfold twice; lia. }
  destruct (- ((den - twice) / (2 * den)) =? 0)%Z eqn:Z0; [reflexivity|].
  apply Z.eqb_neq in Z0.
  destruct (- ((den - twice) / (2 * den)))%Z as [|q|q] eqn:V; [lia| |lia].
  rewrite opp_spec. assert (S := of_Z_sign q).
  destruct (Prim2SF (of_Z (Zpos q))) as [s|s| |s m' e']; simpl in S |- *; subst;
    try contradiction; reflexivity.
Qed.

Lemma compare_refl (x : spec_float) : x <> S754_nan -> SFcompare x x = Some Eq.
Proof.
  destruct x as [s|s| |s m e]; intros H; try reflexivity; try contradiction.
  - now destruct s.
  - simpl. rewrite Z.compare_refl, Pos.compare_cont_refl. now destruct s.
Qed.

(** [Math.max(0, y)] is 0 for a number that carries the minus sign. *)
Lemma max_zero_of_negative (y : float) :
  has_sign true (Prim2SF y) -> Math_max zero y = zero.
Proof.
  intros H. unfold Math_max.
  assert (N : is_nan y = false).
  { unfold is_nan. rewrite eqb_spec. unfold SFeqb. rewrite compare_refl; [reflexivity|].
    intros E. now rewrite E in H. }
  rewrite N. change (is_nan zero) with false. cbn [orb].
  assert (L : (zero <? y)%float = false).
  { rewrite ltb_spec. change (Prim2SF zero) with (S754_zero false).
    destruct (Prim2SF y) as [s|s| |s m e]; simpl in H; subst; try contradiction;
      reflexivity. }
  rewrite L. destruct (y <? zero)%float; [reflexivity|].
  change (is_zero zero && get_sign zero) with false. reflexivity.
Qed.

Lemma digits2_size (m : positive) : digits2_pos m = Pos.size m.
Proof. induction m as [m IH|m IH|]; simpl; now rewrite ?IH. Qed.

Lemma digits_bounds (m : positive) :
  (2 ^ (Zpos (digits2_pos m) - 1) <= Zpos m < 2 ^ Zpos (digits2_pos m))%Z.
Proof.
  rewrite digits2_size. split.
  - assert (H := Pos.size_le m).
    assert (E : (2 ^ Zpos (Pos.size m) = 2 * 2 ^ (Zpos (Pos.size m) - 1))%Z).
    { rewrite <- Z.pow_succ_r by lia. f_equal. lia. }
    assert (G : (2 ^ Zpos (Pos.size m) <= 2 * Zpos m)%Z).
    { change (2 * Zpos m)%Z with (Zpos (m~0)). rewrite <- Pos2Z.inj_pow.
      now apply Pos2Z.pos_le_pos. }
    lia.
  - rewrite <- Pos2Z.inj_pow. apply Pos2Z.pos_lt_pos. apply Pos.size_gt.
Qed.

Lemma iter_xO (d : positive) (m : positive) :
  Zpos (Pos.iter xO m d) = (Zpos m * 2 ^ Zpos d)%Z.
Proof.
  induction d as [|d IH] using Pos.peano_ind.
  - simpl. lia.
  - rewrite Pos.iter_succ, Pos2Z.inj_succ, Z.pow_succ_r by lia.
    change (Zpos (Pos.iter xO m d)~0) with (2 * Zpos (Pos.iter xO m d))%Z. lia.
Qed.

Lemma aligned (m : positive) (e ez : Z) :
  (ez <= e)%Z ->
  Zpos (fst (shl_align m e ez)) = (Zpos m * 2 ^ (e - ez))%Z.
Proof.
  intros H. unfold shl_align.
  destruct (ez - e)%Z as [|d|d] eqn:D; try lia.
  - replace (e - ez)%Z with 0%Z by lia. simpl. lia.
  - replace (e - ez)%Z with (Zpos d) by lia. cbn [fst]. apply iter_xO.
Qed.

(** What validity says of a finite number. *)
Lemma valid_finite (x : float) (s : bool) (m : positive) (e : Z) :
  Prim2SF x = S754_finite s m e ->
  (-1074 <= e)%Z /\ (Zpos (digits2_pos m) <= 53)%Z
  /\ ((-1074 < e)%Z -> Zpos (digits2_pos m) = 53%Z).
Proof.
  intros E. assert (V := Prim2SF_valid x). rewrite E in V. simpl in V.
  unfold bounded, canonical_mantissa, fexp, SpecFloat.emin in V.
  apply andb_true_iff in V. destruct V as [V _]. apply Z.eqb_eq in V.
  change prec with 53%Z in V. change emax with 1024%Z in V. lia.
Qed.

(** The difference of a positive finite number and a larger one carries the
    minus sign. *)
Lemma sub_sign (g c : float) :
  (zero <? g)%float = true -> (g <? c)%float = true ->
  has_sign true (Prim2SF (g - c))
  /\ exists m e, Prim2SF g = S754_finite false m e.
Proof.
  rewrite !ltb_spec, sub_spec. change (Prim2SF zero) with (S754_zero false).
  unfold SFltb, SF64sub, SFsub. intros G L.
  destruct (Prim2SF g) as [sg|sg| |sg mg eg] eqn:Eg; try discriminate G;
    destruct sg; try discriminate G.
  - destruct (Prim2SF c) as [sc|sc| |sc mc ec]; try discriminate L;
      destruct sc; discriminate L.
  - split; [|now eexists _, _].
    destruct (Prim2SF c) as [sc|sc| |sc mc ec] eqn:Ec; try discriminate L;
      destruct sc; try discriminate L; try reflexivity.
    destruct (valid_finite _ Eg) as (G1 & G2 & G3).
    destruct (valid_finite _ Ec) as (C1 & C2 & C3).
    assert (Bg := digits_bounds mg). assert (Bc := digits_bounds mc).
    cbn [cond_Zopp].
    assert (N : (Zpos (fst (shl_align mg eg (Z.min eg ec)))
                 - Zpos (fst (shl_align mc ec (Z.min eg ec))) < 0)%Z).
    { rewrite !aligned by lia. simpl in L.
      destruct (Z.compare_spec eg ec) as [E|E|E]; try discriminate L.
      - subst ec. rewrite Z.min_id, Z.sub_diag, Z.pow_0_r.
        change (Pos.compare_cont Eq mg mc) with (Pos.compare mg mc) in L.
        destruct (Pos.compare_spec mg mc); try discriminate L. lia.
      - rewrite Z.min_l by lia. rewrite Z.sub_diag, Z.pow_0_r.
        assert (C4 : (-1074 < ec)%Z) by lia. rewrite (C3 C4) in Bc.
        assert (P : (2 ^ 1 <= 2 ^ (ec - eg))%Z) by (apply Z.pow_le_mono_r; lia).
        assert (T : (2 ^ 53 = 2 * 2 ^ (53 - 1))%Z) by reflexivity.
        assert (U : (2 ^ Zpos (digits2_pos mg) <= 2 ^ 53)%Z)
          by (apply Z.pow_le_mono_r; lia).
        nia. }
    revert N. generalize (Zpos (fst (shl_align mg eg (Z.min eg ec)))
                          - Zpos (fst (shl_align mc ec (Z.min eg ec))))%Z.
    intros [|d|d] N; [lia|lia|].
    cbn [binary_normalize]. apply binary_round_sign.
Qed.

Lemma shr_1_half (mrs : shr_record) :
  (0 <= shr_m mrs)%Z -> shr_m (shr_1 mrs) = (shr_m mrs / 2)%Z.
Proof.
  destruct mrs as [m r s]. simpl. intros H.
  destruct m as [|[p|p|]|p]; try lia; simpl.
  - reflexivity.
  - change (Zpos p~1) with (2 * Zpos p + 1)%Z.
    apply Z.div_unique with (r := 1%Z); lia.
  - change (Zpos p~0) with (2 * Zpos p)%Z.
    apply Z.div_unique with (r := 0%Z); lia.
  - reflexivity.
Qed.

Lemma iter_shr_1_div (p : positive) :
  forall mrs, (0 <= shr_m mrs)%Z ->
              shr_m (iter_pos shr_1 p mrs) = (shr_m mrs / 2 ^ Zpos p)%Z.
Proof.
  induction p as [p IH|p IH|]; intros mrs H; simpl iter_pos.
  - rewrite IH by (apply iter_shr_1_nonneg; now apply shr_1_nonneg).
    rewrite IH by now apply shr_1_nonneg.
    rewrite shr_1_half by exact H.
    rewrite !Z.div_div by lia. f_equal.
    replace (Zpos p~1) with (1 + Zpos p + Zpos p)%Z by lia.
    rewrite !Z.pow_add_r by lia. lia.
  - rewrite IH by now apply iter_shr_1_nonneg. rewrite IH by exact H.
    rewrite Z.div_div by lia. f_equal.
    replace (Zpos p~0) with (Zpos p + Zpos p)%Z by lia.
    rewrite Z.pow_add_r by lia. lia.
  - rewrite shr_1_half by exact H. reflexivity.
Qed.

(** Above the least exponent the shift of [shr_fexp] leaves a mantissa that
    is not zero. *)
Lemma shr_fexp_positive (m : positive) (e : Z) (l : location) :
  (-1074 <= e)%Z ->
  (0 < shr_m (fst (shr_fexp prec emax (Zpos m) e l)))%Z
  /\ (-1074 <= snd (shr_fexp prec emax (Zpos m) e l))%Z.
Proof.
  intros H. unfold shr_fexp, shr, fexp, SpecFloat.emin.
  change prec with 53%Z. change emax with 1024%Z. cbn [Zdigits2].
  assert (R : shr_m (shr_record_of_loc (Zpos m) l) = Zpos m)
    by (destruct l as [|[]]; reflexivity).
  assert (B := digits_bounds m).
  destruct (Z.max (Zpos (digits2_pos m) + e - 53) (3 - 1024 - 53) - e)%Z
    as [|n|n] eqn:N; cbn [fst snd]; try (rewrite R; lia).
  rewrite iter_shr_1_div by (rewrite R; lia). rewrite R. split; [|lia].
  apply Z.div_str_pos. split; [lia|].
  assert (P : (2 ^ Zpos n <= 2 ^ (Zpos (digits2_pos m) - 1))%Z)
    by (apply Z.pow_le_mono_r; lia).
  lia.
Qed.

Lemma binary_round_aux_nonzero (sx : bool) (mx : positive) (ex : Z) (lx : location) :
  (-1074 <= ex)%Z ->
  match binary_round_aux prec emax sx (Zpos mx) ex lx with
  | S754_finite s _ _ | S754_infinity s => s = sx
  | _ => False
  end.
Proof.
  intros H. unfold binary_round_aux.
  destruct (shr_fexp_positive mx lx H) as [A A'].
  destruct (shr_fexp prec emax (Zpos mx) ex lx) as [mrs' e']. cbn [fst snd] in A, A'.
  assert (B : (0 < round_nearest_even (shr_m mrs') (loc_of_shr_record mrs'))%Z).
  { unfold round_nearest_even. destruct (loc_of_shr_record mrs') as [|[]]; try lia.
    destruct (Z.even (shr_m mrs')); lia. }
  destruct (round_nearest_even (shr_m mrs') (loc_of_shr_record mrs')) as [|m2|m2];
    try lia.
  destruct (shr_fexp_positive m2 loc_Exact A') as [C _].
  destruct (shr_fexp prec emax (Zpos m2) e' loc_Exact) as [mrs'' e'']. cbn [fst] in C.
  destruct (shr_m mrs'') as [|m|m]; try lia.
  destruct (e'' <=? emax - prec)%Z; reflexivity.
Qed.

Lemma binary_round_nonzero (sx : bool) (mx : positive) (ex : Z) :
  (-1074 <= ex)%Z ->
  match binary_round prec emax sx mx ex with
  | S754_finite s _ _ | S754_infinity s => s = sx
  | _ => False
  end.
Proof.
  intros H. unfold binary_round, shl_align.
  set (F := fexp prec emax (Zpos (digits2_pos mx) + ex)).
  assert (HF : (-1074 <= F)%Z).
  { unfold F, fexp, SpecFloat.emin. change prec with 53%Z. change emax with 1024%Z. lia. }
  destruct (F - ex)%Z; now apply binary_round_aux_nonzero.
Qed.

(** Consumption above a positive goal leaves a remainder below zero. *)
Lemma sub_negative (g c : float) :
  (zero <? g)%float = true -> (g <? c)%float = true ->
  (g - c <? zero)%float = true.
Proof.
  intros G L. destruct (sub_sign G L) as [S1 _]. revert S1 G L.
  rewrite !ltb_spec, sub_spec. change (Prim2SF zero) with (S754_zero false).
  unfold SFltb, SF64sub, SFsub. 
  destruct (Prim2SF g) as [sg|sg| |sg mg eg] eqn:Eg; intros S1 G L; try discriminate G;
    destruct sg; try discriminate G.
  - destruct (Prim2SF c) as [sc|sc| |sc mc ec]; try discriminate L;
      destruct sc; discriminate L.
  - revert S1 L.
    destruct (Prim2SF c) as [sc|sc| |sc mc ec] eqn:Ec; intros S1 L; try discriminate L;
      destruct sc; try discriminate L; try reflexivity.
    destruct (valid_finite _ Eg) as (G1 & _). destruct (valid_finite _ Ec) as (C1 & _).
    revert S1. cbn [cond_Zopp].
    generalize (Zpos (fst (shl_align mg eg (Z.min eg ec)))
                - Zpos (fst (shl_align mc ec (Z.min eg ec))))%Z.
    intros [|d|d]; cbn [binary_normalize].
    + intros S1. discriminate S1.
    + intros S1. assert (N := @binary_round_nonzero false d (Z.min eg ec) ltac:(lia)).
      destruct (binary_round prec emax false d (Z.min eg ec)); simpl in S1, N; subst;
        try contradiction; discriminate.
    + intros _. assert (N := @binary_round_nonzero true d (Z.min eg ec) ltac:(lia)).
      destruct (binary_round prec emax true d (Z.min eg ec)); simpl in N; subst;
        try contradiction; reflexivity.
Qed.

(** Consumption above a positive goal: the remainder is below zero and the
    percentage of it is 0. *)
Lemma record_beyond_goal (goal consumedValue : number) :
  gt goal zero = true -> gt consumedValue goal = true ->
  (NC.remaining (NC.progress_record goal consumedValue) <? zero)%float = true
  /\ NC.percentRemaining (NC.progress_record goal consumedValue) = zero.
Proof.
  unfold gt. intros G L. unfold NC.progress_record. cbn [NC.remaining NC.percentRemaining].
  unfold gt. rewrite G. split; [now apply sub_negative|].
  destruct (sub_sign G L) as (S & m & e & E).
  apply max_zero_of_negative, round_sign.
  eapply mul_sign; [|vm_compute; reflexivity].
  eapply div_sign; [exact S | exact E].
Qed.

(** X7: whatever the goals and the consumption, no reported
    [percentRemaining] is below zero; and for every nutrient with a goal
    above zero and a consumption above that goal, the reported [remaining]
    is below zero and the reported [percentRemaining] is 0. *)
Theorem percent_remaining_not_negative
        (consumed : NC.NutrientData) (goals : NC.NutrientGoals) :
  Forall (fun p => (NC.percentRemaining p <? zero)%float = false)
         (values (NC.calculateGoalProgress consumed goals))
  /\ (forall k goal,
         In k NC.nutrientKeys ->
         get k goals = Some goal ->
         gt goal zero = true ->
         gt (NC.or_zero (get k consumed)) goal = true ->
         exists p,
           get k (NC.calculateGoalProgress consumed goals) = Some p
           /\ (NC.remaining p <? zero)%float = true
           /\ NC.percentRemaining p = zero).
Proof.
  split.
  - unfold NC.calculateGoalProgress. apply fold_left_invariant; [|constructor].
    intros progress k H. destruct (get k goals) as [goal|]; [|exact H].
    apply values_set; [|exact H]. unfold NC.progress_record. simpl.
    destruct (gt goal zero); [apply max_zero_not_negative | reflexivity].
  - intros k goal Hk Hg G L.
    exists (NC.progress_record goal (NC.or_zero (get k consumed))).
    split; [|now apply record_beyond_goal].
    unfold NC.calculateGoalProgress. rewrite progress_fold, Hg.
    replace (existsb (key_eqb k) NC.nutrientKeys) with true; [reflexivity|].
    symmetry. apply existsb_exists. exists k. split; [exact Hk|apply key_eqb_refl].
Qed.

(** X8: in a result of the aggregator the totals compose key by key: the
    combined total under a key is the linked total (0 where there is none)
    plus the inline total times 1, or the linked total alone where no inline
    entry has the key; the clamped total is the larger of 0 and the combined
    one and is never below zero; the inline totals have no serving size; and
    the goal progress is present exactly when goals were supplied, computed
    from the clamped totals. *)
Theorem totals_compose
        (getUnitMultiplier : number -> str -> option number -> number)
        (params : NC.NutritionCalculationParams) :
  match fst (NC.calculateNutritionTotals getUnitMultiplier params) with
  | None => True
  | Some r =>
      (forall k,
          get k (NC.combinedTotals r)
          = match get k (NC.inlineTotals r) with
            | Some v => Some (NC.or_zero (get k (NC.linkedTotals r)) + v * one)%float
            | None => get k (NC.linkedTotals r)
            end)
      /\ (forall k, get k (NC.clampedTotals r)
                    = option_map (Math_max zero) (get k (NC.combinedTotals r)))
      /\ Forall (fun v => (v <? zero)%float = false) (values (NC.clampedTotals r))
      /\ get serving_size (NC.inlineTotals r) = None
      /\ match NC.goalProgress r, NC.goals params with
         | Some progress, Some goals =>
             progress = NC.calculateGoalProgress (NC.clampedTotals r) goals
         | None, None => True
         | _, _ => False
         end
  end.
Proof.
  unfold NC.calculateNutritionTotals.
  destruct (_ && _); [exact I|].
  destruct (NC.calculateTotals getUnitMultiplier _ _) as [linked log].
  cbn [fst NC.combinedTotals NC.inlineTotals NC.linkedTotals NC.clampedTotals
       NC.goalProgress Nat.ltb Nat.leb length].
  set (lines := NC.extractLinesUnderHeading (NC.content params) (lit "Food Log")).
  assert (W := inline_totals_well_keyed lines).
  split; [|split; [|split; [|split]]].
  - intros k. unfold NC.combineNutrients. apply addNutrients_get, W.
  - intros k. apply clamp_get.
  - apply clamp_values.
  - apply no_serving_size, W.
  - now destruct (NC.goals params).
Qed.

(** ** The file name of a reference *)

Lemma split_char_nonempty (sep : ascii) (s : str) : split_char sep s <> [].
Proof.
  induction s as [|c s IH]; simpl; [discriminate|].
  destruct (Ascii.eqb c sep); [discriminate|].
  destruct (split_char sep s); [contradiction|discriminate].
Qed.

Lemma split_char_pieces (sep : ascii) (s : str) :
  Forall (fun piece => ~ In sep piece /\ incl piece s) (split_char sep s).
Proof.
  induction s as [|c s IH]; simpl.
  - constructor; [|constructor]. split; [intros []|apply incl_refl].
  - assert (Hs : Forall (fun piece => ~ In sep piece /\ incl piece (c :: s))
                        (split_char sep s)).
    { eapply Forall_impl; [|exact IH]. intros p [A B]. split; [exact A|].
      now apply incl_tl. }
    destruct (Ascii.eqb_spec c sep) as [->|Hc].
    + constructor; [|exact Hs]. split; [intros []|intros x []].
    + destruct (split_char sep s) as [|l ls].
      * constructor; [|constructor]. split.
        -- intros [H|[]]. now apply Hc.
        -- intros x [<-|[]]. now left.
      * inversion Hs as [|? ? [A B] Hls]; subst. constructor; [|exact Hls]. split.
        -- intros [H|H]; [now apply Hc | now apply A].
        -- intros x [<-|H]; [now left | now apply B].
Qed.

Lemma split_char_plain (sep : ascii) (s : str) :
  ~ In sep s -> split_char sep s = [s].
Proof.
  induction s as [|c s IH]; intros H; simpl; [reflexivity|].
  destruct (Ascii.eqb_spec c sep) as [->|Hc]; [exfalso; apply H; now left|].
  rewrite IH; [reflexivity|]. intros Hin. apply H. now right.
Qed.

Lemma hd_in (A : Type) (d : A) (l : list A) : l <> [] -> In (hd d l) l.
Proof. destruct l; [contradiction|intros _; now left]. Qed.

Lemma last_in (A : Type) (d : A) (l : list A) : l <> [] -> In (last l d) l.
Proof.
  induction l as [|x l IH]; [contradiction|]. intros _.
  destruct l as [|y l]; [now left|]. right. apply IH. discriminate.
Qed.

Lemma trimStart_incl (s : str) : incl (trimStart s) s.
Proof.
  induction s as [|c s IH]; simpl; [apply incl_refl|].
  destruct (is_space c); [now apply incl_tl | apply incl_refl].
Qed.

Lemma trim_incl (s : str) : incl (trim s) s.
Proof.
  unfold trim. intros x Hx. apply in_rev in Hx.
  apply trimStart_incl in Hx. apply in_rev in Hx. now apply trimStart_incl in Hx.
Qed.

Lemma trimStart_head (s : str) (c : ascii) :
  hd_error (trimStart s) = Some c -> is_space c = false.
Proof.
  induction s as [|x s IH]; simpl; [discriminate|].
  destruct (is_space x) eqn:E; [exact IH|]. simpl. intros H. injection H as <-. exact E.
Qed.

Lemma trimStart_fixed (s : str) :
  (forall c, hd_error s = Some c -> is_space c = false) -> trimStart s = s.
Proof.
  destruct s as [|x s]; [reflexivity|]. intros H. simpl.
  now rewrite (H x eq_refl).
Qed.

Lemma trimStart_last (s : str) (c : ascii) :
  hd_error (rev (trimStart s)) = Some c -> hd_error (rev s) = Some c.
Proof.
  induction s as [|x s IH]; simpl; [trivial|].
  destruct (is_space x); [|trivial]. intros H. apply IH in H.
  destruct (rev s); [discriminate|exact H].
Qed.

Lemma trim_ends (s : str) (c : ascii) :
  (hd_error (trim s) = Some c -> is_space c = false)
  /\ (hd_error (rev (trim s)) = Some c -> is_space c = false).
Proof.
  unfold trim. split.
  - intros H. apply trimStart_last in H. rewrite rev_involutive in H.
    now apply trimStart_head in H.
  - rewrite rev_involutive. apply trimStart_head.
Qed.

(** X9: the file name the annotations are looked up under holds none of
    the characters that separate an alias, an anchor or a folder from the
    base name, holds only characters of the reference, and neither starts nor
    ends with white space. *)
Theorem normalized_name_is_a_base_name (rawFileName : str) :
  let name := FHC.normalizeFileName rawFileName in
  Forall (fun c => In c rawFileName
                   /\ c <> "|"%char /\ c <> "#"%char /\ c <> "/"%char) name
  /\ (forall c, hd_error name = Some c -> is_space c = false)
  /\ (forall c, hd_error (rev name) = Some c -> is_space c = false).
Proof.
  intros name. unfold name, FHC.normalizeFileName.
  set (a := hd [] (split_char "|" rawFileName)).
  set (b := hd [] (split_char "#" a)).
  set (c := last (split_char "/" b) []).
  assert (Ha : ~ In "|"%char a /\ incl a rawFileName).
  { apply (proj1 (Forall_forall _ _) (split_char_pieces "|" rawFileName)).
    apply hd_in, split_char_nonempty. }
  assert (Hb : ~ In "#"%char b /\ incl b a).
  { apply (proj1 (Forall_forall _ _) (split_char_pieces "#" a)).
    apply hd_in, split_char_nonempty. }
  assert (Hc : ~ In "/"%char c /\ incl c b).
  { apply (proj1 (Forall_forall _ _) (split_char_pieces "/" b)).
    apply last_in, split_char_nonempty. }
  split; [|split].
  - apply Forall_forall. intros x Hx. apply trim_incl in Hx.
    assert (Xb := proj2 Hc x Hx). assert (Xa := proj2 Hb x Xb).
    split; [now apply (proj2 Ha)|].
    repeat split; intros ->; [now apply (proj1 Ha) | now apply (proj1 Hb) | now apply (proj1 Hc)].
  - intros x. apply trim_ends.
  - intros x. apply trim_ends.
Qed.

(** X10: a reference without alias, anchor and folder is looked up under
    its own text, trimmed. *)
Theorem plain_name_is_kept (rawFileName : str) :
  Forall (fun c => c <> "|"%char /\ c <> "#"%char /\ c <> "/"%char) rawFileName ->
  FHC.normalizeFileName rawFileName = trim rawFileName.
Proof.
  intros H. unfold FHC.normalizeFileName.
  assert (N : forall sep, (sep = "|" \/ sep = "#" \/ sep = "/")%char -> ~ In sep rawFileName).
  { intros sep Hsep Hin. apply (proj1 (Forall_forall _ _) H) in Hin.
    destruct Hin as (A & B & C). destruct Hsep as [ -> | [ -> | -> ] ]; congruence. }
  rewrite (@split_char_plain "|"%char rawFileName) by (apply N; tauto). cbn [hd].
  rewrite (@split_char_plain "#"%char rawFileName) by (apply N; tauto). cbn [hd].
  rewrite (@split_char_plain "/"%char rawFileName) by (apply N; tauto). reflexivity.
Qed.

Lemma plain_name_is_kept_witness :
  FHC.normalizeFileName (lit " Chicken Breast ") = lit "Chicken Breast".
Proof.
  apply (@plain_name_is_kept (lit " Chicken Breast ")).
  repeat constructor; discriminate.
Defined.

(** ** The layout of the nutrition ranges *)

Lemma follows_length (st st' : mstate) :
  follows st st' ->
  length (ahead st') <= length (ahead st)
  /\ index_of st' + length (ahead st') = index_of st + length (ahead st).
Proof.
  intros (x & E1 & E2). unfold index_of. rewrite E1, E2, !length_app, length_rev. lia.
Qed.

Lemma run_progress (r : regex) :
  progresses r = true ->
  forall st st', In st' (run r st) -> length (ahead st') < length (ahead st).
Proof.
  induction r as [|p|a IHa b IHb|a IHa b IHb|greedy a IHa|n a IHa|a IHa|m|m];
    cbn [progresses]; intros P st st' Hin; try discriminate P; cbn [run] in Hin.
  - destruct (ahead st) as [|c s'] eqn:E; [contradiction|].
    destruct (p c); [|contradiction]. destruct Hin as [<-|[]]. simpl. lia.
  - apply in_flat_map in Hin. destruct Hin as (mid & Hmid & Hin).
    assert (F1 := follows_length (run_follows _ _ _ Hmid)).
    assert (F2 := follows_length (run_follows _ _ _ Hin)).
    apply orb_true_iff in P. destruct P as [P|P].
    + specialize (IHa P _ _ Hmid). lia.
    + specialize (IHb P _ _ Hin). lia.
  - apply andb_true_iff in P. destruct P as [Pa Pb].
    apply in_app_or in Hin. destruct Hin as [Hin|Hin]; [now apply IHa | now apply IHb].
  - apply in_map_iff in Hin. destruct Hin as (mid & <- & Hmid). simpl.
    now apply IHa.
Qed.

Lemma match_here_progress (r : regex) (before after : str) (m : rmatch) :
  progresses r = true ->
  match_here r before after = Some m -> index m < last_index m.
Proof.
  intros P. unfold match_here.
  destruct (run r (MState before after [])) as [|st l] eqn:E; [discriminate|].
  intros H. injection H as <-. unfold last_index. simpl.
  assert (Hin : In st (run r (MState before after []))) by (rewrite E; now left).
  assert (L := run_progress r P _ _ Hin).
  assert (F := follows_length (run_follows _ _ _ Hin)). simpl in L, F.
  unfold index_of in *. simpl in F. rewrite length_firstn. lia.
Qed.

Lemma search_progress (r : regex) :
  progresses r = true ->
  forall (after before : str) (m : rmatch),
    search r before after = Some m -> index m < last_index m.
Proof.
  intros P. induction after as [|c after IH]; intros before m; simpl.
  - destruct (match_here r before []) eqn:E; [|discriminate].
    intros H. injection H as ->. eapply match_here_progress; eassumption.
  - destruct (match_here r before (c :: after)) eqn:E.
    + intros H. injection H as ->. eapply match_here_progress; eassumption.
    + apply IH.
Qed.

Lemma exec_from_progress (r : regex) (s : str) (i : nat) (m : rmatch) :
  progresses r = true -> exec_from r s i = Some m -> index m < last_index m.
Proof.
  intros P. unfold exec_from. destruct (length s <? i); [discriminate|].
  now apply search_progress.
Qed.

Lemma exec_all_from_laid_out (r : regex) (s : str) :
  progresses r = true ->
  forall fuel i, i <= length s ->
                 matches_laid_out i (exec_all_from fuel r s i) (length s).
Proof.
  intros P. induction fuel as [|fuel IH]; intros i Hi; simpl; [exact Hi|].
  destruct (exec_from r s i) as [m|] eqn:E; [|exact Hi].
  assert (B := exec_from_bounds _ _ _ E).
  assert (G := exec_from_progress _ _ _ P E).
  destruct (Nat.leb_spec (last_index m) i); [lia|].
  simpl. split; [lia|]. split; [exact G|]. apply IH. lia.
Qed.

Lemma laid_out_le (lo hi : Z) (rs : list FHC.HighlightRange) :
  laid_out lo rs hi -> (lo <= hi)%Z.
Proof.
  revert lo. induction rs as [|r rs IH]; intros lo; simpl; [trivial|].
  intros (A & B & C). apply IH in C. lia.
Qed.

Lemma laid_out_widen (lo lo' hi hi' : Z) (rs : list FHC.HighlightRange) :
  (lo' <= lo)%Z -> (hi <= hi')%Z -> laid_out lo rs hi -> laid_out lo' rs hi'.
Proof.
  revert lo lo'. induction rs as [|r rs IH]; intros lo lo' Hlo Hhi; simpl.
  - lia.
  - intros (A & B & C). split; [lia|]. split; [exact B|].
    eapply IH; [| exact Hhi | exact C]. lia.
Qed.

Lemma laid_out_app (lo mid hi : Z) (a b : list FHC.HighlightRange) :
  laid_out lo a mid -> laid_out mid b hi -> laid_out lo (a ++ b) hi.
Proof.
  revert lo. induction a as [|r a IH]; intros lo; simpl.
  - intros H1 H2. eapply laid_out_widen; [exact H1 | | exact H2]. lia.
  - intros (A & B & C) H2. split; [exact A|]. split; [exact B|]. now apply IH.
Qed.

Lemma nutrition_ranges_of_matches (lineStart : Z) (ms : list rmatch) (hi : nat) :
  forall lo, matches_laid_out lo ms hi ->
             laid_out (lineStart + Z.of_nat lo)
                      (map (FHC.nutrition_range lineStart) ms)
                      (lineStart + Z.of_nat hi).
Proof.
  induction ms as [|m ms IH]; intros lo; simpl.
  - lia.
  - intros (A & B & C). unfold last_index in *. unfold FHC.len.
    split; [lia|]. split; [lia|].
    replace (lineStart + Z.of_nat (index m) + Z.of_nat (length (whole m)))%Z
      with (lineStart + Z.of_nat (index m + length (whole m)))%Z by lia.
    now apply IH.
Qed.

Lemma filter_nutrition_line (text : str) (lineStart : Z) :
  filter is_nutrition (FHC.extractFoodHighlightRanges text lineStart)
  = map (FHC.nutrition_range lineStart) (exec_all nutrientRegex text).
Proof.
  unfold FHC.extractFoodHighlightRanges. rewrite filter_app.
  assert (A : forall ms, filter is_nutrition (map (FHC.amount_range lineStart) ms) = []).
  { induction ms as [|m ms IH]; [reflexivity|exact IH]. }
  assert (B : forall ms, filter is_nutrition (map (FHC.nutrition_range lineStart) ms)
                         = map (FHC.nutrition_range lineStart) ms).
  { induction ms as [|m ms IH]; [reflexivity|]. simpl. now rewrite IH. }
  now rewrite A, B.
Qed.

(** The section lines with their offsets follow one another in the text,
    each a full line apart. *)
Lemma section_loop_laid_out (heading : str) (startOffset : Z) (lines : list str) :
  forall (inSection : bool) (offset : Z),
    laid_out (startOffset + offset)
      (filter is_nutrition
         (flat_map
            (fun lo => FHC.extractFoodHighlightRanges (fst lo) (startOffset + snd lo)%Z)
            (FHC.section_loop heading lines inSection offset)))
      (startOffset + offset + FHC.len (unsplit lines)).
Proof.
  induction lines as [|l rest IH]; intros inSection offset.
  - simpl. unfold FHC.len. simpl. lia.
  - cbn [FHC.section_loop].
    assert (U : (FHC.len l <= FHC.len (unsplit (l :: rest)))%Z
                /\ (rest <> [] ->
                    FHC.len (unsplit (l :: rest)) = FHC.len l + 1 + FHC.len (unsplit rest))%Z).
    { destruct rest as [|l' rest']; unfold FHC.len.
      - simpl. split; [lia|]. intros H. now contradiction H.
      - change (unsplit (l :: l' :: rest')) with (l ++ newline ++ unsplit (l' :: rest')).
        rewrite !length_app. simpl. split; [lia|]. intros _. lia. }
    assert (Hline : laid_out (startOffset + offset)
                      (filter is_nutrition
                         (FHC.extractFoodHighlightRanges l (startOffset + offset)))
                      (startOffset + offset + FHC.len l)).
    { rewrite filter_nutrition_line.
      replace (startOffset + offset)%Z with (startOffset + offset + Z.of_nat 0)%Z at 1 by lia.
      apply nutrition_ranges_of_matches. unfold exec_all.
      apply exec_all_from_laid_out; [reflexivity|lia]. }
    assert (Hrest : forall b,
               laid_out (startOffset + offset + FHC.len l)
                 (filter is_nutrition
                    (flat_map
                       (fun lo => FHC.extractFoodHighlightRanges (fst lo) (startOffset + snd lo)%Z)
                       (FHC.section_loop heading rest b (offset + (FHC.len l + 1)))))
                 (startOffset + offset + FHC.len (unsplit (l :: rest)))).
    { intros b. destruct rest as [|l' rest'].
      - simpl. lia.
      - eapply laid_out_widen; [| | apply IH].
        + lia.
        + rewrite (proj2 U) by discriminate. lia. }
    assert (Hskip : forall b,
               laid_out (startOffset + offset)
                 (filter is_nutrition
                    (flat_map
                       (fun lo => FHC.extractFoodHighlightRanges (fst lo) (startOffset + snd lo)%Z)
                       (FHC.section_loop heading rest b (offset + (FHC.len l + 1)))))
                 (startOffset + offset + FHC.len (unsplit (l :: rest)))).
    { intros b. eapply laid_out_widen; [| | apply Hrest]; [unfold FHC.len; lia | lia]. }
    assert (Hpush : forall b,
               laid_out (startOffset + offset)
                 (filter is_nutrition
                    (flat_map
                       (fun lo => FHC.extractFoodHighlightRanges (fst lo) (startOffset + snd lo)%Z)
                       ((if inSection then [(l, offset)] else [])
                          ++ FHC.section_loop heading rest b (offset + (FHC.len l + 1)))))
                 (startOffset + offset + FHC.len (unsplit (l :: rest)))).
    { intros b. destruct inSection; [|apply Hskip].
      cbn [app flat_map fst snd]. rewrite filter_app.
      eapply laid_out_app; [exact Hline | apply Hrest]. }
    destruct (headingMatch l) as [h|].
    + destruct (opens_section heading h); [apply Hskip|].
      destruct (inSection && (fst h <=? 2)); [|apply Hpush].
      simpl. destruct U as [U _]. unfold FHC.len in *. lia.
    + apply Hpush.
Qed.

(** X11: the nutrition ranges of a text, in the order in which they are
    returned, follow one another: each one is not empty, starts at the text's
    start offset or later and where the previous one ended or later, and the
    last one ends within the text.  (The amount ranges are not so: they end
    one position late and may overlap a nutrition range.) *)
Theorem nutrition_ranges_laid_out (text : str) (startOffset : Z) :
  laid_out startOffset
           (filter is_nutrition (FHC.extractMultilineHighlightRanges text startOffset))
           (startOffset + FHC.len text).
Proof.
  unfold FHC.extractMultilineHighlightRanges, FHC.extractLinesUnderHeading.
  assert (H := section_loop_laid_out (lit "Food Log") startOffset (split_newline text) false 0).
  rewrite unsplit_split in H.
  replace (startOffset + 0)%Z with startOffset in H by lia. exact H.
Qed.

(** ** Where the annotations sit *)

Lemma annotations_loop_items (A : Type)
      (body : A -> FHC.outcome (option FHC.CalorieAnnotation)) (items : list A) :
  forall l, FHC.annotations_loop body items = FHC.Return l ->
            Forall (fun a => exists x, In x items /\ body x = FHC.Return (Some a)) l
            /\ length l <= length items.
Proof.
  induction items as [|x items IH]; intros l; simpl.
  - intros H. injection H as <-. split; [constructor|simpl; lia].
  - destruct (body x) as [a|e] eqn:B; [|discriminate]. simpl.
    destruct (FHC.annotations_loop body items) as [more|e]; [|discriminate]. simpl.
    intros H. injection H as <-. destruct (IH more eq_refl) as [F L].
    assert (F' : Forall (fun a => exists y, In y (x :: items)
                                            /\ body y = FHC.Return (Some a)) more).
    { eapply Forall_impl; [|exact F]. intros a0 (y & Hy & Ey). exists y. split; [now right|exact Ey]. }
    destruct a as [a|]; [|split; [exact F'|simpl; lia]].
    split; [|simpl; lia]. constructor; [|exact F'].
    exists x. split; [now left|exact B].
Qed.

Lemma annotation_for_position
      (getUnitMultiplier : number -> str -> option number -> number)
      (line : str) (lineEnd : Z) (provider : FHC.CalorieProvider)
      (m : rmatch) (a : FHC.CalorieAnnotation) :
  FHC.annotation_for getUnitMultiplier line lineEnd provider m = FHC.Return (Some a) ->
  FHC.position a = lineEnd
  /\ exists calories : number,
       FHC.getCaloriesForFood provider (FHC.normalizeFileName (group 1 m))
       = FHC.Return (Some calories)
       /\ isFinite calories = true
       /\ exists kcal : number,
            FHC.text a = number_to_string kcal ++ lit "kcal"
            /\ isFinite kcal = true /\ (kcal <? 0)%float = false.
Proof.
  unfold FHC.annotation_for.
  destruct (negb (isFinite (parseFloat (group 2 m))) || (parseFloat (group 2 m) <=? 0)%float);
    [discriminate|].
  destruct (FHC.normalizeFileName (group 1 m)) as [|c name] eqn:N; [discriminate|].
  destruct (FHC.getCaloriesForFood provider (c :: name)) as [[calories|]|e] eqn:C;
    simpl; try discriminate.
  destruct (isFinite calories) eqn:Fc; simpl; [|discriminate].
  destruct (FHC.getServingSize provider (c :: name)) as [servingSize|e]; simpl; [|discriminate].
  match goal with
  | |- context [Math_round ?x] => set (calculated := x)
  end.
  destruct (negb (isFinite calculated) || (calculated <? 0)%float); [discriminate|].
  destruct (isFinite (Math_round calculated)) eqn:Fk; simpl; [|discriminate].
  destruct (Math_round calculated <? 0)%float eqn:Nk; [discriminate|].
  intros H. injection H as <-. simpl. split; [reflexivity|].
  exists calories. split; [reflexivity|]. split; [exact Fc|].
  exists (Math_round calculated). split; [reflexivity|]. split; [exact Fk | exact Nk].
Qed.

Lemma annotation_for_total
      (getUnitMultiplier : number -> str -> option number -> number)
      (line : str) (lineEnd : Z) (provider : FHC.CalorieProvider) (m : rmatch) :
  (forall name, exists c, FHC.getCaloriesForFood provider name = FHC.Return c) ->
  (forall name, exists s, FHC.getServingSize provider name = FHC.Return s) ->
  exists r, FHC.annotation_for getUnitMultiplier line lineEnd provider m = FHC.Return r.
Proof.
  intros Hc Hs. unfold FHC.annotation_for.
  destruct (negb (isFinite (parseFloat (group 2 m))) || _); [eauto|].
  destruct (FHC.normalizeFileName (group 1 m)) as [|c name]; [eauto|].
  destruct (Hc (c :: name)) as [cal ->]. simpl.
  destruct cal as [cal|]; [|eauto].
  destruct (negb (isFinite cal)); [eauto|].
  destruct (Hs (c :: name)) as [sz ->]. simpl.
  destruct (negb (isFinite _) || _); [eauto|].
  destruct (negb (isFinite _) || _); eauto.
Qed.

(** X12: when the extraction of the annotations returns, every annotation
    sits at the end of a section line that holds a linked entry, which is a
    position of the text; its text is a finite number that is not negative,
    printed and followed by kcal; and there are at most as many annotations
    as linked matches in the section.  The extraction returns whenever the
    two methods of the provider do: only the provider can make it throw. *)
Theorem hints_sit_at_line_ends
        (getUnitMultiplier : number -> str -> option number -> number)
        (text : str) (startOffset : Z) (provider : FHC.CalorieProvider) :
  match FHC.extractInlineCalorieAnnotations getUnitMultiplier text startOffset provider with
  | FHC.Throw _ => True
  | FHC.Return annotations =>
      Forall
        (fun a =>
           (exists line offset,
               In (line, offset) (FHC.extractLinesUnderHeading text (lit "Food Log"))
               /\ exec linkedRegex line <> None
               /\ FHC.position a = (startOffset + offset + FHC.len line)%Z)
           /\ (startOffset <= FHC.position a <= startOffset + FHC.len text)%Z
           /\ exists kcal : number,
               FHC.text a = number_to_string kcal ++ lit "kcal"
               /\ isFinite kcal = true /\ (kcal <? 0)%float = false)
        annotations
      /\ length annotations
         <= length (flat_map (fun lo => exec_all linkedRegex (fst lo))
                             (FHC.extractLinesUnderHeading text (lit "Food Log")))
  end
  /\ ((forall name, exists c, FHC.getCaloriesForFood provider name = FHC.Return c) ->
      (forall name, exists s, FHC.getServingSize provider name = FHC.Return s) ->
      exists annotations,
        FHC.extractInlineCalorieAnnotations getUnitMultiplier text startOffset provider
        = FHC.Return annotations).
Proof.
  split;
    [|intros Hc Hs; unfold FHC.extractInlineCalorieAnnotations;
      apply annotations_loop_returns; intros [[line offset] m];
      now apply annotation_for_total].
  unfold FHC.extractInlineCalorieAnnotations.
  match goal with
  | |- match FHC.annotations_loop ?b ?i with _ => _ end =>
      set (body := b); set (items := i)
  end.
  destruct (FHC.annotations_loop body items) as [annotations|e] eqn:E; [|exact I].
  apply annotations_loop_items in E. destruct E as [F L]. split.
  - eapply Forall_impl; [|exact F].
    intros a ([[line offset] m] & Hin & Hb). unfold body in Hb.
    apply annotation_for_position in Hb. destruct Hb as (P & calories & _ & _ & K).
    unfold items in Hin. apply in_flat_map in Hin.
    destruct Hin as ([line' offset'] & Hlo & Hm).
    apply in_map_iff in Hm. destruct Hm as (m' & Em & Hm'). injection Em as E1 E2 E3. subst line' offset' m'.
    simpl in Hm'.
    assert (Loc := located_line _ _ _ _ Hlo).
    split; [|split; [|exact K]].
    + exists line, offset. split; [exact Hlo|]. split; [|exact P].
      assert (X := exec_is_first_of_all linkedRegex line).
      destruct (exec linkedRegex line); [discriminate|].
      destruct (exec_all linkedRegex line); [destruct Hm'|discriminate X].
    + rewrite P. unfold FHC.len in *. lia.
  - etransitivity; [exact L|]. unfold items. rewrite !length_flat_map.
    clear. induction (FHC.extractLinesUnderHeading text (lit "Food Log")) as [|lo l IH];
      [reflexivity|]. simpl. rewrite length_map. lia.
Qed.

(** ** The text the walk reads *)

Lemma visit_forest_eq (p : PP.path) (l : list PP.node) :
  forall i,
    (fix visit_children (i : nat) (l : list PP.node) {struct l}
       : list (PP.path * PP.node) :=
       match l with
       | [] => []
       | c :: l' => PP.visit (p ++ [i]) c ++ visit_children (S i) l'
       end) i l
    = PP.visit_forest p i l.
Proof. induction l as [|c l IH]; intros i; simpl; [reflexivity|]. now rewrite IH. Qed.

Lemma visit_unfold (p : PP.path) (n : PP.node) :
  PP.visit p n
  = (p, n) :: match n with
              | PP.Text _ => []
              | PP.Element _ _ _ children =>
                  if PP.skips_children n then [] else PP.visit_forest p 0 children
              end.
Proof.
  destruct n as [data|t c h children]; [reflexivity|].
  cbn [PP.visit]. destruct (PP.skips_children _); [reflexivity|].
  now rewrite visit_forest_eq.
Qed.

Lemma reads_visit (n : PP.node) :
  forall p, flat_map (fun pn => PP.contribution (snd pn)) (PP.visit p n) = reads n.
Proof.
  induction n as [data|t c h children IH] using node_induction; intros p.
  - reflexivity.
  - rewrite visit_unfold. cbn [flat_map snd reads]. f_equal.
    destruct (PP.skips_children _); [reflexivity|].
    generalize 0. induction IH as [|x children Hx _ IHc]; intros i; [reflexivity|].
    cbn [PP.visit_forest flat_map]. rewrite flat_map_app, Hx, IHc. reflexivity.
Qed.

Lemma reads_forest (children : list PP.node) :
  forall p i,
    flat_map (fun pn => PP.contribution (snd pn)) (PP.visit_forest p i children)
    = flat_map reads children.
Proof.
  induction children as [|x children IH]; intros p i; [reflexivity|].
  cbn [PP.visit_forest flat_map]. now rewrite flat_map_app, reads_visit, IH.
Qed.

Lemma reconstruct_reads (children : list PP.node) :
  PP.reconstructMarkdownText children = flat_map reads children.
Proof. apply reads_forest. Qed.

(** unwrap *)

Lemma textContent_unwrap (n : PP.node) : PP.textContent (PP.unwrap n) = PP.textContent n.
Proof.
  induction n as [data|t c h children IH] using node_induction; [reflexivity|].
  cbn [PP.unwrap]. destruct (PP.is_wrapper _); [reflexivity|].
  cbn [PP.textContent]. induction IH as [|x children Hx _ IHc]; [reflexivity|].
  cbn [map flat_map]. now rewrite Hx, IHc.
Qed.

Lemma classify_children (t : str) (c : list str) (h : option str) (cs cs' : list PP.node) :
  flat_map PP.textContent cs = flat_map PP.textContent cs' ->
  PP.classify (PP.Element t c h cs) = PP.classify (PP.Element t c h cs').
Proof.
  intros E. unfold PP.classify, PP.wikilink. cbn [PP.has_class PP.tag_name PP.textContent].
  now rewrite E.
Qed.

Lemma textContent_unwrap_forest (children : list PP.node) :
  flat_map PP.textContent (map PP.unwrap children) = flat_map PP.textContent children.
Proof.
  induction children as [|x children IH]; [reflexivity|].
  cbn [map flat_map]. now rewrite textContent_unwrap, IH.
Qed.

Lemma reads_text_nodes (children : list PP.node) :
  forallb is_text children = true ->
  flat_map reads children = flat_map PP.textContent children.
Proof.
  induction children as [|x children IH]; [reflexivity|]. cbn [forallb flat_map].
  intros H. apply andb_true_iff in H. destruct H as [Hx Hc].
  rewrite IH by exact Hc. destruct x as [data|]; [|discriminate Hx].
  cbn. now rewrite app_nil_r.
Qed.

Lemma reads_unwrap (n : PP.node) :
  wrappers_plain n = true -> reads (PP.unwrap n) = reads n.
Proof.
  induction n as [data|t c h children IH] using node_induction; [reflexivity|].
  cbn [wrappers_plain PP.unwrap]. destruct (PP.is_wrapper _) eqn:W.
  - destruct (PP.classify (PP.Element t c h children)) eqn:K; try discriminate.
    intros Ht. cbn [reads]. unfold PP.contribution, PP.skips_children. rewrite K.
    cbn [app PP.textContent]. rewrite reads_text_nodes by exact Ht.
    now rewrite app_nil_r.
  - intros H. cbn [reads].
    assert (K : PP.classify (PP.Element t c h (map PP.unwrap children))
                = PP.classify (PP.Element t c h children))
      by apply classify_children, textContent_unwrap_forest.
    unfold PP.contribution, PP.skips_children in *. rewrite K. f_equal.
    destruct (match PP.classify (PP.Element t c h children) with
              | PP.PriorAnnotation | PP.LinkedReference _ | PP.Tag _ => true
              | _ => false
              end); [reflexivity|].
    cbn [orb] in H. clear K W.
    induction IH as [|x children Hx _ IHc]; [reflexivity|].
    cbn [forallb] in H. apply andb_true_iff in H. destruct H as [H1 H2].
    cbn [map flat_map]. now rewrite Hx, IHc.
Qed.

(** X13: unwrapping never changes the text content of the container; and
    where every wrapper the walk reaches is as the pass makes them (an element
    that is no hint, reference, tag or line break, holding text nodes only)
    it does not change the text read back either: the positions computed
    before the unwrapping still fit the tree after it. *)
Theorem unwrap_keeps_text (children : list PP.node) :
  flat_map PP.textContent (map PP.unwrap children)
  = flat_map PP.textContent children
  /\ (forallb wrappers_plain children = true ->
      PP.reconstructMarkdownText (map PP.unwrap children)
      = PP.reconstructMarkdownText children).
Proof.
  split; [apply textContent_unwrap_forest|]. intros H.
  rewrite !reconstruct_reads.
  induction children as [|x children IH]; [reflexivity|].
  cbn [forallb] in H. apply andb_true_iff in H. destruct H as [H1 H2].
  cbn [map flat_map]. now rewrite reads_unwrap, IH.
Qed.

Lemma unwrap_keeps_text_witness :
  PP.reconstructMarkdownText (map PP.unwrap [Samples.rendered_paragraph_once])
  = PP.reconstructMarkdownText [Samples.rendered_paragraph_once].
Proof.
  apply (proj2 (unwrap_keeps_text [Samples.rendered_paragraph_once])).
  vm_compute. reflexivity.
Defined.

(** ** Blocks the pass leaves alone *)

Lemma node_at_occurs (p : PP.node -> bool) (q : PP.path) :
  forall (children : list PP.node) (n : PP.node),
    PP.node_at children q = Some n ->
    existsb (Spec.occurs p) children = false ->
    Spec.occurs p n = false.
Proof.
  induction q as [|i q IH]; intros children n; [discriminate|].
  cbn [PP.node_at].
  destruct (nth_error children i) as [x|] eqn:E; [|discriminate].
  intros H Hno.
  assert (Hx : Spec.occurs p x = false).
  { destruct (Spec.occurs p x) eqn:O; [|reflexivity].
    assert (X : existsb (Spec.occurs p) children = true).
    { apply existsb_exists. exists x. split; [eapply nth_error_In, E | exact O]. }
    congruence. }
  destruct q as [|j q].
  - destruct x; injection H as H; subst n; exact Hx.
  - destruct x as [data|t c h cs]; [discriminate|].
    apply (IH cs n H). cbn [Spec.occurs] in Hx.
    apply orb_false_iff in Hx. apply Hx.
Qed.

Section Untouched.

Variable getUnitMultiplier : number -> str -> option number -> number.
Variable settings : option PP.Settings.
Variable source : str -> NC.lookup.

Lemma process_container_skips (container : PP.node) :
  Spec.occurs is_food_log_container container = false ->
  PP.is_container container = true ->
  PP.process_container getUnitMultiplier settings source container = (container, None).
Proof.
  intros Hno Hc. destruct container as [data|t c h children]; [reflexivity|].
  cbn [Spec.occurs] in Hno. apply orb_false_iff in Hno. destruct Hno as [Hno _].
  unfold is_food_log_container in Hno. rewrite Hc in Hno. cbn [andb] in Hno.
  cbn [PP.process_container].
  destruct (PP.reconstructMarkdownText children) as [|ch text]; [reflexivity|].
  now rewrite Hno.
Qed.

Lemma container_paths_from_are_containers (n : PP.node) :
  forall (p q : PP.path),
    In q (PP.container_paths_from p n) ->
    exists rest, q = p ++ rest
                 /\ match rest with
                    | [] => PP.is_container n = true
                    | _ :: _ =>
                        match n with
                        | PP.Text _ => False
                        | PP.Element _ _ _ children =>
                            exists m, PP.node_at children rest = Some m
                                      /\ PP.is_container m = true
                        end
                    end.
Proof.
  induction n as [data|t c h children IH] using node_induction; intros p q Hin.
  - cbn [PP.container_paths_from] in Hin. rewrite app_nil_r in Hin.
    destruct (PP.is_container (PP.Text data)) eqn:C; [|destruct Hin].
    destruct Hin as [<-|[]]. exists []. split; [now rewrite app_nil_r|first [exact C|reflexivity]].
  - cbn [PP.container_paths_from] in Hin. apply in_app_or in Hin.
    destruct Hin as [Hin|Hin].
    + destruct (PP.is_container (PP.Element t c h children)) eqn:C; [|destruct Hin].
      destruct Hin as [<-|[]]. exists []. split; [now rewrite app_nil_r|first [exact C|reflexivity]].
    + assert (G : forall i,
                 In q ((fix each (i : nat) (l : list PP.node) {struct l} : list PP.path :=
                          match l with
                          | [] => []
                          | c0 :: l' => PP.container_paths_from (p ++ [i]) c0 ++ each (S i) l'
                          end) i children) ->
                 exists j rest, q = p ++ (i + j) :: rest
                                /\ exists x, nth_error children j = Some x
                                   /\ match rest with
                                      | [] => PP.is_container x = true
                                      | _ :: _ =>
                                          match x with
                                          | PP.Text _ => False
                                          | PP.Element _ _ _ cs =>
                                              exists m, PP.node_at cs rest = Some m
                                                        /\ PP.is_container m = true
                                          end
                                      end).
      { clear Hin. induction IH as [|x children Hx _ IHc]; intros i Hq; [destruct Hq|].
        apply in_app_or in Hq. destruct Hq as [Hq|Hq].
        - apply Hx in Hq. destruct Hq as (rest & -> & Hrest).
          exists 0, rest. split; [rewrite <- app_assoc, Nat.add_0_r; reflexivity|].
          exists x. split; [reflexivity|exact Hrest].
        - apply IHc in Hq. destruct Hq as (j & rest & -> & y & Hy & Hrest).
          exists (S j), rest. split; [f_equal; f_equal; lia|].
          exists y. split; [exact Hy|exact Hrest]. }
      apply G in Hin. destruct Hin as (j & rest & -> & x & Hx & Hrest).
      exists (j :: rest). split; [reflexivity|].
      destruct rest as [|k rest].
      * exists x. cbn [PP.node_at Nat.add]. rewrite Hx.
        destruct x; (split; [reflexivity|exact Hrest]).
      * destruct x as [data|t' c' h' cs]; [contradiction|].
        destruct Hrest as (m & Hm & Cm). exists m. cbn [PP.node_at Nat.add]. rewrite Hx.
        split; [exact Hm|exact Cm].
Qed.

Lemma container_paths_forest_are_containers (children : list PP.node) :
  forall (q : PP.path) (n : PP.node),
    In q (PP.container_paths children) ->
    PP.node_at children q = Some n -> PP.is_container n = true.
Proof.
  unfold PP.container_paths.
  assert (G : forall l i q,
             In q (PP.container_paths_forest [] i l) ->
             exists j rest x, q = (i + j) :: rest /\ nth_error l j = Some x
               /\ match rest with
                  | [] => PP.is_container x = true
                  | _ :: _ =>
                      match x with
                      | PP.Text _ => False
                      | PP.Element _ _ _ cs =>
                          exists m, PP.node_at cs rest = Some m /\ PP.is_container m = true
                      end
                  end).
  { induction l as [|x l IH]; intros i q Hq; [destruct Hq|].
    cbn [PP.container_paths_forest] in Hq. apply in_app_or in Hq. destruct Hq as [Hq|Hq].
    - apply container_paths_from_are_containers in Hq. destruct Hq as (rest & -> & Hrest).
      exists 0, rest, x. split; [simpl; now rewrite Nat.add_0_r|]. split; [reflexivity|exact Hrest].
    - apply IH in Hq. destruct Hq as (j & rest & y & -> & Hy & Hrest).
      exists (S j), rest, y. split; [f_equal; lia|]. split; [exact Hy|exact Hrest]. }
  intros q n Hq Hn. apply G in Hq. destruct Hq as (j & rest & x & -> & Hx & Hrest).
  cbn [PP.node_at Nat.add] in Hn. rewrite Hx in Hn.
  destruct rest as [|k rest].
  - destruct x; injection Hn as Hn; subst n; exact Hrest.
  - destruct x as [data|t c h cs]; [contradiction|].
    destruct Hrest as (m & Hm & Cm). congruence.
Qed.

Lemma mutates_skips (container : PP.node) :
  Spec.occurs is_food_log_container container = false ->
  PP.is_container container = true ->
  PP.mutates getUnitMultiplier settings source container = false.
Proof.
  intros Hno Hc. destruct container as [data|t c h children]; [reflexivity|].
  cbn [Spec.occurs] in Hno. apply orb_false_iff in Hno. destruct Hno as [Hno _].
  unfold is_food_log_container in Hno. rewrite Hc in Hno. cbn [andb] in Hno.
  cbn [PP.mutates].
  destruct (PP.reconstructMarkdownText children) as [|ch text]; [reflexivity|].
  now rewrite Hno.
Qed.

Lemma process_containers_skip (count : nat) :
  forall (worklist : list nat) (k : nat) (children : list PP.node),
    existsb (Spec.occurs is_food_log_container) children = false ->
    exists k' worklist',
      PP.process_containers getUnitMultiplier settings source count worklist
                            [(children, k)]
      = ([(children, k')], worklist', None).
Proof.
  induction count as [|count IH]; intros worklist k children Hno; [now eexists _, _|].
  destruct worklist as [|home rest]; [now eexists _, _|].
  cbn [PP.process_containers].
  destruct home as [|home]; [|destruct home; now apply IH].
  cbn [nth_error].
  destruct (nth_error (PP.container_paths children) k) as [q|] eqn:Q; [|now apply IH].
  destruct (PP.node_at children q) as [container|] eqn:N; [|now apply IH].
  assert (C : PP.is_container container = true).
  { eapply container_paths_forest_are_containers; [eapply nth_error_In, Q | exact N]. }
  rewrite (process_container_skips container (node_at_occurs _ _ _ N Hno) C).
  rewrite (mutates_skips container (node_at_occurs _ _ _ N Hno) C).
  rewrite (splice_at_same _ _ N). cbn [PP.replace_nth]. now apply IH.
Qed.

End Untouched.

(** X14: an element none of whose containers (itself included) holds the
    heading line in its text is returned as it was, and nothing is thrown,
    whatever the lookup does and even where nothing binds [settings]: the
    settings are read, and the tree is touched, only for a container that
    passes the test of the heading line. *)
Theorem other_blocks_are_untouched
        (getUnitMultiplier : number -> str -> option number -> number)
        (settings : option PP.Settings) (source : str -> NC.lookup) (el : PP.node) :
  Spec.occurs is_food_log_container el = false ->
  PP.process getUnitMultiplier settings source el = (el, None).
Proof.
  intros Hno. unfold PP.process.
  destruct (PP.is_container el) eqn:C; [now apply process_container_skips|].
  destruct el as [data|t c h children]; [reflexivity|].
  cbn [Spec.occurs] in Hno. apply orb_false_iff in Hno. destruct Hno as [_ Hno].
  destruct (process_containers_skip getUnitMultiplier settings source
              (length (PP.container_paths children))
              (repeat 0 (length (PP.container_paths children))) 0 children Hno)
    as (k' & worklist' & ->).
  reflexivity.
Qed.

Lemma other_blocks_are_untouched_witness :
  PP.process Samples.per_hundred None Samples.pantry
             (Samples.el "DIV" []
                [Samples.el "P" [] [Samples.link "ghost"; Samples.txt " 150g"];
                 Samples.el "UL" [] [Samples.el "LI" [] [Samples.txt "## Food"]]])
  = (Samples.el "DIV" []
       [Samples.el "P" [] [Samples.link "ghost"; Samples.txt " 150g"];
        Samples.el "UL" [] [Samples.el "LI" [] [Samples.txt "## Food"]]],
     None).
Proof.
  apply (@other_blocks_are_untouched Samples.per_hundred None Samples.pantry).
  vm_compute. reflexivity.
Defined.

(** ** Wrapping a range *)

Lemma len_app (a b : str) : FHC.len (a ++ b) = (FHC.len a + FHC.len b)%Z.
Proof. unfold FHC.len. rewrite length_app. lia. Qed.

Lemma len_nonneg (a : str) : (0 <= FHC.len a)%Z.
Proof. unfold FHC.len. lia. Qed.

Lemma nodes_to_wrap_beyond (startPos endPos : Z) (nodes : list (PP.path * PP.node)) :
  forall cur,
    (cur + FHC.len (flat_map (fun pn => PP.contribution (snd pn)) nodes) <= startPos)%Z ->
    PP.nodes_to_wrap startPos endPos cur nodes = [].
Proof.
  induction nodes as [|[p n] nodes IH]; intros cur H; [reflexivity|].
  cbn [flat_map snd] in H. rewrite len_app in H.
  assert (N := len_nonneg (flat_map (fun pn => PP.contribution (snd pn)) nodes)).
  specialize (IH (cur + FHC.len (PP.contribution n))%Z).
  set (rest := flat_map (fun pn => PP.contribution (snd pn)) nodes) in *.
  cbn [PP.nodes_to_wrap]. unfold PP.contribution in H, IH.
  destruct (PP.classify n) as [data| |w|t| |]; cbv iota beta in H, IH.
  - unfold PP.gtb, PP.geb.
    destruct (Z.ltb_spec startPos (cur + FHC.len data)); [lia|]. cbn [andb].
    destruct (_ <=? _)%Z; [reflexivity|]. apply IH. lia.
  - change (FHC.len []) with 0%Z in H, IH. rewrite Z.add_0_r in IH. apply IH. lia.
  - destruct (PP.geb _ _); [reflexivity|]. apply IH. lia.
  - destruct (PP.geb _ _); [reflexivity|]. apply IH. lia.
  - change (FHC.len newline) with 1%Z in H, IH.
    destruct (PP.geb _ _); [reflexivity|]. apply IH. lia.
  - change (FHC.len []) with 0%Z in H, IH. rewrite Z.add_0_r in IH. apply IH. lia.
Qed.

Lemma nodes_to_wrap_before (startPos endPos : Z) (nodes : list (PP.path * PP.node)) :
  forall cur, (endPos <= cur)%Z -> PP.nodes_to_wrap startPos endPos cur nodes = [].
Proof.
  induction nodes as [|[p n] nodes IH]; intros cur H; [reflexivity|].
  cbn [PP.nodes_to_wrap].
  destruct (PP.classify n) as [data| |w|t| |].
  - assert (N := len_nonneg data). unfold PP.gtb, PP.geb.
    destruct (Z.ltb_spec cur endPos); [lia|]. rewrite andb_false_r.
    destruct (Z.leb_spec endPos (cur + FHC.len data)); [reflexivity|lia].
  - now apply IH.
  - assert (N := len_nonneg w). unfold PP.geb.
    destruct (Z.leb_spec endPos (cur + FHC.len w)); [reflexivity|lia].
  - assert (N := len_nonneg t). unfold PP.geb.
    destruct (Z.leb_spec endPos (cur + FHC.len t)); [reflexivity|lia].
  - unfold PP.geb. destruct (Z.leb_spec endPos (cur + 1)); [reflexivity|lia].
  - now apply IH.
Qed.

(** X15: a range that starts at the end of the text or later, or ends at
    position 0 or before, wraps nothing: the children are returned as they
    were. *)
Theorem wrap_outside_text (children : list PP.node) (startPos endPos : Z)
        (className : str) :
  (FHC.len (PP.reconstructMarkdownText children) <= startPos)%Z \/ (endPos <= 0)%Z ->
  PP.wrapTextAtPosition children startPos endPos className = children.
Proof.
  intros H. unfold PP.wrapTextAtPosition.
  assert (E : PP.nodes_to_wrap startPos endPos 0 (PP.walk children) = []).
  { destruct H as [H|H].
    - apply nodes_to_wrap_beyond. unfold PP.reconstructMarkdownText in H. lia.
    - now apply nodes_to_wrap_before. }
  now rewrite E.
Qed.

Lemma wrap_outside_text_witness :
  PP.wrapTextAtPosition [Samples.txt "Oatmeal 350kcal"] 15 22 PP.nutrition_class
  = [Samples.txt "Oatmeal 350kcal"].
Proof.
  apply (@wrap_outside_text [Samples.txt "Oatmeal 350kcal"] 15 22 PP.nutrition_class).
  left. vm_compute. discriminate.
Defined.

Lemma visit_reaches (n : PP.node) :
  forall (p q : PP.path) (m : PP.node),
    In (q, m) (PP.visit p n) ->
    exists rest,
      q = p ++ rest
      /\ match rest with
         | [] => m = n
         | _ :: _ =>
             match n with
             | PP.Text _ => False
             | PP.Element _ _ _ cs =>
                 PP.skips_children n = false
                 /\ reachable cs rest = true /\ PP.node_at cs rest = Some m
             end
         end.
Proof.
  induction n as [data|t c h children IH] using node_induction; intros p q m Hin;
    rewrite visit_unfold in Hin.
  - destruct Hin as [E|[]]. injection E as <- <-. exists []. split; [now rewrite app_nil_r|reflexivity].
  - destruct Hin as [E|Hin];
      [injection E as <- <-; exists []; split; [now rewrite app_nil_r|reflexivity]|].
    destruct (PP.skips_children (PP.Element t c h children)) eqn:K; [destruct Hin|].
    assert (G : forall i,
               In (q, m) (PP.visit_forest p i children) ->
               exists j rest x,
                 q = p ++ (i + j) :: rest /\ nth_error children j = Some x
                 /\ match rest with
                    | [] => m = x
                    | _ :: _ =>
                        match x with
                        | PP.Text _ => False
                        | PP.Element _ _ _ cs =>
                            PP.skips_children x = false
                            /\ reachable cs rest = true /\ PP.node_at cs rest = Some m
                        end
                    end).
    { clear Hin K. induction IH as [|x children Hx _ IHc]; intros i Hq; [destruct Hq|].
      cbn [PP.visit_forest] in Hq. apply in_app_or in Hq. destruct Hq as [Hq|Hq].
      - apply Hx in Hq. destruct Hq as (rest & -> & Hrest).
        exists 0, rest, x. split; [rewrite <- app_assoc, Nat.add_0_r; reflexivity|].
        split; [reflexivity|exact Hrest].
      - apply IHc in Hq. destruct Hq as (j & rest & y & -> & Hy & Hrest).
        exists (S j), rest, y. split; [f_equal; f_equal; lia|].
        split; [exact Hy|exact Hrest]. }
    apply G in Hin. destruct Hin as (j & rest & x & -> & Hx & Hrest).
    exists (j :: rest). split; [reflexivity|]. split; [reflexivity|].
    cbn [reachable PP.node_at Nat.add]. rewrite Hx.
    destruct rest as [|k rest].
    + subst m. destruct x; split; reflexivity.
    + destruct x as [data|t' c' h' cs]; [contradiction|].
      destruct Hrest as (A & B & C). rewrite A. cbn [negb andb]. split; assumption.
Qed.

Lemma walk_reaches (children : list PP.node) (q : PP.path) (m : PP.node) :
  In (q, m) (PP.walk children) ->
  reachable children q = true /\ PP.node_at children q = Some m.
Proof.
  unfold PP.walk.
  assert (G : forall l i,
             In (q, m) (PP.visit_forest [] i l) ->
             exists j rest x,
               q = (i + j) :: rest /\ nth_error l j = Some x
               /\ match rest with
                  | [] => m = x
                  | _ :: _ =>
                      match x with
                      | PP.Text _ => False
                      | PP.Element _ _ _ cs =>
                          PP.skips_children x = false
                          /\ reachable cs rest = true /\ PP.node_at cs rest = Some m
                      end
                  end).
  { induction l as [|x l IH]; intros i Hq; [destruct Hq|].
    cbn [PP.visit_forest] in Hq. apply in_app_or in Hq. destruct Hq as [Hq|Hq].
    - apply visit_reaches in Hq. destruct Hq as (rest & -> & Hrest).
      exists 0, rest, x. split; [simpl; now rewrite Nat.add_0_r|]. split; [reflexivity|exact Hrest].
    - apply IH in Hq. destruct Hq as (j & rest & y & -> & Hy & Hrest).
      exists (S j), rest, y. split; [f_equal; lia|]. split; [exact Hy|exact Hrest]. }
  intros Hin. apply G in Hin. destruct Hin as (j & rest & x & -> & Hx & Hrest).
  cbn [reachable PP.node_at Nat.add]. rewrite Hx.
  destruct rest as [|k rest].
  - subst m. destruct x; split; reflexivity.
  - destruct x as [data|t c h cs]; [contradiction|].
    destruct Hrest as (A & B & C). rewrite A. cbn [negb andb]. split; assumption.
Qed.

Lemma target_node_visited (position : Z) (nodes : list (PP.path * PP.node)) :
  forall cur p, PP.target_node position cur nodes = Some p ->
                exists n, In (p, n) nodes.
Proof.
  induction nodes as [|[q n] nodes IH]; intros cur p; [discriminate|].
  cbn [PP.target_node].
  assert (R : forall cur', PP.target_node position cur' nodes = Some p ->
                           exists n0, In (p, n0) ((q, n) :: nodes)).
  { intros cur' H. apply IH in H. destruct H as [n0 H]. exists n0. now right. }
  assert (Here : Some q = Some p -> exists n0, In (p, n0) ((q, n) :: nodes)).
  { intros H. injection H as <-. exists n. now left. }
  destruct (PP.classify n); try (destruct (PP.geb _ _)); auto; apply R.
Qed.

Lemma reachable_node (p : PP.path) :
  forall children, reachable children p = true ->
                   exists n, PP.node_at children p = Some n.
Proof.
  induction p as [|i p IH]; intros children; [discriminate|].
  cbn [reachable PP.node_at].
  destruct (nth_error children i) as [x|]; [|discriminate].
  destruct p as [|j p].
  - intros _. exists x. now destruct x.
  - destruct x as [data|t c h cs]; [discriminate|].
    intros H. apply andb_true_iff in H. apply IH, H.
Qed.

Lemma reachable_removelast (p : PP.path) :
  forall children, reachable children p = true ->
                   2 <= length p -> reachable children (removelast p) = true.
Proof.
  induction p as [|i p IH]; intros children; [discriminate|].
  intros H L. destruct p as [|j p]; [simpl in L; lia|].
  change (removelast (i :: j :: p)) with (i :: removelast (j :: p)).
  cbn [reachable] in H |- *.
  destruct (nth_error children i) as [x|]; [|discriminate].
  destruct x as [data|t c h cs]; [discriminate|].
  apply andb_true_iff in H. destruct H as [K H].
  destruct p as [|k p].
  - reflexivity.
  - change (removelast (j :: k :: p)) with (j :: removelast (k :: p)) in *.
    rewrite K. cbn [andb]. apply IH; [exact H|simpl; lia].
Qed.

Lemma ancestors_reachable (children : list PP.node) (fuel : nat) :
  forall p q, reachable children p = true ->
              In q (PP.ancestors_or_self p fuel) -> reachable children q = true.
Proof.
  induction fuel as [|fuel IH]; intros p q R Hin; [destruct Hin|].
  cbn [PP.ancestors_or_self] in Hin. destruct p as [|i p]; [destruct Hin|].
  destruct Hin as [<-|Hin]; [exact R|].
  destruct p as [|j p].
  - simpl in Hin. destruct fuel; destruct Hin.
  - eapply IH; [|exact Hin]. apply reachable_removelast; [exact R|simpl; lia].
Qed.

Lemma findInsertionPoint_reachable (children : list PP.node) (p : PP.path) :
  reachable children p = true ->
  reachable children (PP.findInsertionPoint children p) = true.
Proof.
  intros R. unfold PP.findInsertionPoint.
  destruct (find _ _) as [q|] eqn:F; [|exact R].
  apply find_some in F. eapply ancestors_reachable; [exact R|apply F].
Qed.

Lemma findInsertionNode_reachable (children : list PP.node) (position : Z) (p : PP.path) :
  PP.findInsertionNodeAtPosition children position = Some p ->
  reachable children p = true.
Proof.
  unfold PP.findInsertionNodeAtPosition.
  destruct (PP.target_node position 0 (PP.walk children)) as [q|] eqn:T.
  - intros H. injection H as <-. apply target_node_visited in T.
    destruct T as [n T]. apply walk_reaches in T. apply T.
  - destruct children as [|x l] eqn:E; [discriminate|]. rewrite <- E.
    intros H. injection H as <-. cbn [reachable].
    destruct (nth_error children (length children - 1)) as [n|] eqn:N;
      [now destruct n|].
    apply nth_error_None in N. subst children. simpl in N. lia.
Qed.

(** Replacing a reachable node by nodes that read the same keeps the text. *)
Lemma splice_reads_at (f : PP.node -> list PP.node) (p : PP.path) :
  forall children,
    reachable children p = true ->
    (forall n, PP.node_at children p = Some n -> flat_map reads (f n) = reads n) ->
    flat_map reads (PP.splice_at f p children) = flat_map reads children.
Proof.
  induction p as [|i p IH]; intros children R Hf; [reflexivity|].
  cbn [reachable] in R. cbn [PP.splice_at]. cbn [PP.node_at] in Hf.
  destruct (nth_error children i) as [x|] eqn:E; [|discriminate].
  assert (S := split_nth _ _ E).
  destruct p as [|j p].
  - replace (flat_map reads children)
      with (flat_map reads (firstn i children ++ x :: skipn (Datatypes.S i) children))
      by (now rewrite <- S).
    assert (Hx : flat_map reads (f x) = reads x) by (apply Hf; now destruct x).
    destruct x; rewrite !flat_map_app; cbn [flat_map]; rewrite Hx; reflexivity.
  - destruct x as [data|t c h cs]; [discriminate|].
    apply andb_true_iff in R. destruct R as [K R]. apply negb_true_iff in K.
    replace (flat_map reads children)
      with (flat_map reads (firstn i children
                              ++ PP.Element t c h cs :: skipn (Datatypes.S i) children))
      by (now rewrite <- S).
    rewrite !flat_map_app. cbn [flat_map]. f_equal. f_equal.
    assert (C : PP.classify (PP.Element t c h (PP.splice_at f (j :: p) cs))
                = PP.classify (PP.Element t c h cs)).
    { unfold PP.skips_children in K. unfold PP.classify in *.
      cbn [PP.has_class PP.tag_name] in *.
      destruct (existsb (Str.eqb PP.hint_class) c); [reflexivity|].
      destruct (existsb (Str.eqb PP.link_class) c); [discriminate|].
      destruct (existsb (Str.eqb PP.tag_class) c); [discriminate|]. reflexivity. }
    cbn [reads]. unfold PP.contribution, PP.skips_children in *. rewrite C, K.
    rewrite (IH cs R Hf). reflexivity.
Qed.

Lemma classify_text (n : PP.node) (data : str) :
  PP.classify n = PP.TextRun data -> n = PP.Text data.
Proof.
  destruct n as [d|t c h cs]; cbn [PP.classify].
  - intros H. now injection H as ->.
  - destruct (PP.has_class _ _); [discriminate|].
    destruct (PP.has_class _ _); [discriminate|].
    destruct (PP.has_class _ _); [discriminate|].
    destruct (Str.eqb _ _); discriminate.
Qed.

Lemma nodes_to_wrap_offsets (startPos endPos : Z) (nodes : list (PP.path * PP.node)) :
  forall cur p so eo,
    In (p, so, eo) (PP.nodes_to_wrap startPos endPos cur nodes) ->
    exists data nodeStart,
      In (p, PP.Text data) nodes
      /\ so = Z.max 0 (startPos - nodeStart)
      /\ eo = Z.min (FHC.len data) (endPos - nodeStart)
      /\ (startPos < nodeStart + FHC.len data)%Z /\ (nodeStart < endPos)%Z.
Proof.
  induction nodes as [|[q n] nodes IH]; intros cur p so eo Hin; [destruct Hin|].
  cbn [PP.nodes_to_wrap] in Hin.
  assert (R : forall cur', In (p, so, eo) (PP.nodes_to_wrap startPos endPos cur' nodes) ->
                           exists data nodeStart,
                             In (p, PP.Text data) ((q, n) :: nodes)
                             /\ so = Z.max 0 (startPos - nodeStart)
                             /\ eo = Z.min (FHC.len data) (endPos - nodeStart)
                             /\ (startPos < nodeStart + FHC.len data)%Z
                             /\ (nodeStart < endPos)%Z).
  { intros cur' H. apply IH in H. destruct H as (d & ns & A & B).
    exists d, ns. split; [now right|exact B]. }
  destruct (PP.classify n) as [data| |w|t| |] eqn:K;
    try (destruct (PP.geb _ _); [destruct Hin|]); try (now apply (R _ Hin)).
  apply classify_text in K. subst n.
  assert (Here : In (p, so, eo)
                    (if PP.gtb (cur + FHC.len data) startPos && (cur <? endPos)%Z
                     then [(q, Z.max 0 (startPos - cur),
                            Z.min (FHC.len data) (endPos - cur))]
                     else []) ->
                 exists d nodeStart,
                   In (p, PP.Text d) ((q, PP.Text data) :: nodes)
                   /\ so = Z.max 0 (startPos - nodeStart)
                   /\ eo = Z.min (FHC.len d) (endPos - nodeStart)
                   /\ (startPos < nodeStart + FHC.len d)%Z
                   /\ (nodeStart < endPos)%Z).
  { unfold PP.gtb.
    destruct (Z.ltb_spec startPos (cur + FHC.len data)) as [L1|L1]; [|intros []].
    destruct (Z.ltb_spec cur endPos) as [L2|L2]; [|intros []].
    intros [X|[]]. injection X as <- <- <-. exists data, cur.
    split; [now left|]. repeat split; assumption. }
  destruct (PP.geb _ _); [now apply Here|].
  apply in_app_or in Hin. destruct Hin as [H|H]; [now apply Here | now apply (R _ H)].
Qed.

Lemma substring_three (d : str) (so eo : Z) :
  (0 <= so <= eo)%Z -> (eo <= FHC.len d)%Z ->
  substring d 0 so ++ substring d so eo ++ substring_from d eo = d.
Proof.
  intros H1 H2. unfold substring, substring_from, clamp, FHC.len in *.
  replace (Z.to_nat (Z.min (Z.max 0 0) (Z.of_nat (length d)))) with 0 by lia.
  replace (Z.to_nat (Z.min (Z.max 0 so) (Z.of_nat (length d)))) with (Z.to_nat so) by lia.
  replace (Z.to_nat (Z.min (Z.max 0 eo) (Z.of_nat (length d)))) with (Z.to_nat eo) by lia.
  rewrite !Nat.min_l, !Nat.max_r by lia. rewrite Nat.sub_0_r. cbn [skipn].
  set (a := Z.to_nat so). set (b := Z.to_nat eo).
  assert (Hab : a <= b) by (unfold a, b; lia).
  rewrite <- (firstn_skipn a d) at 4. f_equal.
  rewrite <- (firstn_skipn (b - a) (skipn a d)) at 2. f_equal.
  rewrite skipn_skipn. f_equal. lia.
Qed.

Lemma reads_text_if (s : str) : flat_map reads (PP.text_if s) = s.
Proof. destruct s; [reflexivity|]. cbn. now rewrite !app_nil_r. Qed.

Lemma reads_wrapper (t : FHC.range_type) (s : str) :
  reads (PP.span (PP.getClassNameForType t) s) = s.
Proof.
  destruct t; destruct s; try reflexivity; cbn; now rewrite !app_nil_r.
Qed.

(** X16: when a range falls within a single text node, that node is
    replaced by the text before the range (if any), a wrapper holding the
    range, and the text after it (if any), and the text read back from the
    container is unchanged. *)
Theorem wrap_in_one_node_keeps_text (children : list PP.node) (startPos endPos : Z)
        (type : FHC.range_type) (p : PP.path) (startOffset endOffset : Z) :
  (startPos <= endPos)%Z ->
  PP.nodes_to_wrap startPos endPos 0 (PP.walk children) = [(p, startOffset, endOffset)] ->
  PP.reconstructMarkdownText
    (PP.wrapTextAtPosition children startPos endPos (PP.getClassNameForType type))
  = PP.reconstructMarkdownText children
  /\ exists data,
       PP.node_at children p = Some (PP.Text data)
       /\ PP.wrapTextAtPosition children startPos endPos (PP.getClassNameForType type)
          = PP.splice_at
              (fun _ =>
                 PP.text_if (substring data 0 startOffset)
                 ++ [PP.span (PP.getClassNameForType type)
                             (substring data startOffset endOffset)]
                 ++ PP.text_if (substring_from data endOffset))
              p children.
Proof.
  intros Hse E. unfold PP.wrapTextAtPosition. rewrite E.
  assert (Hin : In (p, startOffset, endOffset)
                   (PP.nodes_to_wrap startPos endPos 0 (PP.walk children)))
    by (rewrite E; now left).
  apply nodes_to_wrap_offsets in Hin.
  destruct Hin as (data & ns & Hw & Hso & Heo & H1 & H2).
  apply walk_reaches in Hw. destruct Hw as [R N].
  assert (L := len_nonneg data).
  split.
  - rewrite !reconstruct_reads. apply splice_reads_at; [exact R|].
    intros n Hn. rewrite N in Hn. injection Hn as <-. cbn [PP.textContent].
    rewrite !flat_map_app, !reads_text_if. cbn [flat_map]. rewrite reads_wrapper.
    cbn [reads PP.contribution PP.classify]. rewrite !app_nil_r.
    apply substring_three; lia.
  - exists data. split; [exact N|].
    clear - N. revert children N. induction p as [|i p IH]; intros children N; [reflexivity|].
    cbn [PP.node_at] in N. cbn [PP.splice_at].
    destruct (nth_error children i) as [x|]; [|reflexivity].
    destruct p as [|j p].
    + destruct x; injection N as N; try discriminate N; subst; reflexivity.
    + destruct x as [d|t c h cs]; [reflexivity|]. now rewrite (IH cs N).
Qed.

Lemma wrap_in_one_node_keeps_text_witness :
  PP.reconstructMarkdownText
    (PP.wrapTextAtPosition [Samples.link "apple"; Samples.txt " 150g - snack"]
                           10 15 (PP.getClassNameForType FHC.amount))
  = PP.reconstructMarkdownText [Samples.link "apple"; Samples.txt " 150g - snack"]
  /\ exists data,
       PP.node_at [Samples.link "apple"; Samples.txt " 150g - snack"] [1]
       = Some (PP.Text data)
       /\ PP.wrapTextAtPosition [Samples.link "apple"; Samples.txt " 150g - snack"]
                                10 15 (PP.getClassNameForType FHC.amount)
          = PP.splice_at
              (fun _ =>
                 PP.text_if (substring data 0 1)
                 ++ [PP.span (PP.getClassNameForType FHC.amount) (substring data 1 6)]
                 ++ PP.text_if (substring_from data 6))
              [1] [Samples.link "apple"; Samples.txt " 150g - snack"].
Proof.
  apply (@wrap_in_one_node_keeps_text
           [Samples.link "apple"; Samples.txt " 150g - snack"] 10 15 FHC.amount [1] 1 6).
  - lia.
  - vm_compute. reflexivity.
Defined.

(** ** Inserting the hints *)

Lemma reads_hint (hintText : str) : reads (PP.hint_span hintText) = [].
Proof. reflexivity. Qed.

(** X17: inserting the hints never changes the text read back from the
    container: every hint is put beside a node the walk reaches, and the walk
    reads nothing from a hint.  So the positions of the later hints, computed
    before the first insertion, still fit the tree. *)
Theorem hints_keep_the_text (hints : list FHC.CalorieAnnotation) :
  forall children : list PP.node,
    PP.reconstructMarkdownText (fold_left PP.insert_hint hints children)
    = PP.reconstructMarkdownText children.
Proof.
  induction hints as [|hint hints IH]; intros children; [reflexivity|].
  cbn [fold_left]. rewrite IH. unfold PP.insert_hint.
  destruct (PP.findInsertionNodeAtPosition children (FHC.position hint)) as [p|] eqn:F;
    [|reflexivity].
  rewrite !reconstruct_reads. apply splice_reads_at.
  - apply findInsertionPoint_reachable. eapply findInsertionNode_reachable, F.
  - intros n _. cbn [flat_map]. rewrite reads_hint. now rewrite !app_nil_r.
Qed.

Lemma list_sum_app_map (A : Type) (f : A -> nat) (a b : list A) :
  list_sum (map f (a ++ b)) = list_sum (map f a) + list_sum (map f b).
Proof. now rewrite map_app, list_sum_app. Qed.

Lemma hints_in_cons (x : PP.node) (l : list PP.node) :
  hints_in (x :: l) = count_hints x + hints_in l.
Proof. reflexivity. Qed.

Lemma hints_in_app (a b : list PP.node) : hints_in (a ++ b) = hints_in a + hints_in b.
Proof. apply list_sum_app_map. Qed.

Lemma count_hints_element (t : str) (c : list str) (h : option str) (cs : list PP.node) :
  count_hints (PP.Element t c h cs)
  = (if existsb (Str.eqb PP.hint_class) c then 1 else 0) + hints_in cs.
Proof. reflexivity. Qed.

Lemma remove_hints_count (n : PP.node) : hints_in (PP.remove_hints n) = 0.
Proof.
  induction n as [data|t c h children IH] using node_induction; [reflexivity|].
  cbn [PP.remove_hints PP.has_class].
  destruct (existsb (Str.eqb PP.hint_class) c) eqn:K; [reflexivity|].
  rewrite hints_in_cons, count_hints_element, K.
  change (hints_in []) with 0. rewrite Nat.add_0_r. cbn [Nat.add].
  induction IH as [|x children Hx _ IHc]; [reflexivity|].
  cbn [flat_map]. now rewrite hints_in_app, Hx, IHc.
Qed.

Lemma remove_hints_forest_count (children : list PP.node) :
  hints_in (flat_map PP.remove_hints children) = 0.
Proof.
  induction children as [|x children IH]; [reflexivity|].
  cbn [flat_map]. now rewrite hints_in_app, remove_hints_count, IH.
Qed.

Lemma splice_hint_count (hintText : str) (p : PP.path) :
  forall (children : list PP.node) (n : PP.node),
    PP.node_at children p = Some n ->
    hints_in (PP.splice_at (fun n => [n; PP.hint_span hintText]) p children)
    = S (hints_in children).
Proof.
  induction p as [|i p IH]; intros children n; [discriminate|].
  cbn [PP.node_at PP.splice_at].
  destruct (nth_error children i) as [x|] eqn:E; [|discriminate].
  assert (S := split_nth _ _ E).
  destruct p as [|j p].
  - intros _.
    replace (hints_in children)
      with (hints_in (firstn i children ++ x :: skipn (Datatypes.S i) children))
      by (now rewrite <- S).
    destruct x; rewrite !hints_in_app, !hints_in_cons;
      change (count_hints (PP.hint_span hintText)) with 1;
      change (hints_in []) with 0; lia.
  - destruct x as [data|t c h cs]; [discriminate|]. intros H.
    replace (hints_in children)
      with (hints_in (firstn i children
                        ++ PP.Element t c h cs :: skipn (Datatypes.S i) children))
      by (now rewrite <- S).
    rewrite !hints_in_app, !hints_in_cons, !count_hints_element.
    rewrite (IH cs n H). lia.
Qed.

Lemma insert_hint_count (children : list PP.node) (hint : FHC.CalorieAnnotation) :
  children <> [] ->
  hints_in (PP.insert_hint children hint) = S (hints_in children).
Proof.
  intros Hne. unfold PP.insert_hint.
  destruct (PP.findInsertionNodeAtPosition children (FHC.position hint)) as [p|] eqn:F.
  - assert (R : reachable children (PP.findInsertionPoint children p) = true).
    { apply findInsertionPoint_reachable. eapply findInsertionNode_reachable, F. }
    apply reachable_node in R. destruct R as [n R].
    eapply splice_hint_count, R.
  - unfold PP.findInsertionNodeAtPosition in F.
    destruct (PP.target_node _ _ _); [discriminate|].
    destruct children; [contradiction|discriminate].
Qed.

Lemma insert_hints_count (hints : list FHC.CalorieAnnotation) :
  forall children : list PP.node,
    children <> [] ->
    hints_in (fold_left PP.insert_hint hints children)
    = hints_in children + length hints.
Proof.
  induction hints as [|hint hints IH]; intros children Hne; [simpl; lia|].
  cbn [fold_left length]. rewrite IH.
  - rewrite insert_hint_count by exact Hne. lia.
  - intros E. assert (H := @insert_hint_count children hint Hne). rewrite E in H.
    discriminate H.
Qed.

(** X18: after the mutating part of a pass the container holds exactly one
    hint element for each annotation (none when nothing is left in the
    container): the hints of earlier passes are all removed first, wherever
    they are, and each annotation inserts one. *)
Theorem one_hint_per_annotation (children : list PP.node) (reconstructedText : str)
        (hints : list FHC.CalorieAnnotation) :
  hints_in (PP.apply_highlights children reconstructedText hints)
  = match flat_map PP.remove_hints (PP.highlightMatches children reconstructedText) with
    | [] => 0
    | _ :: _ => length hints
    end.
Proof.
  unfold PP.apply_highlights.
  assert (Z := remove_hints_forest_count (PP.highlightMatches children reconstructedText)).
  destruct (flat_map PP.remove_hints (PP.highlightMatches children reconstructedText))
    as [|x l] eqn:E.
  - clear. induction hints as [|hint hints IH]; [reflexivity|exact IH].
  - rewrite insert_hints_count by discriminate. rewrite Z. reflexivity.
Qed.

(** ** The nutrient cache *)

Lemma str_eqb_spec (a b : str) : reflect (a = b) (Str.eqb a b).
Proof.
  revert b. induction a as [|x a IH]; intros [|y b]; simpl; try (constructor; congruence).
  destruct (Ascii.eqb_spec x y) as [->|Hne]; simpl.
  - destruct (IH b) as [->|Hne]; constructor; congruence.
  - constructor. congruence.
Qed.

Lemma str_eqb_refl (a : str) : Str.eqb a a = true.
Proof. now destruct (str_eqb_spec a a). Qed.

Section MapLemmas.
Variable V : Type.
Implicit Types (m : NCache.Map V) (k : str) (v : V).

Lemma map_get_set_same k v m : NCache.map_get k (NCache.map_set k v m) = Some v.
Proof.
  induction m as [|[k' v'] m IH]; simpl.
  - now rewrite str_eqb_refl.
  - destruct (str_eqb_spec k' k) as [->|Hne]; simpl.
    + now rewrite str_eqb_refl.
    + destruct (str_eqb_spec k' k); [contradiction|exact IH].
Qed.

Lemma map_get_set_other k k' v m :
  k <> k' -> NCache.map_get k' (NCache.map_set k v m) = NCache.map_get k' m.
Proof.
  intros Hne. induction m as [|[k0 v0] m IH]; simpl.
  - destruct (str_eqb_spec k k'); [contradiction|reflexivity].
  - destruct (str_eqb_spec k0 k) as [->|H0]; simpl.
    + destruct (str_eqb_spec k k'); [contradiction|reflexivity].
    + destruct (str_eqb_spec k0 k'); [reflexivity|exact IH].
Qed.

Lemma map_get_set k k' v m :
  NCache.map_get k' (NCache.map_set k v m)
  = if Str.eqb k k' then Some v else NCache.map_get k' m.
Proof.
  destruct (str_eqb_spec k k') as [<-|Hne];
    [apply map_get_set_same | now apply map_get_set_other].
Qed.

Lemma map_get_in k v m : NCache.map_get k m = Some v -> In k (NCache.map_keys m).
Proof.
  induction m as [|[k0 v0] m IH]; simpl; [discriminate|].
  destruct (str_eqb_spec k0 k) as [->|Hne]; [now left|]. intros H. right. now apply IH.
Qed.

Lemma map_in_get k m : In k (NCache.map_keys m) -> exists v, NCache.map_get k m = Some v.
Proof.
  induction m as [|[k0 v0] m IH]; simpl; [intros []|].
  destruct (str_eqb_spec k0 k) as [->|Hne]; [now exists v0|].
  intros [H|H]; [contradiction|now apply IH].
Qed.

Lemma map_keys_set k k' v m :
  In k' (NCache.map_keys (NCache.map_set k v m)) <-> k' = k \/ In k' (NCache.map_keys m).
Proof.
  induction m as [|[k0 v0] m IH]; simpl.
  - intuition congruence.
  - destruct (str_eqb_spec k0 k) as [->|Hne]; simpl; [intuition congruence|].
    rewrite IH. tauto.
Qed.

Lemma map_set_nodup k v m :
  NoDup (NCache.map_keys m) -> NoDup (NCache.map_keys (NCache.map_set k v m)).
Proof.
  induction m as [|[k0 v0] m IH]; simpl; intros H.
  - constructor; [intros []|constructor].
  - inversion H as [|? ? Hk0 Hm]; subst.
    destruct (str_eqb_spec k0 k) as [->|Hne]; simpl.
    + now constructor.
    + constructor; [|now apply IH]. intros Hin. apply map_keys_set in Hin.
      destruct Hin as [->|Hin]; [now apply Hne|contradiction].
Qed.

Lemma map_keys_delete k k' m :
  In k' (NCache.map_keys (NCache.map_delete k m)) -> In k' (NCache.map_keys m).
Proof.
  induction m as [|[k0 v0] m IH]; simpl; [trivial|].
  destruct (Str.eqb k0 k); simpl; [now right|]. intros [H|H]; [now left|right; auto].
Qed.

Lemma map_delete_nodup k m :
  NoDup (NCache.map_keys m) -> NoDup (NCache.map_keys (NCache.map_delete k m)).
Proof.
  induction m as [|[k0 v0] m IH]; simpl; intros H; [constructor|].
  inversion H as [|? ? Hk0 Hm]; subst.
  destruct (Str.eqb k0 k); simpl; [exact Hm|].
  constructor; [|now apply IH]. intros Hin. apply Hk0. eapply map_keys_delete, Hin.
Qed.

Lemma map_get_delete_same k m :
  NoDup (NCache.map_keys m) -> NCache.map_get k (NCache.map_delete k m) = None.
Proof.
  induction m as [|[k0 v0] m IH]; simpl; intros H; [reflexivity|].
  inversion H as [|? ? Hk0 Hm]; subst.
  destruct (str_eqb_spec k0 k) as [->|Hne]; simpl.
  - destruct (NCache.map_get k m) eqn:G; [|reflexivity].
    exfalso. apply Hk0. eapply map_get_in, G.
  - destruct (str_eqb_spec k0 k); [contradiction|now apply IH].
Qed.

Lemma map_get_delete_other k k' m :
  k <> k' -> NCache.map_get k' (NCache.map_delete k m) = NCache.map_get k' m.
Proof.
  intros Hne. induction m as [|[k0 v0] m IH]; simpl; [reflexivity|].
  destruct (str_eqb_spec k0 k) as [->|H0]; simpl.
  - destruct (str_eqb_spec k k'); [contradiction|reflexivity].
  - destruct (str_eqb_spec k0 k'); [reflexivity|exact IH].
Qed.

End MapLemmas.

(** The invariant of the two maps is kept by every operation. *)
Section CacheLemmas.

Variable parseFloat : str -> number.
Variable String_of : NCache.value -> str.
Variable JSON_parse : str -> option NCache.value.

Lemma sound_cleared (c : NCache.NutrientCache) : sound (NCache.with_maps c [] []).
Proof. split; [constructor|]. split; [constructor|]. intros n p H. discriminate H. Qed.

Lemma sound_with_mode (c : NCache.NutrientCache) (b : bool) (p : option str) :
  sound c -> sound (NCache.with_mode c b p).
Proof. trivial. Qed.

Lemma sound_remove (c : NCache.NutrientCache) (filePath : str) :
  sound c -> sound (NCache.removeFileFromCache c filePath).
Proof.
  intros (D & N & S). unfold NCache.removeFileFromCache.
  destruct (NCache.map_get filePath (NCache.nutrientDataCache c)) as [e|] eqn:G;
    [|now repeat split].
  split; [now apply map_delete_nodup|]. split; [now apply map_delete_nodup|].
  cbn. intros n p H.
  destruct (str_eqb_spec (NCache.name e) n) as [<-|Hne].
  - rewrite map_get_delete_same in H by exact N. discriminate H.
  - rewrite map_get_delete_other in H by exact Hne.
    destruct (S n p H) as [d Hd]. exists d.
    destruct (str_eqb_spec filePath p) as [<-|Hp].
    + rewrite G in Hd. injection Hd as Hd. subst e. exfalso. apply Hne. reflexivity.
    + now rewrite map_get_delete_other.
Qed.

Lemma sound_process (c : NCache.NutrientCache) (file : NCache.TFile)
      (fm : option (list (str * NCache.value))) :
  sound c -> sound (NCache.processNutrientFile parseFloat String_of c file fm).
Proof.
  intros Hs. unfold NCache.processNutrientFile.
  destruct (NCache.extractNutrientName String_of fm) as [[|x n]|];
    try now apply sound_remove.
  destruct Hs as (D & N & S).
  set (nm := x :: n).
  set (names := match NCache.map_get (NCache.path file) (NCache.nutrientDataCache c) with
                | Some oldEntry =>
                    if negb (Str.eqb (NCache.name oldEntry) nm)
                    then NCache.map_delete (NCache.name oldEntry) (NCache.nameToPathMap c)
                    else NCache.nameToPathMap c
                | None => NCache.nameToPathMap c
                end).
  assert (Nn : NoDup (NCache.map_keys names)).
  { unfold names. destruct (NCache.map_get _ _) as [e|]; [|exact N].
    destruct (negb _); [now apply map_delete_nodup|exact N]. }
  assert (Sn : forall k p, NCache.map_get k names = Some p ->
                           NCache.map_get k (NCache.nameToPathMap c) = Some p
                           /\ (p = NCache.path file -> k = nm)).
  { unfold names. intros k p H.
    destruct (NCache.map_get (NCache.path file) (NCache.nutrientDataCache c)) as [e|] eqn:G.
    - destruct (str_eqb_spec (NCache.name e) nm) as [E|Hne]; cbn [negb] in H.
      + split; [exact H|]. intros ->. destruct (S k _ H) as [d Hd].
        rewrite G in Hd. injection Hd as Hd. subst e. exact E.
      + destruct (str_eqb_spec (NCache.name e) k) as [<-|Hk].
        * rewrite map_get_delete_same in H by exact N. discriminate H.
        * rewrite map_get_delete_other in H by exact Hk.
          split; [exact H|]. intros ->. destruct (S k _ H) as [d Hd].
          rewrite G in Hd. injection Hd as Hd. subst e. exfalso. apply Hk. reflexivity.
    - split; [exact H|]. intros ->. destruct (S k _ H) as [d Hd]. congruence. }
  split; [now apply map_set_nodup|]. split; [apply map_set_nodup; exact Nn|].
  cbn. intros k p H. rewrite map_get_set in H.
  destruct (str_eqb_spec nm k) as [<-|Hk].
  - injection H as <-. eexists. apply map_get_set_same.
  - destruct (Sn k p H) as [H0 Hp]. destruct (S k p H0) as [d Hd].
    exists d. rewrite map_get_set_other; [exact Hd|].
    intros E. symmetry in E. apply Hp in E. now apply Hk.
Qed.

Lemma sound_add_food (filePath : str) (c : NCache.NutrientCache) (item : NCache.value) :
  (sound c
   /\ forall k e, NCache.map_get k (NCache.nutrientDataCache c) = Some e ->
                  k = filePath ++ lit "#" ++ NCache.name e) ->
  sound (NCache.add_food parseFloat String_of filePath c item)
  /\ forall k e,
       NCache.map_get k (NCache.nutrientDataCache
                          (NCache.add_food parseFloat String_of filePath c item)) = Some e ->
       k = filePath ++ lit "#" ++ NCache.name e.
Proof.
  intros [(D & N & S) K]. unfold NCache.add_food.
  destruct (negb (NCache.truthy item) || negb (NCache.truthy (NCache.property item "name")));
    [now repeat split|].
  set (nm := NCache.to_String String_of (NCache.property item "name")).
  set (key := filePath ++ lit "#" ++ nm).
  split.
  - split; [now apply map_set_nodup|]. split; [now apply map_set_nodup|].
    cbn. intros k p H. rewrite map_get_set in H.
    destruct (str_eqb_spec nm k) as [<-|Hk].
    + injection H as <-. eexists. apply map_get_set_same.
    + destruct (S k p H) as [d Hd]. exists d.
      rewrite map_get_set_other; [exact Hd|].
      intros E. apply K in Hd. cbn [NCache.name] in Hd. rewrite Hd in E. unfold key in E.
      apply app_inv_head in E. apply app_inv_head in E. now apply Hk.
  - cbn. intros k e H. rewrite map_get_set in H.
    destruct (str_eqb_spec key k) as [<-|Hk]; [injection H as <-; reflexivity|].
    now apply K.
Qed.

Lemma sound_single (v : NCache.Vault) (c : NCache.NutrientCache) (file : NCache.TFile) :
  sound (NCache.processSingleFile parseFloat String_of JSON_parse v c file).
Proof.
  unfold NCache.processSingleFile.
  destruct (NCache.cachedRead v file) as [content|]; [|apply sound_cleared].
  match goal with
  | |- sound (fold_left _ ?items _) => generalize items
  end.
  intros foods.
  assert (G : forall items c0,
             (sound c0
              /\ forall k e, NCache.map_get k (NCache.nutrientDataCache c0) = Some e ->
                             k = NCache.path file ++ lit "#" ++ NCache.name e) ->
             sound (fold_left (NCache.add_food parseFloat String_of (NCache.path file)) items c0)).
  { induction items as [|item items IH]; intros c0 H; [apply H|].
    cbn [fold_left]. apply IH. now apply sound_add_food. }
  apply G. split; [apply sound_cleared|]. intros k e H. discriminate H.
Qed.

Lemma sound_initialize (v : NCache.Vault) (c : NCache.NutrientCache) :
  sound (NCache.initialize parseFloat String_of JSON_parse v c).
Proof.
  unfold NCache.initialize.
  assert (Dir : sound
                  (fold_left
                     (fun c0 file =>
                        NCache.processNutrientFile parseFloat String_of c0 file
                                                  (NCache.frontmatter v file))
                     (filter (fun file => NCache.startsWith (NCache.path file)
                                            (NCache.nutrientDirectory c ++ lit "/"))
                             (NCache.getMarkdownFiles v))
                     (NCache.with_mode (NCache.with_maps c [] []) false None))).
  { apply fold_left_invariant.
    - intros c0 file H. now apply sound_process.
    - apply sound_cleared. }
  destruct (NCache.getAbstractFileByPath v (NCache.nutrientDirectory c)) as [[f|d]|];
    try exact Dir.
  destruct (NCache.path f); [exact Dir|].
  destruct (Str.eqb _ _); [apply sound_single|].
  destruct (Str.eqb _ _); [apply sound_single|exact Dir].
Qed.

Lemma sound_perform (c : NCache.NutrientCache) (step : NCache.Vault * NCache.operation) :
  sound c -> sound (NCache.perform parseFloat String_of JSON_parse c step).
Proof.
  intros Hs. destruct step as [v op]. unfold NCache.perform. cbn [fst snd].
  destruct op as [| |file a|file|file oldPath|newDirectory].
  - apply sound_initialize.
  - apply sound_initialize.
  - unfold NCache.updateCache.
    destruct (_ && _).
    + destruct a; [apply sound_single|apply sound_cleared|apply sound_single].
    + destruct a; [now apply sound_process|now apply sound_remove|now apply sound_process].
  - unfold NCache.handleMetadataChange.
    destruct (NCache.isNutrientFile _ _); [now apply sound_process|exact Hs].
  - unfold NCache.handleRename.
    destruct (_ && _).
    + destruct (_ || _); [apply sound_single|apply sound_initialize].
    + match goal with
      | |- sound (if NCache.isNutrientFile ?c1 _ then _ else _) =>
          assert (H1 : sound c1)
      end.
      { destruct (_ && _); [now apply sound_remove|exact Hs]. }
      destruct (NCache.isNutrientFile _ _); [now apply sound_process|exact H1].
  - unfold NCache.updateNutrientDirectory.
    destruct (negb _); [apply sound_initialize|exact Hs].
Qed.

End CacheLemmas.

Lemma insert_sorted_in (s x : str) (l : list str) :
  In x (NCache.insert_sorted s l) <-> x = s \/ In x l.
Proof.
  induction l as [|y l IH]; simpl; [intuition congruence|].
  destruct (NCache.str_ltb s y); simpl; [intuition congruence|]. rewrite IH. tauto.
Qed.

Lemma getNutrientNames_in (c : NCache.NutrientCache) (n : str) :
  In n (NCache.getNutrientNames c) <-> In n (NCache.map_keys (NCache.nameToPathMap c)).
Proof.
  unfold NCache.getNutrientNames.
  induction (NCache.map_keys (NCache.nameToPathMap c)) as [|k ks IH]; simpl; [tauto|].
  rewrite insert_sorted_in, IH. intuition congruence.
Qed.

Lemma map_get_entry (V : Type) (k : str) (v : V) (m : NCache.Map V) :
  NCache.map_get k m = Some v -> In (k, v) m.
Proof.
  induction m as [|[k0 v0] m IH]; simpl; [discriminate|].
  destruct (str_eqb_spec k0 k) as [->|Hne].
  - intros H. injection H as ->. now left.
  - intros H. right. now apply IH.
Qed.

Lemma first_entry_found (test : str -> NCache.entry -> bool) (m : NCache.Map NCache.entry)
      (k : str) (e : NCache.entry) :
  In (k, e) m -> test k e = true -> NCache.first_entry test m <> None.
Proof.
  intros Hin Ht. unfold NCache.first_entry.
  destruct (find (fun ke => test (fst ke) (snd ke)) m) eqn:F; [discriminate|].
  eapply find_none in F; [|exact Hin]. simpl in F. congruence.
Qed.

Lemma sound_resolves (c : NCache.NutrientCache) (n : str) :
  sound c -> In n (NCache.getNutrientNames c) ->
  NCache.getNutritionData c n <> None.
Proof.
  intros (D & N & S) Hin. apply getNutrientNames_in in Hin.
  apply map_in_get in Hin. destruct Hin as [p Hp].
  destruct (S n p Hp) as [d Hd]. unfold NCache.getNutritionData.
  destruct (if NCache.includes n "#" then _ else None); [discriminate|].
  rewrite Hp. destruct p as [|x p].
  - destruct (NCache.first_entry (fun path _ => Str.eqb (NCache.base_name path) n) _);
      [discriminate|].
    eapply first_entry_found; [eapply map_get_entry, Hd|]. cbn. apply str_eqb_refl.
  - rewrite Hd. discriminate.
Qed.

(** X19: after any sequence of operations on a new cache, whatever the
    vault answers, neither map holds a key twice, every name that
    [getNutrientNames] lists is mapped to a path under which an entry with
    that name is cached, and [getNutritionData] of a listed name is not
    null. *)
Theorem listed_names_resolve (parseFloat : str -> number)
        (String_of : NCache.value -> str)
        (JSON_parse : str -> option NCache.value) (directory : str)
        (history : list (NCache.Vault * NCache.operation)) :
  let c := fold_left (NCache.perform parseFloat String_of JSON_parse) history
                     (NCache.new directory) in
  NoDup (NCache.map_keys (NCache.nutrientDataCache c))
  /\ NoDup (NCache.map_keys (NCache.nameToPathMap c))
  /\ Forall
       (fun n =>
          (exists p d,
              NCache.map_get n (NCache.nameToPathMap c) = Some p
              /\ NCache.map_get p (NCache.nutrientDataCache c)
                 = Some {| NCache.name := n; NCache.data := d |})
          /\ NCache.getNutritionData c n <> None)
       (NCache.getNutrientNames c).
Proof.
  intros c.
  assert (Hs : sound c).
  { unfold c. apply fold_left_invariant.
    - intros c0 step H. now apply sound_perform.
    - split; [constructor|]. split; [constructor|]. intros n p H. discriminate H. }
  split; [apply Hs|]. split; [apply Hs|].
  apply Forall_forall. intros n Hin. split; [|now apply sound_resolves].
  destruct Hs as (D & N & S). apply getNutrientNames_in in Hin.
  apply map_in_get in Hin. destruct Hin as [p Hp].
  destruct (S n p Hp) as [d Hd]. now exists p, d.
Qed.

(** X20: a file whose front matter has a name without a hash sign is, once
    processed, found under that name by [getNutritionData], with the data
    read from its front matter, whatever else the cache holds. *)
Theorem processed_file_is_found (parseFloat : str -> number)
        (String_of : NCache.value -> str)
        (c : NCache.NutrientCache)
        (file : NCache.TFile) (fm : option (list (str * NCache.value)))
        (nutrientName : str) :
  NCache.extractNutrientName String_of fm = Some nutrientName ->
  nutrientName <> [] ->
  NCache.includes nutrientName "#" = false ->
  NCache.path file <> [] ->
  NCache.getNutritionData
    (NCache.processNutrientFile parseFloat String_of c file fm) nutrientName
  = Some (NCache.extractNutritionData parseFloat fm).
Proof.
  intros En Hn Hh Hp. unfold NCache.getNutritionData, NCache.processNutrientFile.
  rewrite Hh, En. destruct nutrientName as [|x n]; [contradiction|].
  cbn [NCache.nameToPathMap NCache.nutrientDataCache NCache.with_maps].
  rewrite map_get_set_same.
  destruct (NCache.path file) as [|y q] eqn:P; [contradiction|].
  now rewrite map_get_set_same.
Qed.

Lemma processed_file_is_found_witness :
  NCache.getNutritionData
    (NCache.processNutrientFile parseFloat Larder.String_of Larder.stocked
                                Larder.apple (Some Larder.apple_front))
    (lit "Apple")
  = Some (NCache.extractNutritionData parseFloat (Some Larder.apple_front)).
Proof.
  apply processed_file_is_found; [reflexivity|discriminate|reflexivity|discriminate].
Defined.

(** X21: when two cached files bear the same name and one of them is
    removed, the name leaves the list of names and has no file name any more,
    although the other file is still cached: the name map holds one path per
    name and the removal deletes the name without looking at the path. *)
Theorem shared_name_is_unlisted (c : NCache.NutrientCache) (removed kept : str)
        (e1 e2 : NCache.entry) :
  NoDup (NCache.map_keys (NCache.nameToPathMap c)) ->
  NCache.map_get removed (NCache.nutrientDataCache c) = Some e1 ->
  NCache.map_get kept (NCache.nutrientDataCache c) = Some e2 ->
  removed <> kept ->
  NCache.name e1 = NCache.name e2 ->
  let c' := NCache.removeFileFromCache c removed in
  NCache.map_get kept (NCache.nutrientDataCache c') = Some e2
  /\ ~ In (NCache.name e2) (NCache.getNutrientNames c')
  /\ NCache.getFileNameFromNutrientName c' (NCache.name e2) = None.
Proof.
  intros N G1 G2 Hne E c'. unfold c', NCache.removeFileFromCache. rewrite G1.
  cbn [NCache.nutrientDataCache NCache.nameToPathMap NCache.with_maps].
  assert (X : NCache.map_get (NCache.name e2)
                (NCache.map_delete (NCache.name e1) (NCache.nameToPathMap c)) = None).
  { rewrite E. now apply map_get_delete_same. }
  split; [now rewrite map_get_delete_other|]. split.
  - intros Hin. apply getNutrientNames_in in Hin.
    cbn [NCache.nameToPathMap NCache.with_maps] in Hin.
    apply map_in_get in Hin. destruct Hin as [p Hp]. congruence.
  - unfold NCache.getFileNameFromNutrientName.
    cbn [NCache.nameToPathMap NCache.with_maps]. now rewrite X.
Qed.

Lemma shared_name_is_unlisted_witness :
  let c' := NCache.removeFileFromCache Larder.stocked (NCache.path Larder.apple) in
  NCache.map_get (NCache.path Larder.green_apple) (NCache.nutrientDataCache c')
  = Some Larder.apple_entry
  /\ ~ In (NCache.name Larder.apple_entry) (NCache.getNutrientNames c')
  /\ NCache.getFileNameFromNutrientName c' (NCache.name Larder.apple_entry) = None.
Proof.
  apply (@shared_name_is_unlisted Larder.stocked (NCache.path Larder.apple)
           (NCache.path Larder.green_apple) Larder.apple_entry Larder.apple_entry).
  - vm_compute. repeat (constructor; [simpl; intuition discriminate|]). constructor.
  - vm_compute. reflexivity.
  - vm_compute. reflexivity.
  - discriminate.
  - reflexivity.
Defined.

Lemma in_map_get (V : Type) (k : str) (v : V) (m : NCache.Map V) :
  NoDup (NCache.map_keys m) -> In (k, v) m -> NCache.map_get k m = Some v.
Proof.
  induction m as [|[k0 v0] m IH]; simpl; [intros _ []|].
  intros H. inversion H as [|? ? Hk0 Hm]; subst.
  intros [X|X].
  - injection X as -> ->. now rewrite str_eqb_refl.
  - destruct (str_eqb_spec k0 k) as [->|Hk].
    + exfalso. apply Hk0. change k with (fst (k, v)). now apply in_map.
    + now apply IH.
Qed.

(** X22: after a single-file database is processed, every cached entry is
    keyed by the path of the file, a hash sign and the entry's name, carries
    all nine nutrient keys in their order, and is the entry its name is mapped
    to. *)
Theorem single_file_entries (parseFloat : str -> number)
        (String_of : NCache.value -> str)
        (JSON_parse : str -> option NCache.value) (v : NCache.Vault)
        (c : NCache.NutrientCache) (file : NCache.TFile) :
  let c' := NCache.processSingleFile parseFloat String_of JSON_parse v c file in
  Forall
    (fun ke =>
       fst ke = NCache.path file ++ lit "#" ++ NCache.name (snd ke)
       /\ keys (NCache.data (snd ke)) = all_keys
       /\ NCache.map_get (NCache.name (snd ke)) (NCache.nameToPathMap c') = Some (fst ke))
    (NCache.nutrientDataCache c').
Proof.
  intros c'.
  assert (Inv : NoDup (NCache.map_keys (NCache.nutrientDataCache c'))
                /\ forall k e,
                     NCache.map_get k (NCache.nutrientDataCache c') = Some e ->
                     k = NCache.path file ++ lit "#" ++ NCache.name e
                     /\ keys (NCache.data e) = all_keys
                     /\ NCache.map_get (NCache.name e) (NCache.nameToPathMap c') = Some k).
  { unfold c', NCache.processSingleFile.
    destruct (NCache.cachedRead v file) as [content|];
      [|split; [constructor|intros k e H; discriminate H]].
    apply fold_left_invariant.
    - intros c0 item [D I]. unfold NCache.add_food.
      destruct (negb (NCache.truthy item)
                || negb (NCache.truthy (NCache.property item "name")));
        [now split|].
      cbn [NCache.nutrientDataCache NCache.nameToPathMap NCache.with_maps].
      split; [now apply map_set_nodup|].
      intros k e H. rewrite map_get_set in H. rewrite map_get_set.
      match type of H with
      | (if Str.eqb ?key0 k then _ else _) = _ => set (key := key0) in *
      end.
      destruct (str_eqb_spec key k) as [<-|Hk].
      + injection H as <-. cbn [NCache.name NCache.data]. rewrite str_eqb_refl.
        repeat split.
      + destruct (I k e H) as (A & B & C). split; [exact A|]. split; [exact B|].
        destruct (str_eqb_spec (NCache.to_String String_of (NCache.property item "name"))
                               (NCache.name e)) as [En|_]; [|exact C].
        exfalso. apply Hk. unfold key. now rewrite En, A.
    - split; [constructor|intros k e H; discriminate H]. }
  destruct Inv as [D I]. apply Forall_forall. intros [k e] Hin.
  apply (I k e). now apply in_map_get.
Qed.

Lemma extract_fold (parseFloat : str -> number) (fields : list (str * NCache.value))
      (k : key) :
  forall (fs : list (key * list string)) (acc : NC.NutrientData),
    NoDup (map fst fs) ->
    get k (fold_left
             (fun data field =>
                match NCache.first_defined
                        (map (fun alias => NCache.field_of (lit alias) fields) (snd field)) with
                | NCache.VUndefined => data
                | v => set (fst field) (NCache.parseNumber parseFloat v) data
                end) fs acc)
    = match find (fun field => key_eqb (fst field) k) fs with
      | Some field =>
          match NCache.first_defined
                  (map (fun alias => NCache.field_of (lit alias) fields) (snd field)) with
          | NCache.VUndefined => get k acc
          | v => Some (NCache.parseNumber parseFloat v)
          end
      | None => get k acc
      end.
Proof.
  induction fs as [|[k0 al] fs IH]; intros acc Hnd; [reflexivity|].
  inversion Hnd as [|? ? Hk0 Hfs]; subst. cbn [fold_left find fst snd].
  rewrite IH by exact Hfs.
  destruct (key_eqb_spec k0 k) as [->|Hne].
  - assert (F : find (fun field => key_eqb (fst field) k) fs = None).
    { destruct (find _ fs) as [[k1 a1]|] eqn:F; [|reflexivity].
      apply find_some in F. destruct F as [Hin Hk]. cbn in Hk.
      destruct (key_eqb_spec k1 k) as [->|]; [|discriminate].
      exfalso. apply Hk0. change k with (fst (k, a1)). now apply in_map. }
    rewrite F.
    destruct (NCache.first_defined _); try reflexivity; apply get_set_same.
  - assert (G : forall v, get k (set k0 v acc) = get k acc)
      by (intros v; now apply get_set_other).
    destruct (find _ fs) as [[k1 a1]|];
      destruct (NCache.first_defined (map _ al)); cbn [snd]; rewrite ?G; reflexivity.
Qed.

(** X23: the data read from a front matter has a key exactly when one of
    the key's aliases is defined there, with the number parsed from the first
    alias that is defined; and a parsed number is NaN only when the value is
    the number NaN itself: a string that does not parse, null, a boolean or
    a list gives 0. *)
Theorem front_matter_fields (parseFloat : str -> number)
        (fields : list (str * NCache.value)) :
  (forall k,
      get k (NCache.extractNutritionData parseFloat (Some fields))
      = match NCache.first_defined
                (map (fun alias => NCache.field_of (lit alias) fields) (aliases_of k)) with
        | NCache.VUndefined => None
        | v => Some (NCache.parseNumber parseFloat v)
        end)
  /\ (forall v, is_nan (NCache.parseNumber parseFloat v) = true ->
                exists x, v = NCache.VNumber x /\ is_nan x = true).
Proof.
  split.
  - intros k. unfold NCache.extractNutritionData.
    rewrite extract_fold
      by (cbn; repeat constructor; cbn; intuition discriminate).
    unfold aliases_of. destruct k; reflexivity.
  - intros v. destruct v as [| |b|x|s|items|fs]; cbn; try discriminate.
    + intros H. now exists x.
    + destruct (is_nan (parseFloat s)) eqn:E; [discriminate|]. congruence.
Qed.

(** X24: when the configured path is not a file, [initialize] ends in
    directory mode, and every path it caches is the path of a markdown file
    of the vault that starts with the directory and a slash. *)
Theorem initialize_reads_the_directory (parseFloat : str -> number)
        (String_of : NCache.value -> str)
        (JSON_parse : str -> option NCache.value) (v : NCache.Vault) (c : NCache.NutrientCache) :
  (forall f, NCache.getAbstractFileByPath v (NCache.nutrientDirectory c)
             <> Some (NCache.File f)) ->
  let c' := NCache.initialize parseFloat String_of JSON_parse v c in
  NCache.isSingleFileMode c' = false
  /\ NCache.singleFilePath c' = None
  /\ Forall
       (fun p =>
          NCache.startsWith p (NCache.nutrientDirectory c ++ lit "/") = true
          /\ exists file, In file (NCache.getMarkdownFiles v) /\ NCache.path file = p)
       (NCache.map_keys (NCache.nutrientDataCache c')).
Proof.
  intros Hdir c'. unfold c', NCache.initialize.
  set (P := fun p =>
              NCache.startsWith p (NCache.nutrientDirectory c ++ lit "/") = true
              /\ exists file, In file (NCache.getMarkdownFiles v) /\ NCache.path file = p).
  assert (Dir : forall files c0,
             Forall (fun file => P (NCache.path file)) files ->
             (NCache.isSingleFileMode c0 = false /\ NCache.singleFilePath c0 = None
              /\ Forall P (NCache.map_keys (NCache.nutrientDataCache c0))) ->
             let c1 := fold_left
                         (fun c0 file =>
                            NCache.processNutrientFile parseFloat String_of c0 file
                                                       (NCache.frontmatter v file))
                         files c0 in
             NCache.isSingleFileMode c1 = false /\ NCache.singleFilePath c1 = None
             /\ Forall P (NCache.map_keys (NCache.nutrientDataCache c1))).
  { induction files as [|file files IH]; intros c0 Hf H0; [exact H0|].
    inversion Hf as [|? ? Hfile Hfiles]; subst. cbn [fold_left]. apply IH; [exact Hfiles|].
    destruct H0 as (A & B & C). unfold NCache.processNutrientFile, NCache.removeFileFromCache.
    destruct (NCache.extractNutrientName String_of (NCache.frontmatter v file)) as [[|x n]|];
      try (destruct (NCache.map_get (NCache.path file) (NCache.nutrientDataCache c0));
           [|now repeat split];
           split; [exact A|]; split; [exact B|];
           apply Forall_forall; intros p Hp; apply map_keys_delete in Hp;
           exact (proj1 (Forall_forall _ _) C p Hp)).
    split; [exact A|]. split; [exact B|].
    apply Forall_forall. intros p Hp.
    cbn [NCache.nutrientDataCache NCache.with_maps] in Hp.
    apply map_keys_set in Hp. destruct Hp as [->|Hp]; [exact Hfile|].
    exact (proj1 (Forall_forall _ _) C p Hp). }
  assert (Hfiles : Forall (fun file => P (NCache.path file))
                          (filter (fun file => NCache.startsWith (NCache.path file)
                                                 (NCache.nutrientDirectory c ++ lit "/"))
                                  (NCache.getMarkdownFiles v))).
  { apply Forall_forall. intros file Hin. apply filter_In in Hin.
    destruct Hin as [Hin Hs]. split; [exact Hs|]. now exists file. }
  destruct (NCache.getAbstractFileByPath v (NCache.nutrientDirectory c)) as [[f|d]|] eqn:G;
    [exfalso; now apply (Hdir f) | |];
    (apply Dir; [exact Hfiles|]; repeat split; constructor).
Qed.

Lemma initialize_reads_the_directory_witness :
  let c' := NCache.initialize parseFloat Larder.String_of Larder.JSON_parse Larder.vault
                              (NCache.new (lit "nutrients")) in
  NCache.isSingleFileMode c' = false
  /\ NCache.singleFilePath c' = None
  /\ Forall
       (fun p =>
          NCache.startsWith p (lit "nutrients" ++ lit "/") = true
          /\ exists file, In file (NCache.getMarkdownFiles Larder.vault)
                          /\ NCache.path file = p)
       (NCache.map_keys (NCache.nutrientDataCache c')).
Proof.
  apply (@initialize_reads_the_directory parseFloat Larder.String_of Larder.JSON_parse
           Larder.vault (NCache.new (lit "nutrients"))).
  intros f. discriminate.
Defined.

(** X25: in directory mode, renaming a markdown file of the directory to
    another path of the directory moves its entry: nothing is cached under
    the old path, and the new path holds the name and the data of the front
    matter, with the name mapped to the new path. *)
Theorem rename_moves_the_entry (parseFloat : str -> number)
        (String_of : NCache.value -> str)
        (JSON_parse : str -> option NCache.value) (v : NCache.Vault)
        (c : NCache.NutrientCache) (file : NCache.TFile) (oldPath nutrientName : str) :
  NoDup (NCache.map_keys (NCache.nutrientDataCache c)) ->
  NCache.isSingleFileMode c = false ->
  NCache.startsWith oldPath (NCache.nutrientDirectory c ++ lit "/") = true ->
  NCache.endsWith oldPath (lit ".md") = true ->
  NCache.isNutrientFile c (NCache.File file) = true ->
  oldPath <> NCache.path file ->
  NCache.extractNutrientName String_of (NCache.frontmatter v file) = Some nutrientName ->
  nutrientName <> [] ->
  let c' := NCache.handleRename parseFloat String_of JSON_parse v c file oldPath in
  NCache.map_get oldPath (NCache.nutrientDataCache c') = None
  /\ NCache.map_get (NCache.path file) (NCache.nutrientDataCache c')
     = Some {| NCache.name := nutrientName;
               NCache.data := NCache.extractNutritionData parseFloat
                                (NCache.frontmatter v file) |}
  /\ NCache.map_get nutrientName (NCache.nameToPathMap c') = Some (NCache.path file).
Proof.
  intros D M S E F Hne En Hn c'. unfold c', NCache.handleRename.
  rewrite M, S, E. cbn [andb].
  assert (F1 : NCache.isNutrientFile (NCache.removeFileFromCache c oldPath)
                                     (NCache.File file) = true).
  { unfold NCache.removeFileFromCache.
    destruct (NCache.map_get oldPath (NCache.nutrientDataCache c)); exact F. }
  rewrite F1. unfold NCache.processNutrientFile. rewrite En.
  destruct nutrientName as [|x n]; [contradiction|].
  cbn [NCache.nutrientDataCache NCache.nameToPathMap NCache.with_maps].
  split; [|split; apply map_get_set_same].
  rewrite map_get_set_other by congruence.
  unfold NCache.removeFileFromCache.
  destruct (NCache.map_get oldPath (NCache.nutrientDataCache c)) eqn:G; [|exact G].
  cbn [NCache.nutrientDataCache NCache.with_maps]. now apply map_get_delete_same.
Qed.

Lemma rename_moves_the_entry_witness :
  let c' := NCache.handleRename parseFloat Larder.String_of Larder.JSON_parse Larder.vault
                                Larder.stocked Larder.moved_pear (NCache.path Larder.pear) in
  NCache.map_get (NCache.path Larder.pear) (NCache.nutrientDataCache c') = None
  /\ NCache.map_get (NCache.path Larder.moved_pear) (NCache.nutrientDataCache c')
     = Some {| NCache.name := lit "Pear";
               NCache.data := NCache.extractNutritionData parseFloat
                                (NCache.frontmatter Larder.vault Larder.moved_pear) |}
  /\ NCache.map_get (lit "Pear") (NCache.nameToPathMap c') = Some (NCache.path Larder.moved_pear).
Proof.
  apply (@rename_moves_the_entry parseFloat Larder.String_of Larder.JSON_parse Larder.vault
           Larder.stocked Larder.moved_pear (NCache.path Larder.pear) (lit "Pear")).
  - vm_compute. repeat (constructor; [simpl; intuition discriminate|]). constructor.
  - reflexivity.
  - reflexivity.
  - reflexivity.
  - reflexivity.
  - discriminate.
  - reflexivity.
  - discriminate.
Defined.
